(** * play-versus-twitch-chat: match orchestration and move voting

    A shallow embedding of [src/lichess/bot.py]: the vote window of
    [Game.poll_for_legal_move], the event loop of [Game.start], the
    orchestrator [Bot] with its challenge queue, and the chat command
    [ChatCommands.when].

    Conventions.
    - Python [str] is [string]; a Python [dict] is an association list in
      insertion order (Python dictionaries iterate in insertion order, and
      [max] over a dictionary depends on that order); a Python [set] is a
      list used only through membership.
    - Calls to the outside world (chat, chess server, statistics store,
      threads) are recorded, in call order, in a list of [Effect]s; logger
      calls are left out.  Chat and move calls are taken to return; of the
      server calls only [challenges.create] can raise.
    - A raised Python exception is the [raised] field of an outcome; the state reached
      when it is raised is kept, as mutations in Python are.
    - [time.time()] is an integer clock reading in some fixed unit; all
      readings within one operation are the same.
    - The operations of the orchestrator (a chat command, an incoming
      event, the poll of [main.py], progress of the game thread) run one
      after the other.  [Bot] is what the orchestrator holds; [World] adds
      the game threads it has let go (after the [join(timeout=60)] of
      [set_active_game], or by overwriting the handle) and the [Game]
      objects they keep running on.  The [stats] command and the
      start-up of the chat client are left out. *)

From Stdlib Require Import List String Ascii ZArith Bool Arith Lia DecimalString.
Import ListNotations.
Local Open Scope string_scope.
Local Open Scope list_scope.

Set Implicit Arguments.

(** ** Python containers *)

(** [x in l] for a list or a set of strings. *)
Definition str_in (x : string) (l : list string) : bool :=
  existsb (String.eqb x) l.

(** A [dict] from [str] to [int]: entries in insertion order, one per key. *)
Definition PyDict := list (string * Z).

Definition dict_keys (d : PyDict) : list string := map fst d.

(** [k in d] *)
Definition dict_mem (k : string) (d : PyDict) : bool := str_in k (dict_keys d).

(** [d.get(k)]; a missing key gives [None]. *)
Fixpoint dict_get (k : string) (d : PyDict) : option Z :=
  match d with
  | [] => None
  | (k', v) :: d' => if String.eqb k k' then Some v else dict_get k d'
  end.

(** [d[k] = v]: an existing key keeps its place, a new key goes last. *)
Fixpoint dict_set (k : string) (v : Z) (d : PyDict) : PyDict :=
  match d with
  | [] => [(k, v)]
  | (k', v') :: d' =>
      if String.eqb k k' then (k', v) :: d' else (k', v') :: dict_set k v d'
  end.

(** The count read by this development for a key: [d.get(k)], with 0 for
    a key that has no entry. *)
Definition count (d : PyDict) (k : string) : Z :=
  match dict_get k d with Some v => v | None => 0 end.

(** [max(iterable, key=f)]: the running maximum is replaced only by an item
    whose key is strictly greater, so the first maximal item is returned;
    an empty iterable raises [ValueError] ([None] here). *)
Fixpoint max_from (A : Type) (key : A -> Z) (best : A) (rest : list A) : A :=
  match rest with
  | [] => best
  | x :: rest' =>
      if (key x >? key best)%Z then max_from key x rest'
      else max_from key best rest'
  end.

Definition py_max (A : Type) (key : A -> Z) (l : list A) : option A :=
  match l with
  | [] => None
  | x :: rest => Some (max_from key x rest)
  end.

(** ** The vote window of [Game.poll_for_legal_move] *)

(** [msg.user.name] and [msg.text] of a [ChatMessage]. *)
Record ChatMessage := mkMsg { msg_user : string; msg_text : string }.

(** The two locals the handler closes over. *)
Record Tally := mkTally { num_votes : PyDict; users : list string }.

Definition empty_tally : Tally := mkTally [] [].

(** [on_message], lines 236-241. *)
Definition on_message (legal_moves : list string) (t : Tally) (msg : ChatMessage)
  : Tally :=
  if negb (str_in (msg_user msg) (users t)) && str_in (msg_text msg) legal_moves
  then
    let nv0 :=
      if negb (dict_mem (msg_text msg) (num_votes t))
      then dict_set (msg_text msg) 0 (num_votes t)
      else num_votes t in
    let nv1 := dict_set (msg_text msg) (count nv0 (msg_text msg) + 1) nv0 in
    mkTally nv1 (msg_user msg :: users t)
  else t.

(** The messages delivered while the handler is registered, in arrival
    order. *)
Definition collect (legal_moves : list string) (msgs : list ChatMessage)
  (t : Tally) : Tally :=
  fold_left (on_message legal_moves) msgs t.

(** [max(num_votes, key=num_votes.get)], line 254. *)
Definition select_move (nv : PyDict) : option string :=
  py_max (count nv) (dict_keys nv).

(** [random.choice(seq)] with the generator's draw [pick]; an empty
    sequence raises [IndexError] ([None] here). *)
Definition random_choice (A : Type) (pick : nat) (l : list A) : option A :=
  match l with
  | [] => None
  | _ => nth_error l (pick mod List.length l)
  end.

(** ** The outside world *)

(** [str(n)] *)
Definition str_of_nat (n : nat) : string :=
  NilEmpty.string_of_uint (Nat.to_uint n).

(** The formatted texts the program sends, one constructor per f-string. *)
Inductive Text : Type :=
| TChallenging (twitch lichess : string)
| TQueuePosition (twitch : string) (position : nat)
| TFailed (err_message : string)
| TResult (user_won_truthy : bool) (twitch lichess : string)
| TTimedOut (twitch lichess : string)
| TDeclined (twitch lichess : string)
| TStarting (twitch lichess : string)
| TVoteOpen
| TVoteRandom (move : string)
| TVoteSelected (move : string)
| TOpponentMoved (san : string)
| TWhenPosition (position : nat) (lichess : string)
| TNotInQueue.

Definition render (m : Text) : string :=
  match m with
  | TChallenging t l => "Challenging user " ++ t ++ " (" ++ l ++ ")"
  | TQueuePosition t n =>
      "@" ++ t ++ " Your challenge will start soon. Your position in queue: "
          ++ str_of_nat n
  | TFailed e => "Failed to challenge user: " ++ e
  | TResult w t l =>
      (if w then "Lost" else "Won") ++ " a game vs " ++ t ++ " (" ++ l ++ "), GG!"
  | TTimedOut t l => "Challenge invitation for " ++ t ++ " (" ++ l ++ ") timed out"
  | TDeclined t l => "User " ++ t ++ " (" ++ l ++ ") declined the challenge"
  | TStarting t l => "Starting a game vs " ++ t ++ " (" ++ l ++ ")"
  | TVoteOpen => "Vote for the next move. You have 30 seconds."
  | TVoteRandom mv => "Voting closed. No one voted, selecting random move: " ++ mv
  | TVoteSelected mv => "Voting closed. Selected move: " ++ mv
  | TOpponentMoved san => "Opponent moved: " ++ san
  | TWhenPosition n l =>
      "Your position in queue: " ++ str_of_nat n ++ ", Lichess account: " ++ l
  | TNotInQueue => "You are not in queue"
  end.

(** Calls that leave the program. Logger calls are not recorded. *)
Inductive Effect : Type :=
| SendMessage (m : Text)                        (* chat.send_message(TARGET_CHANNEL, m) *)
| Reply (m : Text)                              (* cmd.reply(m) *)
| ChallengesCreate (lichess : string)           (* client.challenges.create(lichess, rated=False) *)
| AddGame (twitch : string) (user_won : option bool) (* user_database.add_game *)
| MakeMove (game_id : option string) (san : string) (* client.bots.make_move *)
| ThreadStart (game_id : string) (first_move : bool)
| ThreadJoin.                                   (* thread.join(timeout=60) *)

Inductive Exn : Type :=
  TypeError | IndexError | KeyError | ValueError | AssertionError.

(** What running a piece of the program from some state gives: the calls
    made, the state reached, and the exception that stopped it, if any. *)
Record Out (S : Type) : Type :=
  mkOut { trace : list Effect; final : S; raised : option Exn }.

Definition ret (S : Type) (s : S) : Out S := mkOut [] s None.
Definition emit (S : Type) (e : Effect) (s : S) : Out S := mkOut [e] s None.
Definition raise (S : Type) (x : Exn) (s : S) : Out S := mkOut [] s (Some x).

(** Sequencing: the second part runs only if the first raised nothing. *)
Definition andThen (S : Type) (o : Out S) (k : S -> Out S) : Out S :=
  match raised o with
  | Some _ => o
  | None => let o' := k (final o) in
            mkOut (trace o ++ trace o') (final o') (raised o')
  end.

Notation "o ;; k" := (andThen o k) (at level 61, left associativity).

(** ** External libraries *)

(** The part of python-chess the program uses.  [push_uci b m] stands for
    [move = chess.Move.from_uci(m); san = board.san(move); board.push(move)]:
    the notation of the move and the board after it, or the exception one
    of the three calls raises ([ValueError] from [from_uci] for a string
    that is no move, [AssertionError] from [san] for a move the position
    does not allow). *)
Class ChessLib : Type := {
  Board : Type;
  new_board : Board;                      (* chess.Board() *)
  legal_sans : Board -> list string;      (* [str(board.san(m)) for m in board.legal_moves] *)
  push_uci : Board -> string -> Exn + (string * Board);
  turn : Board -> bool                    (* board.turn; chess.WHITE is True *)
}.

(** The chess server: the answer to the [n]-th call of
    [client.challenges.create], either the challenge id or the message of
    the [ResponseError] it raises. *)
Class ChessServer : Type := {
  challenges_create : nat -> string -> string + string
}.

(** [ACCEPT_CHALLENGE_WAIT_SECONDS] is imported from the package [lichess],
    whose [__init__] is not among the sources: it is a parameter. *)
Class Constants : Type := {
  ACCEPT_CHALLENGE_WAIT_SECONDS : Z
}.

Section Model.
Context {chess : ChessLib} {server : ChessServer} {constants : Constants}.

(** ** [Game] *)

Inductive GameState : Type := CHALLENGE_SENT | IN_PROGRESS | FINISHED.


(** The fields of [Game.__init__] (the back reference [bot] left out). *)
Record Game : Type := mkGame {
  opponent_twitch : string;
  opponent_lichess : string;
  state : GameState;
  start_time : Z;
  board : Board;
  game_id : option string;
  color : option bool;
  challenge_id : string;
  user_won : option bool
}.

(** [Game(bot, opponent_lichess, opponent_twitch, challenge_id)] built at
    clock reading [now]. *)
Definition Game_init (now : Z) (twitch lichess cid : string) : Game :=
  mkGame twitch lichess CHALLENGE_SENT now new_board None None cid None.

Definition with_state (s : GameState) (g : Game) : Game :=
  mkGame (opponent_twitch g) (opponent_lichess g) s (start_time g) (board g)
         (game_id g) (color g) (challenge_id g) (user_won g).

Definition with_board (b : Board) (g : Game) : Game :=
  mkGame (opponent_twitch g) (opponent_lichess g) (state g) (start_time g) b
         (game_id g) (color g) (challenge_id g) (user_won g).

Definition with_user_won (w : option bool) (g : Game) : Game :=
  mkGame (opponent_twitch g) (opponent_lichess g) (state g) (start_time g)
         (board g) (game_id g) (color g) (challenge_id g) w.

(** One vote window: the chat messages that arrive while the handler is
    registered, and the draw [random.choice] would make. *)
Record Window := mkWindow { w_msgs : list ChatMessage; w_pick : nat }.

(** [Game.poll_for_legal_move], lines 231-257. *)
Definition poll_for_legal_move (w : Window) (g : Game) : Out Game :=
  let legal_moves := legal_sans (board g) in
  let t := collect legal_moves (w_msgs w) empty_tally in
  emit (SendMessage TVoteOpen) g ;; fun g =>
  match num_votes t with
  | [] =>
      match random_choice (w_pick w) legal_moves with
      | None => raise IndexError g
      | Some polled_move =>
          emit (SendMessage (TVoteRandom polled_move)) g ;;
          emit (MakeMove (game_id g) polled_move)
      end
  | _ :: _ =>
      match select_move (num_votes t) with
      | None => raise ValueError g
      | Some polled_move =>
          emit (SendMessage (TVoteSelected polled_move)) g ;;
          emit (MakeMove (game_id g) polled_move)
      end
  end.

(** [Game.handle_state_change], lines 259-268; [moves] is
    [event['moves'].split()]. *)
Definition handle_state_change (moves : list string) (w : Window) (g : Game)
  : Out Game :=
  let pushed :=
    match moves with
    | [] => inr (None, g)
    | _ :: _ =>
        match push_uci (board g) (last moves "") with
        | inl x => inl x
        | inr (san, b') => inr (Some san, with_board b' g)
        end
    end in
  match pushed with
  | inl x => raise x g
  | inr (move_san, g1) =>
      match color g1 with
      | Some c =>
          if Bool.eqb (turn (board g1)) c then
            (match move_san with
             | Some san => emit (SendMessage (TOpponentMoved san)) g1
             | None => ret g1
             end) ;; poll_for_legal_move w
          else ret g1
      | None => ret g1
      end
  end.

(** The events of [client.bots.stream_game_state]: [type], and for a
    [gameState] event its [status], [winner] (absent for most statuses) and
    split [moves]; for a [gameFull] event the split [state.moves]. *)
Inductive GameEvent : Type :=
| GameFull (moves : list string)
| GameStateEvent (status : string) (winner : option string) (moves : list string)
| OtherGameEvent.

(** The comparison of line 221, with [chess.WHITE = True] and
    [chess.BLACK = False]. *)
Definition winner_is_own (winner : string) (c : option bool) : bool :=
  (String.eqb winner "white" && match c with Some true => true | _ => false end)
  || (String.eqb winner "black" && match c with Some false => true | _ => false end).

(** The [for] loop of [Game.start], lines 213-227; every event comes with
    the vote window that opens if handling it polls the chat. *)
Fixpoint game_loop (events : list (GameEvent * Window)) (g : Game) : Out Game :=
  match events with
  | [] => ret g
  | (GameFull moves, w) :: rest =>
      handle_state_change moves w g ;; game_loop rest
  | (GameStateEvent status winner moves, w) :: rest =>
      if String.eqb status "aborted" then ret g
      else if String.eqb status "mate" then
        match winner with
        | None => raise KeyError g
        | Some wn =>
            if winner_is_own wn (color g)
            then ret (with_user_won (Some false) g)
            else ret (with_user_won (Some true) g)
        end
      else handle_state_change moves w g ;; game_loop rest
  | (OtherGameEvent, _) :: rest => game_loop rest g
  end.

(** Lines 205-208 of [Game.start]. *)
Definition start_enter (gid : string) (first_move : bool) (g : Game) : Game :=
  mkGame (opponent_twitch g) (opponent_lichess g) IN_PROGRESS (start_time g)
         (board g) (Some gid) (Some (if first_move then true else false))
         (challenge_id g) (user_won g).

(** Lines 210-229 of [Game.start]. *)
Definition start_run (first_move : bool) (w0 : Window)
  (events : list (GameEvent * Window)) (g : Game) : Out Game :=
  (if first_move then poll_for_legal_move w0 g else ret g) ;;
  game_loop events ;; fun g => ret (with_state FINISHED g).

(** [Game.start(game_id, first_move)]. *)
Definition start (gid : string) (first_move : bool) (w0 : Window)
  (events : list (GameEvent * Window)) (g : Game) : Out Game :=
  start_run first_move w0 events (start_enter gid first_move g).

(** ** [UserDatabase] *)

(** The table [users]: [twitch_username], [games], [won]. *)
Definition UsersTable := list (string * (Z * Z)).

(** [INSERT OR IGNORE INTO users VALUES (?, 0, 0)] *)
Definition insert_or_ignore (twitch : string) (tbl : UsersTable) : UsersTable :=
  if existsb (fun r => String.eqb (fst r) twitch) tbl then tbl
  else tbl ++ [(twitch, (0, 0))%Z].

(** [UPDATE users SET games = games + 1, won = won + ? WHERE twitch_username = ?] *)
Definition update_users (won : Z) (twitch : string) (tbl : UsersTable) : UsersTable :=
  map (fun r => if String.eqb (fst r) twitch
                then (fst r, (fst (snd r) + 1, snd (snd r) + won)%Z)
                else r) tbl.

(** [int(x)] for an [Optional[bool]]; [int(None)] raises [TypeError]. *)
Definition py_int (x : option bool) : option Z :=
  match x with
  | Some true => Some 1%Z
  | Some false => Some 0%Z
  | None => None
  end.

(** ** [Bot] *)

(** What identifies a session: the fields fixed when it is created. *)
Definition session_of (g : Game) : string * string * string * Z :=
  (challenge_id g, opponent_twitch g, opponent_lichess g, start_time g).

(** The handle of the thread that runs [active_game.start(game_id,
    isMyTurn)]: the two arguments, how far the call has got, and the
    session the thread was given. *)
Inductive ThreadStatus : Type := Spawned | Entered | Exited.

Record Thread := mkThread {
  th_game_id : string;
  th_first_move : bool;
  th_status : ThreadStatus;
  th_session : string * string * string * Z
}.

(** The fields of [Bot] the orchestration uses, with the module-level
    [user_database] and the number of [challenges.create] calls made so
    far (which selects the server's next answer). *)
Record Bot : Type := mkBot {
  _active_game : option Game;
  _active_game_thread : option Thread;
  challenge_queue : list (string * string);
  created : nat;
  user_database : UsersTable
}.

(** [Bot.__init__] *)
Definition Bot_init : Bot := mkBot None None [] 0 [].

Definition with_active (v : option Game) (b : Bot) : Bot :=
  mkBot v (_active_game_thread b) (challenge_queue b) (created b) (user_database b).

Definition with_thread (t : option Thread) (b : Bot) : Bot :=
  mkBot (_active_game b) t (challenge_queue b) (created b) (user_database b).

Definition with_queue (q : list (string * string)) (b : Bot) : Bot :=
  mkBot (_active_game b) (_active_game_thread b) q (created b) (user_database b).

Definition with_created (n : nat) (b : Bot) : Bot :=
  mkBot (_active_game b) (_active_game_thread b) (challenge_queue b) n (user_database b).

Definition with_database (tbl : UsersTable) (b : Bot) : Bot :=
  mkBot (_active_game b) (_active_game_thread b) (challenge_queue b) (created b) tbl.

(** [UserDatabase.add_game], lines 287-298: the first statement runs, then
    the arguments of the second are built, where [int(user_won)] may raise. *)
Definition add_game (twitch : string) (won : option bool) (b : Bot) : Out Bot :=
  emit (AddGame twitch won) b ;; fun b =>
  let b1 := with_database (insert_or_ignore twitch (user_database b)) b in
  match py_int won with
  | None => raise TypeError b1
  | Some n => ret (with_database (update_users n twitch (user_database b1)) b1)
  end.

(** Lines 113-116 of [Bot.set_active_game]: the assignment and the join. *)
Definition assign_active (value : option Game) (b : Bot) : Out Bot :=
  let b1 := with_active value b in
  match _active_game_thread b1 with
  | Some _ => emit ThreadJoin (with_thread None b1)
  | None => ret b1
  end.

(** [Bot.send_challenge], lines 130-147, with [retire] standing for what
    [set_active_game(None)] does after its assignment and join. *)
Definition send_challenge_with (retire : Bot -> Out Bot) (now : Z)
  (twitch lichess : string) (b : Bot) : Out Bot :=
  emit (SendMessage (TChallenging twitch lichess)) b ;;
  emit (ChallengesCreate lichess) ;; fun b =>
  let answer := challenges_create (created b) lichess in
  let b1 := with_created (S (created b)) b in
  match answer with
  | inl cid => assign_active (Some (Game_init now twitch lichess cid)) b1
  | inr err_message =>
      emit (SendMessage (TFailed err_message)) b1 ;;
      assign_active None ;; retire
  end.

(** Lines 117-119 of [Bot.set_active_game] for [value = None], by recursion
    on the queue [q] the state holds: [send_challenge] and
    [set_active_game] call each other, and every round pops one request. *)
Fixpoint advance (now : Z) (q : list (string * string)) (b : Bot) : Out Bot :=
  match q with
  | [] => ret b
  | (twitch, lichess) :: q' =>
      send_challenge_with (advance now q') now twitch lichess (with_queue q' b)
  end.

(** [Bot.set_active_game], lines 112-119. *)
Definition set_active_game (now : Z) (value : option Game) (b : Bot) : Out Bot :=
  assign_active value b ;; fun b =>
  match value with
  | None => advance now (challenge_queue b) b
  | Some _ => ret b
  end.

(** [Bot.send_challenge], lines 130-147. *)
Definition send_challenge (now : Z) (twitch lichess : string) (b : Bot) : Out Bot :=
  send_challenge_with (fun b => advance now (challenge_queue b) b)
                      now twitch lichess b.

(** The truth value of an [Optional[bool]]. *)
Definition truthy (x : option bool) : bool :=
  match x with Some true => true | _ => false end.

(** [Bot.get_active_game], lines 101-110, at clock reading [now]; the value
    it returns is the [_active_game] of the state it leaves. *)
Definition get_active_game (now : Z) (b : Bot) : Out Bot :=
  match _active_game b with
  | None => ret b
  | Some g =>
      match state g with
      | FINISHED =>
          emit (SendMessage (TResult (truthy (user_won g)) (opponent_twitch g)
                                     (opponent_lichess g))) b ;;
          add_game (opponent_twitch g) (user_won g) ;;
          set_active_game now None
      | CHALLENGE_SENT =>
          if (now - start_time g >? ACCEPT_CHALLENGE_WAIT_SECONDS)%Z then
            emit (SendMessage (TTimedOut (opponent_twitch g) (opponent_lichess g))) b ;;
            set_active_game now None
          else ret b
      | IN_PROGRESS => ret b
      end
  end.

(** Lines 126-128 of [Bot.challenge_user]. *)
Definition enqueue (twitch lichess : string) (b : Bot) : Out Bot :=
  let b1 := with_queue (challenge_queue b ++ [(twitch, lichess)]) b in
  emit (SendMessage (TQueuePosition twitch (List.length (challenge_queue b1)))) b1.

(** [Bot.challenge_user], lines 121-128; [and] evaluates
    [get_active_game()] only when the queue is empty. *)
Definition challenge_user (now : Z) (twitch lichess : string) (b : Bot) : Out Bot :=
  match challenge_queue b with
  | [] =>
      get_active_game now b ;; fun b =>
      match _active_game b with
      | None => send_challenge now twitch lichess b
      | Some _ => enqueue twitch lichess b
      end
  | _ :: _ => enqueue twitch lichess b
  end.

(** [Bot.handle_game_start_event], lines 168-175. *)
Definition handle_game_start_event (now : Z) (gid : string) (isMyTurn : bool)
  (b : Bot) : Out Bot :=
  get_active_game now b ;; fun b =>
  match _active_game b with
  | None => ret b
  | Some g =>
      emit (SendMessage (TStarting (opponent_twitch g) (opponent_lichess g))) b ;;
      fun b => emit (ThreadStart gid isMyTurn)
                    (with_thread (Some (mkThread gid isMyTurn Spawned (session_of g))) b)
  end.

(** [Bot.handle_challenge_declined_event], lines 177-182. *)
Definition handle_challenge_declined_event (now : Z) (cid : string) (b : Bot)
  : Out Bot :=
  get_active_game now b ;; fun b =>
  match _active_game b with
  | None => ret b
  | Some g =>
      if String.eqb cid (challenge_id g) then
        emit (SendMessage (TDeclined (opponent_twitch g) (opponent_lichess g))) b ;;
        set_active_game now None
      else ret b
  end.

(** The events of [client.bots.stream_incoming_events] by [type]. *)
Inductive IncomingEvent : Type :=
| EvChallenge
| EvGameStart (gid : string) (isMyTurn : bool)
| EvChallengeDeclined (cid : string)
| EvGameFinish
| EvOther.

(** The body of the loop of [Bot.start], lines 151-160. *)
Definition handle_incoming (now : Z) (ev : IncomingEvent) (b : Bot) : Out Bot :=
  match ev with
  | EvChallenge => ret b
  | EvGameStart gid isMyTurn => handle_game_start_event now gid isMyTurn b
  | EvChallengeDeclined cid => handle_challenge_declined_event now cid b
  | EvGameFinish => ret b
  | EvOther => ret b
  end.

(** ** [ChatCommands] *)

(** [cmd.user] ([name], [mod], and [badges]: the keys of the dictionary,
    or [None], which is what the chat library gives for a user without
    badges) and [cmd.parameter]. *)
Record ChatUser := mkUser {
  user_name : string;
  user_mod : bool;
  user_badges : option (list string)
}.

Record ChatCommand := mkCmd { cmd_user : ChatUser; parameter : string }.

(** The guard [not cmd.user.mod and "broadcaster" not in cmd.user.badges]
    raises [TypeError] when its second operand is evaluated on
    [badges = None]: for a user who is no moderator and has no badges. *)
Definition guard_raises (u : ChatUser) : bool :=
  negb (user_mod u)
  && match user_badges u with None => true | Some _ => false end.

(** The negation of the guard, where it does not raise. *)
Definition privileged (u : ChatUser) : bool :=
  negb (negb (user_mod u)
        && negb (match user_badges u with
                 | Some keys => str_in "broadcaster" keys
                 | None => false
                 end)).

(** [s.split(' ', 1)] for a string that holds a space; [None] when it
    holds none. *)
Fixpoint split_once (s : string) : option (string * string) :=
  match s with
  | EmptyString => None
  | String c s' =>
      if Ascii.eqb c " "%char then Some (EmptyString, s')
      else match split_once s' with
           | Some (a, b) => Some (String c a, b)
           | None => None
           end
  end.

(** [ChatCommands.challenge], lines 35-43. *)
Definition challenge (now : Z) (cmd : ChatCommand) (b : Bot) : Out Bot :=
  if guard_raises (cmd_user cmd) then raise TypeError b
  else if negb (privileged (cmd_user cmd)) then ret b
  else if (String.length (parameter cmd) =? 0)%nat then ret b
  else match split_once (parameter cmd) with
       | None => ret b
       | Some (twitch_username, lichess_username) =>
           challenge_user now twitch_username lichess_username b
       end.

(** [ChatCommands.play], lines 45-48. *)
Definition play (now : Z) (cmd : ChatCommand) (b : Bot) : Out Bot :=
  if (String.length (parameter cmd) =? 0)%nat then ret b
  else challenge_user now (user_name (cmd_user cmd)) (parameter cmd) b.

(** The [for] loop of [ChatCommands.when], lines 53-55, from index [idx]. *)
Fixpoint when_scan (name : string) (idx : nat) (q : list (string * string))
  : list Effect :=
  match q with
  | [] => []
  | (twitch_username, lichess_username) :: q' =>
      (if String.eqb twitch_username name
       then [Reply (TWhenPosition (idx + 1) lichess_username)]
       else [])
      ++ when_scan name (S idx) q'
  end.

(** [ChatCommands.when], lines 50-56. *)
Definition when (cmd : ChatCommand) (b : Bot) : Out Bot :=
  if guard_raises (cmd_user cmd) then raise TypeError b
  else if negb (privileged (cmd_user cmd)) then ret b
  else mkOut (when_scan (user_name (cmd_user cmd)) 0 (challenge_queue b)
              ++ [Reply TNotInQueue]) b None.

(** ** The game thread *)

(** The thread whose handle the orchestrator holds runs [Game.start] on the
    game it was given, which is the game in the slot as long as the handle
    is held ([thread_runs_active] below holds in every reachable state).
    It is followed in two steps: the assignments of lines 205-208, then the
    rest of the call.  An exception ends the thread only, so neither step
    raises into the orchestrator. *)
Definition thread_enter (b : Bot) : Out Bot :=
  match _active_game_thread b, _active_game b with
  | Some (mkThread gid first Spawned sid), Some g =>
      ret (with_thread (Some (mkThread gid first Entered sid))
             (with_active (Some (start_enter gid first g)) b))
  | _, _ => ret b
  end.

Definition thread_run (w0 : Window) (events : list (GameEvent * Window))
  (b : Bot) : Out Bot :=
  match _active_game_thread b, _active_game b with
  | Some (mkThread gid first Entered sid), Some g =>
      let o := start_run first w0 events g in
      mkOut (trace o)
            (with_thread (Some (mkThread gid first Exited sid))
               (with_active (Some (final o)) b))
            None
  | _, _ => ret b
  end.

(** ** The orchestrator as a transition system *)

(** What can happen to a [Bot]: a chat command, an event of the incoming
    stream, the poll of [main.py] ([chess_bot.get_active_game()] once a
    second), or progress of the game thread.  Each runs to its end before
    the next starts. *)
Inductive Op : Type :=
| OpChallenge (cmd : ChatCommand)
| OpPlay (cmd : ChatCommand)
| OpWhen (cmd : ChatCommand)
| OpIncoming (ev : IncomingEvent)
| OpPoll
| OpThreadEnter
| OpThreadRun (w0 : Window) (events : list (GameEvent * Window)).

Definition step (now : Z) (op : Op) (b : Bot) : Out Bot :=
  match op with
  | OpChallenge cmd => challenge now cmd b
  | OpPlay cmd => play now cmd b
  | OpWhen cmd => when cmd b
  | OpIncoming ev => handle_incoming now ev b
  | OpPoll => get_active_game now b
  | OpThreadEnter => thread_enter b
  | OpThreadRun w0 events => thread_run w0 events b
  end.

(** A run: the steps in order, each from the state the one before left
    (also when that one raised: the exception ends one handler, not the
    process). *)
Fixpoint run (ops : list (Z * Op)) (b : Bot) : list Effect * Bot :=
  match ops with
  | [] => ([], b)
  | (now, op) :: rest =>
      let o := step now op b in
      let (tr, b') := run rest (final o) in
      (trace o ++ tr, b')
  end.

Definition reachable (b : Bot) : Prop :=
  exists ops, snd (run ops Bot_init) = b.

End Model.

(** ** Notions the statements below use *)

(** The condition of line 237. *)
Definition counts (legal_moves : list string) (t : Tally) (msg : ChatMessage) : bool :=
  negb (str_in (msg_user msg) (users t)) && str_in (msg_text msg) legal_moves.

(** The messages of a window that count as votes, given who has voted
    already: the sender is new and the text is a legal move. *)
Fixpoint counted (legal_moves voted : list string) (msgs : list ChatMessage)
  : list ChatMessage :=
  match msgs with
  | [] => []
  | m :: rest =>
      if negb (str_in (msg_user m) voted) && str_in (msg_text m) legal_moves
      then m :: counted legal_moves (msg_user m :: voted) rest
      else counted legal_moves voted rest
  end.

(** The elements of [l] not in [seen], each at its first occurrence. *)
Fixpoint first_occurrences (seen l : list string) : list string :=
  match l with
  | [] => []
  | x :: rest =>
      if str_in x seen then first_occurrences seen rest
      else x :: first_occurrences (x :: seen) rest
  end.

(** The moves that got a vote, in the order of their first vote. *)
Definition first_vote_order (legal_moves : list string) (msgs : list ChatMessage)
  : list string :=
  first_occurrences [] (map msg_text (counted legal_moves [] msgs)).

(** The highest count of a tally. *)
Definition max_count (nv : PyDict) : Z :=
  fold_right Z.max 0%Z (map snd nv).

(** The spec's first tie-break, in its words: the first move to reach the
    count [target] as the messages arrive. *)
Fixpoint first_to_reach (legal_moves : list string) (target : Z)
  (msgs : list ChatMessage) (t : Tally) : option string :=
  match msgs with
  | [] => None
  | m :: rest =>
      let t' := on_message legal_moves t m in
      match find (fun kv => (snd kv >=? target)%Z) (num_votes t') with
      | Some kv => Some (fst kv)
      | None => first_to_reach legal_moves target rest t'
      end
  end.

Definition first_to_reach_max (legal_moves : list string) (msgs : list ChatMessage)
  : option string :=
  first_to_reach legal_moves
    (max_count (num_votes (collect legal_moves msgs empty_tally))) msgs empty_tally.

(** The spec's second tie-break, in its words: the first-inserted key among
    those with the maximum count. *)
Definition first_inserted_max (nv : PyDict) : option string :=
  find (fun k => (count nv k =? max_count nv)%Z) (dict_keys nv).

(** The requests a run asks for, in order: the calls of [challenge_user]
    the commands of the run make. *)
Definition requested_by (op : Op) : list (string * string) :=
  match op with
  | OpChallenge cmd =>
      if negb (privileged (cmd_user cmd)) then []
      else if (String.length (parameter cmd) =? 0)%nat then []
      else match split_once (parameter cmd) with
           | None => []
           | Some r => [r]
           end
  | OpPlay cmd =>
      if (String.length (parameter cmd) =? 0)%nat then []
      else [(user_name (cmd_user cmd), parameter cmd)]
  | _ => []
  end.

Definition requested (ops : list (Z * Op)) : list (string * string) :=
  flat_map (fun x => requested_by (snd x)) ops.

(** The requests a trace shows as issued, in order: every call of
    [send_challenge] starts with its "Challenging user" message. *)
Fixpoint issued (tr : list Effect) : list (string * string) :=
  match tr with
  | [] => []
  | SendMessage (TChallenging t l) :: rest => (t, l) :: issued rest
  | _ :: rest => issued rest
  end.

Section Notions.
Context {chess : ChessLib} {server : ChessServer} {constants : Constants}.

(** The request a step takes up: the one its command asks for, unless the
    handler is ended by an exception before it has dealt with it. *)
Definition taken (now : Z) (op : Op) (b : Bot) : list (string * string) :=
  match raised (step now op b) with
  | None => requested_by op
  | Some _ => []
  end.

Fixpoint taken_run (ops : list (Z * Op)) (b : Bot) : list (string * string) :=
  match ops with
  | [] => []
  | (now, op) :: rest =>
      taken now op b ++ taken_run rest (final (step now op b))
  end.

(** [o] issues requests from the front of [q] and leaves the rest queued. *)
Definition serves (q : list (string * string)) (o : Out Bot) : Prop :=
  issued (trace o) ++ challenge_queue (final o) = q.


(** The thread the orchestrator holds runs the session in the slot. *)
Definition thread_runs_active (b : Bot) : Prop :=
  forall th, _active_game_thread b = Some th ->
    exists g, _active_game b = Some g /\ session_of g = th_session th.

(** [g'] is the session [g], possibly further along: what identifies a
    session is fixed when it is created. *)
Definition same_session (g g' : Game) : Prop :=
  challenge_id g' = challenge_id g
  /\ opponent_twitch g' = opponent_twitch g
  /\ opponent_lichess g' = opponent_lichess g
  /\ start_time g' = start_time g.

(** The trace shows session [g] being retired: its result, its timeout or
    its decline is announced. *)
Definition retired_in (tr : list Effect) (g : Game) : Prop :=
  In (SendMessage (TResult (truthy (user_won g)) (opponent_twitch g)
                           (opponent_lichess g))) tr
  \/ In (SendMessage (TTimedOut (opponent_twitch g) (opponent_lichess g))) tr
  \/ In (SendMessage (TDeclined (opponent_twitch g) (opponent_lichess g))) tr.

(** The poll retires the session: it is finished with an outcome recorded,
    or its challenge has waited longer than the threshold. *)
Definition retirable (now : Z) (g : Game) : bool :=
  match state g with
  | FINISHED => match user_won g with Some _ => true | None => false end
  | CHALLENGE_SENT => (now - start_time g >? ACCEPT_CHALLENGE_WAIT_SECONDS)%Z
  | IN_PROGRESS => false
  end.

(** The poll leaves the session in the slot: it is in progress, or its
    challenge is still within the threshold. *)
Definition pending (now : Z) (g : Game) : bool :=
  match state g with
  | FINISHED => false
  | CHALLENGE_SENT => negb (now - start_time g >? ACCEPT_CHALLENGE_WAIT_SECONDS)%Z
  | IN_PROGRESS => true
  end.

(** A game event that does not end the loop of [Game.start]. *)
Definition non_terminal (ev : GameEvent) : bool :=
  match ev with
  | GameStateEvent status _ _ =>
      negb (String.eqb status "aborted") && negb (String.eqb status "mate")
  | _ => true
  end.

(** What a part of [Game.start] leaves alone: it issues no challenge, and
    the game it leaves is the session it got, with the same colour, game id
    and state. *)
Definition keeps (g : Game) (o : Out Game) : Prop :=
  issued (trace o) = []
  /\ same_session g (final o)
  /\ color (final o) = color g
  /\ game_id (final o) = game_id g
  /\ state (final o) = state g.

(** The part of [Game.start] before the loop: the first vote, if the
    first move is the session's own. *)
Definition first_poll (first : bool) (w0 : Window) (g : Game) : Out Game :=
  if first then poll_for_legal_move w0 g else ret g.

(** What [set_active_game(None)] does after the assignment and the join. *)
Definition next_challenge (now : Z) (b : Bot) : Out Bot :=
  match challenge_queue b with
  | [] => ret b
  | (twitch, lichess) :: q' => send_challenge now twitch lichess (with_queue q' b)
  end.

(** The session of the slot is still there after [o], or [o] retired it. *)
Definition kept_or_retired (g : Game) (o : Out Bot) : Prop :=
  (exists g', _active_game (final o) = Some g' /\ same_session g g')
  \/ retired_in (trace o) g.

(** What an operation other than the thread's own does to the handle: it
    drops it, or leaves it and the slot as they were. *)
Definition handle_dropped_or_kept (b : Bot) (o : Out Bot) : Prop :=
  _active_game_thread (final o) = None
  \/ (_active_game (final o) = _active_game b
      /\ _active_game_thread (final o) = _active_game_thread b).

(** The effects of the join of [set_active_game]. *)
Definition joined (b : Bot) : list Effect :=
  match _active_game_thread b with
  | Some _ => [ThreadJoin]
  | None => []
  end.

End Notions.

(** ** Further notions: parsing, tallies, statistics *)

(** [" " in s] *)
Fixpoint has_space (s : string) : bool :=
  match s with
  | EmptyString => false
  | String c s' => Ascii.eqb c " "%char || has_space s'
  end.

(** The votes a tally holds in all. *)
Definition sum_votes (nv : PyDict) : Z :=
  fold_right Z.add 0%Z (map snd nv).

(** The calls of [user_database.add_game] a trace shows, in order. *)
Fixpoint add_game_calls (tr : list Effect) : list (string * option bool) :=
  match tr with
  | [] => []
  | AddGame t w :: rest => (t, w) :: add_game_calls rest
  | _ :: rest => add_game_calls rest
  end.

(** A [gameState] event with status "mate". *)
Definition is_mate (ev : GameEvent) : bool :=
  match ev with
  | GameStateEvent status _ _ => String.eqb status "mate"
  | _ => false
  end.

(** [UserDatabase.get_total_users], lines 320-324: [SELECT COUNT( * )]. *)
Definition get_total_users (tbl : UsersTable) : nat := List.length tbl.

(** The subquery of [get_user], lines 303-305: one more than the number of
    users with strictly more wins. *)
Definition rank_of (won : Z) (tbl : UsersTable) : nat :=
  List.length (filter (fun r => (snd (snd r) >? won)%Z) tbl) + 1.

(** The dictionary [get_user] returns. *)
Record UserInfo := mkInfo { info_games : Z; info_won : Z; info_rank : string }.

(** [UserDatabase.get_user], lines 300-318: the first row of the user, with
    its rank over the number of users; a user without a row gets zeros
    and the rank 1/1. *)
Definition get_user (twitch : string) (tbl : UsersTable) : UserInfo :=
  match find (fun r => String.eqb (fst r) twitch) tbl with
  | None => mkInfo 0 0 "1/1"
  | Some (_, (games, won)) =>
      mkInfo games won
             (str_of_nat (rank_of won tbl) ++ "/" ++ str_of_nat (get_total_users tbl))
  end.

(** What the schema and the arithmetic of [add_game] keep: one row per
    user (the primary key), and wins between zero and the games played. *)
Definition table_ok (tbl : UsersTable) : Prop :=
  NoDup (map fst tbl)
  /\ forall t games won, In (t, (games, won)) tbl -> (0 <= won <= games)%Z.

Section MoreNotions.
Context {chess : ChessLib} {server : ChessServer} {constants : Constants}.


(** All the requests of [q] are rejected, the first at call number [n]. *)
Definition all_rejected (n : nat) (q : list (string * string)) : Prop :=
  forall i t l, nth_error q i = Some (t, l) ->
    exists msg, challenges_create (n + i) l = inr msg.


(** The statistics table is as it was and [add_game] was not called. *)
Definition stats_untouched (b : Bot) (o : Out Bot) : Prop :=
  user_database (final o) = user_database b /\ add_game_calls (trace o) = [].

(** The operation keeps the statistics table well formed. *)
Definition keeps_table (b : Bot) (o : Out Bot) : Prop :=
  table_ok (user_database b) -> table_ok (user_database (final o)).

End MoreNotions.

(** The calls the game thread makes: announcements of the vote and of the
    opponent's move, and the submission of a move. *)
Definition game_effect (e : Effect) : Prop :=
  match e with
  | SendMessage TVoteOpen | SendMessage (TVoteRandom _)
  | SendMessage (TVoteSelected _) | SendMessage (TOpponentMoved _)
  | MakeMove _ _ => True
  | _ => False
  end.

(** ** The process: the orchestrator and the threads it has let go *)

(** [Bot] has one slot for a [Game] and one handle for a thread, but the
    [threading.Thread] objects and the [Game] objects they run on live on
    without them:
    - [set_active_game] (lines 114-116) waits for the thread it holds with
      [join(timeout=60)] and then sets the handle to [None], whether or
      not the thread has ended; nothing stops the thread, so one that is
      still waiting on the game stream goes on running [Game.start] on
      the [Game] the slot held;
    - [handle_game_start_event] (line 174) overwrites the handle without
      a join: the thread it held goes on running on the [Game] in the
      slot. *)

Section Process.
Context {chess : ChessLib} {server : ChessServer} {constants : Constants}.



















End Process.

(** ** A small instance, for examples *)

(** A board that is the list of moves pushed so far; the same three moves
    are legal in every position, and the sides alternate from White. *)
Definition demo_chess : ChessLib :=
  {| Board := list string;
     new_board := [];
     legal_sans := fun _ => ["e4"; "d4"; "c4"];
     push_uci := fun b m => inr (m, b ++ [m]);
     turn := fun b => Nat.even (List.length b) |}.

(** A server that rejects challenges to [ghost_user] and accepts the
    others. *)
Definition demo_server : ChessServer :=
  {| challenges_create := fun n lichess =>
       if String.eqb lichess "ghost_user" then inr "No such user"
       else inl ("ch" ++ str_of_nat n)%string |}.

Definition demo_constants : Constants :=
  {| ACCEPT_CHALLENGE_WAIT_SECONDS := 60 |}.

Definition demo_game (st : GameState) (t0 : Z) (w : option bool)
  : @Game demo_chess :=
  @mkGame demo_chess "alice" "alice_li" st t0 [] None None "ch0" w.

Definition demo_bot (g : option (@Game demo_chess)) (q : list (string * string))
  : @Bot demo_chess :=
  @mkBot demo_chess g None q 1 [].

(** * Properties *)

(** ** Dictionaries *)

Lemma str_in_In (x : string) (l : list string) : str_in x l = true <-> In x l.
Proof.
  unfold str_in. rewrite existsb_exists. split.
  - intros [y [Hy Heq]]. apply String.eqb_eq in Heq. now subst.
  - intros H. exists x. split; [assumption | apply String.eqb_refl].
Qed.

Lemma str_in_app (x : string) (l1 l2 : list string) :
  str_in x (l1 ++ l2) = str_in x l1 || str_in x l2.
Proof. unfold str_in. apply existsb_app. Qed.

Lemma dict_get_set_same (k : string) (v : Z) (d : PyDict) :
  dict_get k (dict_set k v d) = Some v.
Proof.
  induction d as [|[k' v'] d IH]; simpl.
  - now rewrite String.eqb_refl.
  - destruct (String.eqb k k') eqn:E; simpl; rewrite E; [reflexivity | exact IH].
Qed.

Lemma dict_get_set_other (k k' : string) (v : Z) (d : PyDict) :
  k' <> k -> dict_get k' (dict_set k v d) = dict_get k' d.
Proof.
  intros Hne. induction d as [|[k0 v0] d IH]; simpl.
  - apply String.eqb_neq in Hne. now rewrite Hne.
  - destruct (String.eqb k k0) eqn:E; simpl.
    + apply String.eqb_eq in E. subst k0.
      apply String.eqb_neq in Hne. now rewrite Hne.
    + now rewrite IH.
Qed.

Lemma dict_keys_set (k : string) (v : Z) (d : PyDict) :
  dict_keys (dict_set k v d) =
  if dict_mem k d then dict_keys d else dict_keys d ++ [k].
Proof.
  unfold dict_mem, dict_keys. induction d as [|[k' v'] d IH]; simpl.
  - reflexivity.
  - destruct (String.eqb k k') eqn:E; simpl.
    + reflexivity.
    + rewrite IH. now destruct (str_in k (map fst d)).
Qed.

Lemma dict_mem_set (k : string) (v : Z) (d : PyDict) :
  dict_mem k (dict_set k v d) = true.
Proof.
  unfold dict_mem. rewrite dict_keys_set. fold (dict_mem k d).
  destruct (dict_mem k d) eqn:E; [exact E|].
  rewrite str_in_app. simpl. rewrite String.eqb_refl. apply orb_true_r.
Qed.

Lemma count_set_same (k : string) (v : Z) (d : PyDict) :
  count (dict_set k v d) k = v.
Proof. unfold count. now rewrite dict_get_set_same. Qed.

Lemma count_set_other (k k' : string) (v : Z) (d : PyDict) :
  k' <> k -> count (dict_set k v d) k' = count d k'.
Proof. intros H. unfold count. now rewrite dict_get_set_other. Qed.

Lemma count_not_mem (k : string) (d : PyDict) :
  dict_mem k d = false -> count d k = 0%Z.
Proof.
  unfold count, dict_mem, dict_keys. induction d as [|[k' v'] d IH]; simpl.
  - reflexivity.
  - destruct (String.eqb k k'); simpl; [discriminate | exact IH].
Qed.

(** ** One message *)

Lemma on_message_counts (legal : list string) (t : Tally) (msg : ChatMessage) :
  counts legal t msg = true ->
  let t' := on_message legal t msg in
  count (num_votes t') (msg_text msg) = (count (num_votes t) (msg_text msg) + 1)%Z
  /\ (forall k, k <> msg_text msg -> count (num_votes t') k = count (num_votes t) k)
  /\ users t' = msg_user msg :: users t
  /\ dict_keys (num_votes t') =
     if dict_mem (msg_text msg) (num_votes t) then dict_keys (num_votes t)
     else dict_keys (num_votes t) ++ [msg_text msg].
Proof.
  unfold counts, on_message. intros ->. cbn zeta.
  destruct (dict_mem (msg_text msg) (num_votes t)) eqn:Hm; simpl.
  - repeat split.
    + now rewrite count_set_same.
    + intros k Hk. now apply count_set_other.
    + rewrite dict_keys_set. now rewrite Hm.
  - repeat split.
    + rewrite !count_set_same. now rewrite count_not_mem.
    + intros k Hk. now rewrite !count_set_other.
    + rewrite dict_keys_set, dict_mem_set. rewrite dict_keys_set. now rewrite Hm.
Qed.

Lemma on_message_ignored (legal : list string) (t : Tally) (msg : ChatMessage) :
  counts legal t msg = false -> on_message legal t msg = t.
Proof. unfold counts, on_message. now intros ->. Qed.

Lemma users_grow (legal : list string) (msgs : list ChatMessage) (t : Tally) (u : string) :
  str_in u (users t) = true -> str_in u (users (collect legal msgs t)) = true.
Proof.
  unfold collect. revert t. induction msgs as [|m msgs IH]; intros t Hu; simpl.
  - exact Hu.
  - apply IH. unfold on_message.
    destruct (negb (str_in (msg_user m) (users t)) && str_in (msg_text m) legal);
      [|exact Hu].
    simpl. rewrite Hu. apply orb_true_r.
Qed.

Lemma counts_spec (legal : list string) (t : Tally) (msg : ChatMessage) :
  counts legal t msg = true <->
  In (msg_text msg) legal /\ ~ In (msg_user msg) (users t).
Proof.
  unfold counts. rewrite andb_true_iff, negb_true_iff, str_in_In.
  rewrite <- not_true_iff_false, str_in_In. tauto.
Qed.

Lemma voter_is_ignored (legal : list string) (between : list ChatMessage)
  (t : Tally) (again : ChatMessage) :
  In (msg_user again) (users t) ->
  on_message legal (collect legal between t) again = collect legal between t.
Proof.
  intros Hin. apply on_message_ignored. unfold counts.
  rewrite (users_grow legal between t (msg_user again)); [reflexivity|].
  now apply str_in_In.
Qed.

(** C8. Within one window a message adds one to the tally of its text,
    leaves the other tallies alone and marks its sender as having voted
    exactly when its text is a legal move and its sender has not voted yet;
    any other message changes nothing; and once a sender has voted, every
    later message of that sender in the window leaves the tally and the
    set of voters as they are. *)
Theorem vote_counted_iff_legal_and_new
  (legal : list string) (t : Tally) (msg : ChatMessage) :
  let voted := In (msg_text msg) legal /\ ~ In (msg_user msg) (users t) in
  let t' := on_message legal t msg in
  (voted ->
     count (num_votes t') (msg_text msg)
       = (count (num_votes t) (msg_text msg) + 1)%Z
     /\ (forall k, k <> msg_text msg ->
                   count (num_votes t') k = count (num_votes t) k)
     /\ In (msg_user msg) (users t'))
  /\ (~ voted -> t' = t)
  /\ (t' <> t <-> voted)
  /\ (voted -> forall between again,
        msg_user again = msg_user msg ->
        on_message legal (collect legal between t') again
          = collect legal between t').
Proof.
  intros voted t'.
  assert (Hyes : voted ->
     count (num_votes t') (msg_text msg)
       = (count (num_votes t) (msg_text msg) + 1)%Z
     /\ (forall k, k <> msg_text msg ->
                   count (num_votes t') k = count (num_votes t) k)
     /\ In (msg_user msg) (users t')).
  { intros Hv. apply counts_spec in Hv.
    destruct (on_message_counts legal t msg Hv) as (Hc & Ho & Hu & _).
    fold t' in Hc, Ho, Hu. repeat split; try assumption.
    rewrite Hu. now left. }
  assert (Hno : ~ voted -> t' = t).
  { intros Hv. apply on_message_ignored.
    destruct (counts legal t msg) eqn:E; [|reflexivity].
    exfalso. apply Hv. now apply counts_spec. }
  split; [exact Hyes|]. split; [exact Hno|]. split; [split|].
  - intros Hne. apply counts_spec.
    destruct (counts legal t msg) eqn:E; [reflexivity|].
    exfalso. apply Hne. now apply on_message_ignored.
  - intros Hv Heq. destruct (Hyes Hv) as (Hc & _). rewrite Heq in Hc. lia.
  - intros Hv between again Hsame. apply voter_is_ignored.
    rewrite Hsame. now apply Hyes.
Qed.

(** ** The choice at window close *)

Lemma max_from_first (A : Type) (key : A -> Z) (rest : list A) :
  forall best, exists l1 l2,
    best :: rest = l1 ++ max_from key best rest :: l2
    /\ (forall y, In y l1 -> (key y < key (max_from key best rest))%Z)
    /\ (forall y, In y l2 -> (key y <= key (max_from key best rest))%Z).
Proof.
  induction rest as [|x rest IH]; intros best; simpl.
  - exists [], []. simpl. repeat split; intros y [].
  - destruct (key x >? key best)%Z eqn:E.
    + destruct (IH x) as (l1 & l2 & Heq & Hlt & Hle).
      exists (best :: l1), l2. split; [simpl; now rewrite <- Heq|].
      split; [|exact Hle].
      intros y [<- | Hy]; [|now apply Hlt].
      assert (key x <= key (max_from key x rest))%Z.
      { destruct l1 as [|z l1]; simpl in Heq; injection Heq as Hx Hr.
        - rewrite <- Hx. lia.
        - subst z. specialize (Hlt x (or_introl eq_refl)). lia. }
      apply Z.gtb_lt in E. lia.
    + destruct (IH best) as (l1 & l2 & Heq & Hlt & Hle).
      assert (Hx : (key x <= key best)%Z).
      { destruct (Z.gtb_spec (key x) (key best)); [discriminate | assumption]. }
      destruct l1 as [|z l1]; simpl in Heq; injection Heq as Hb Hr.
      * subst rest. exists [], (x :: l2). simpl. rewrite <- Hb.
        split; [reflexivity|]. split; [intros y []|].
        intros y [<- | Hy]; [assumption|].
        rewrite Hb. now apply Hle.
      * subst z. exists (best :: x :: l1), l2. simpl.
        split; [do 2 f_equal; exact Hr|]. split; [|exact Hle].
        intros y [<- | [<- | Hy]].
        -- apply Hlt. now left.
        -- specialize (Hlt best (or_introl eq_refl)). lia.
        -- apply Hlt. now right.
Qed.

Lemma first_occurrences_ext (s1 s2 l : list string) :
  (forall x, str_in x s1 = str_in x s2) ->
  first_occurrences s1 l = first_occurrences s2 l.
Proof.
  revert s1 s2. induction l as [|x l IH]; intros s1 s2 Hs; simpl.
  - reflexivity.
  - rewrite <- Hs. destruct (str_in x s1); [now apply IH|].
    f_equal. apply IH. intros y. simpl. now rewrite Hs.
Qed.

(** The keys of the tally are the voted moves in the order of their first
    counted vote. *)
Lemma keys_follow_first_votes (legal : list string) (msgs : list ChatMessage) :
  forall t,
    dict_keys (num_votes (collect legal msgs t)) =
    dict_keys (num_votes t)
      ++ first_occurrences (dict_keys (num_votes t))
           (map msg_text (counted legal (users t) msgs)).
Proof.
  unfold collect. induction msgs as [|m msgs IH]; intros t; simpl.
  - now rewrite app_nil_r.
  - rewrite IH. fold (counts legal t m). destruct (counts legal t m) eqn:E.
    + destruct (on_message_counts legal t m E) as (_ & _ & Hu & Hk).
      rewrite Hu, Hk. simpl. fold (dict_mem (msg_text m) (num_votes t)).
      destruct (dict_mem (msg_text m) (num_votes t)); [reflexivity|].
      rewrite <- app_assoc. simpl. do 2 f_equal.
      apply first_occurrences_ext. intros x. rewrite str_in_app. simpl.
      rewrite orb_false_r. apply orb_comm.
    + now rewrite (on_message_ignored legal t m E).
Qed.

(** The tally of a move is the number of counted votes for it. *)
Lemma tally_is_number_of_votes (legal : list string) (msgs : list ChatMessage) (k : string) :
  forall t,
    count (num_votes (collect legal msgs t)) k =
    (count (num_votes t) k
     + Z.of_nat (List.length (filter (fun v => String.eqb (msg_text v) k)
                                (counted legal (users t) msgs))))%Z.
Proof.
  unfold collect. induction msgs as [|m msgs IH]; intros t; simpl.
  - lia.
  - rewrite IH. fold (counts legal t m). destruct (counts legal t m) eqn:E.
    + destruct (on_message_counts legal t m E) as (Hc & Ho & Hu & _).
      rewrite Hu. simpl. destruct (String.eqb (msg_text m) k) eqn:Ek.
      * apply String.eqb_eq in Ek. subst k. rewrite Hc. simpl List.length. lia.
      * apply String.eqb_neq in Ek. rewrite Ho by congruence. lia.
    + now rewrite (on_message_ignored legal t m E).
Qed.

Lemma first_occurrences_fresh (l : list string) :
  forall seen,
    NoDup (first_occurrences seen l)
    /\ forall x, In x (first_occurrences seen l) -> ~ In x seen.
Proof.
  induction l as [|x l IH]; intros seen; simpl.
  - split; [constructor | intros y []].
  - destruct (str_in x seen) eqn:E; [apply IH|].
    destruct (IH (x :: seen)) as [Hnd Hfresh]. split.
    + constructor; [|exact Hnd]. intros Hin. apply (Hfresh x Hin). now left.
    + intros y [<- | Hy].
      * rewrite <- str_in_In. now rewrite E.
      * intros Hs. apply (Hfresh y Hy). now right.
Qed.

Lemma count_of_entry (d : PyDict) (k : string) (v : Z) :
  NoDup (dict_keys d) -> In (k, v) d -> count d k = v.
Proof.
  unfold count, dict_keys. induction d as [|[k' v'] d IH]; simpl; intros Hnd Hin.
  - destruct Hin.
  - inversion Hnd as [|? ? Hnotin Hnd']; subst.
    destruct Hin as [Heq | Hin].
    + injection Heq as -> ->. now rewrite String.eqb_refl.
    + destruct (String.eqb k k') eqn:E; [|now apply IH].
      apply String.eqb_eq in E. subst k'. exfalso. apply Hnotin.
      apply in_map_iff. now exists (k, v).
Qed.

Lemma max_count_ge (nv : PyDict) (k : string) (v : Z) :
  In (k, v) nv -> (v <= max_count nv)%Z.
Proof.
  unfold max_count. induction nv as [|[k' v'] nv IH]; simpl; intros Hin.
  - destruct Hin.
  - destruct Hin as [Heq | Hin]; [injection Heq as -> ->; lia|].
    specialize (IH Hin). lia.
Qed.

Lemma max_count_attained (nv : PyDict) :
  max_count nv = 0%Z \/ exists k v, In (k, v) nv /\ v = max_count nv.
Proof.
  unfold max_count. induction nv as [|[k v] nv IH]; simpl.
  - now left.
  - destruct (Z.max_spec v (fold_right Z.max 0%Z (map snd nv))) as [[_ ->] | [_ ->]].
    + destruct IH as [H0 | (k' & v' & Hin & Hv)]; [now left|].
      right. exists k', v'. split; [now right | assumption].
    + right. exists k, v. split; [now left | reflexivity].
Qed.

Lemma max_count_is_top (nv : PyDict) (m : string) :
  NoDup (dict_keys nv) -> In m (dict_keys nv) ->
  (forall k, count nv k <= count nv m)%Z -> (0 <= count nv m)%Z ->
  max_count nv = count nv m.
Proof.
  intros Hnd Hin Htop Hpos.
  apply in_map_iff in Hin. destruct Hin as ([m' v] & Hm & Hin). simpl in Hm. subst m'.
  pose proof (count_of_entry nv m v Hnd Hin) as Hv.
  pose proof (max_count_ge nv m v Hin) as Hge.
  destruct (max_count_attained nv) as [H0 | (k' & v' & Hin' & Hv')]; [lia|].
  pose proof (count_of_entry nv k' v' Hnd Hin') as Hk.
  specialize (Htop k'). lia.
Qed.

Lemma find_first (A : Type) (f : A -> bool) (before after : list A) (m : A) :
  (forall k, In k before -> f k = false) -> f m = true ->
  find f (before ++ m :: after) = Some m.
Proof.
  intros Hb Hm. induction before as [|x before IH]; simpl.
  - now rewrite Hm.
  - rewrite (Hb x (or_introl eq_refl)). apply IH.
    intros k Hk. apply Hb. now right.
Qed.

(** C3 (as amended). At window close with a non-empty tally the selected
    move has the maximum tally, and every move inserted before it has a
    strictly smaller tally: it is the first-inserted key among those tied
    for the maximum.  The tally of a move is the number of counted votes for
    it, and insertion order is the order of the moves' first votes. *)
Theorem selected_move_is_first_inserted_maximum
  (legal : list string) (msgs : list ChatMessage) :
  let nv := num_votes (collect legal msgs empty_tally) in
  nv <> [] ->
  exists m before after,
    select_move nv = Some m
    /\ dict_keys nv = before ++ m :: after
    /\ (forall k, In k before -> (count nv k < count nv m)%Z)
    /\ (forall k, (count nv k <= count nv m)%Z)
    /\ select_move nv = first_inserted_max nv
    /\ dict_keys nv = first_vote_order legal msgs
    /\ (forall k, count nv k =
                  Z.of_nat (List.length
                    (filter (fun v => String.eqb (msg_text v) k)
                            (counted legal [] msgs)))).
Proof.
  intros nv Hne.
  assert (Hkeys : dict_keys nv = first_vote_order legal msgs).
  { unfold nv. now rewrite keys_follow_first_votes. }
  assert (Hcount : forall k, count nv k =
            Z.of_nat (List.length (filter (fun v => String.eqb (msg_text v) k)
                                     (counted legal [] msgs)))).
  { intros k. unfold nv. now rewrite tally_is_number_of_votes. }
  assert (Hnd : NoDup (dict_keys nv)).
  { rewrite Hkeys. apply first_occurrences_fresh. }
  assert (Hhead : exists k0 ks, dict_keys nv = k0 :: ks).
  { destruct nv as [|[k0 v0] nv']; [now elim Hne|].
    now exists k0, (dict_keys nv'). }
  destruct Hhead as (k0 & ks & Ek).
  destruct (max_from_first (count nv) ks k0) as (before & after & Hsplit & Hlt & Hle).
  set (m := max_from (count nv) k0 ks) in *.
  assert (Hsel : select_move nv = Some m).
  { unfold select_move. now rewrite Ek. }
  assert (Hin : In m (dict_keys nv)).
  { rewrite Ek, Hsplit. apply in_or_app. right. now left. }
  assert (Hpos : (0 <= count nv m)%Z).
  { rewrite (Hcount m). lia. }
  assert (Htop : forall k, (count nv k <= count nv m)%Z).
  { intros k. destruct (dict_mem k nv) eqn:Em.
    - apply str_in_In in Em. rewrite Ek, Hsplit in Em.
      apply in_app_or in Em. destruct Em as [Hb | [<- | Ha]].
      + specialize (Hlt k Hb). lia.
      + lia.
      + now apply Hle.
    - rewrite (count_not_mem k nv Em). exact Hpos. }
  pose proof (max_count_is_top nv m Hnd Hin Htop Hpos) as Hmax.
  exists m, before, after.
  split; [exact Hsel|]. split; [now rewrite Ek|]. split; [exact Hlt|].
  split; [exact Htop|]. split; [|split; assumption].
  rewrite Hsel. unfold first_inserted_max. rewrite Ek, Hsplit.
  symmetry. apply find_first.
  - intros k Hk. apply Z.eqb_neq. specialize (Hlt k Hk). lia.
  - apply Z.eqb_eq. now symmetry.
Qed.

(** C3 (as stated) fails: with votes e4, d4, d4, e4 from four voters the
    tallies tie at two; [d4] is the first move to reach two votes, but the
    selected move is [e4], the first-inserted key, so the two tie-breaks of
    the claim differ. *)
Lemma first_to_reach_maximum_is_not_selected :
  let legal := ["e4"; "d4"; "c4"] in
  let msgs := [mkMsg "alice" "e4"; mkMsg "bob" "d4";
               mkMsg "carol" "d4"; mkMsg "dave" "e4"] in
  let nv := num_votes (collect legal msgs empty_tally) in
  nv = [("e4", 2%Z); ("d4", 2%Z)]
  /\ select_move nv = Some "e4"
  /\ first_inserted_max nv = Some "e4"
  /\ first_to_reach_max legal msgs = Some "d4"
  /\ select_move nv <> first_to_reach_max legal msgs
  /\ first_inserted_max nv <> first_to_reach_max legal msgs.
Proof. vm_compute. repeat split; discriminate. Qed.

(** ** Outcomes *)

Lemma andThen_ok (S : Type) (o : Out S) (k : S -> Out S) :
  raised o = None ->
  o ;; k = mkOut (trace o ++ trace (k (final o))) (final (k (final o)))
                 (raised (k (final o))).
Proof. unfold andThen. now intros ->. Qed.

Lemma andThen_raised (S : Type) (o : Out S) (k : S -> Out S) (x : Exn) :
  raised o = Some x -> o ;; k = o.
Proof. unfold andThen. now intros ->. Qed.

Lemma out_eq (S : Type) (o1 o2 : Out S) :
  trace o1 = trace o2 -> final o1 = final o2 -> raised o1 = raised o2 -> o1 = o2.
Proof. destruct o1, o2; simpl; intros; subst; reflexivity. Qed.

Lemma issued_app (tr1 tr2 : list Effect) :
  issued (tr1 ++ tr2) = issued tr1 ++ issued tr2.
Proof.
  induction tr1 as [|e tr1 IH]; simpl; [reflexivity|].
  destruct e as [m| | | | | |]; try exact IH.
  destruct m; try exact IH. simpl. now rewrite IH.
Qed.

Lemma privileged_guard_returns (u : ChatUser) :
  privileged u = true -> guard_raises u = false.
Proof.
  unfold privileged, guard_raises.
  destruct (user_mod u); [reflexivity|]. now destruct (user_badges u).
Qed.

Lemma guard_raises_not_privileged (u : ChatUser) :
  guard_raises u = true -> privileged u = false.
Proof.
  unfold privileged, guard_raises.
  destruct (user_mod u); [discriminate|]. now destruct (user_badges u).
Qed.

Section Properties.
Context {chess : ChessLib} {server : ChessServer} {constants : Constants}.

(** ** The mutual recursion of [set_active_game] and [send_challenge] *)

Lemma assign_active_ok (v : option Game) (b : Bot) :
  raised (assign_active v b) = None
  /\ final (assign_active v b) = with_thread None (with_active v b)
  /\ issued (trace (assign_active v b)) = [].
Proof.
  unfold assign_active. destruct b as [a th q n db]; simpl.
  destruct th; simpl; repeat split; reflexivity.
Qed.

(** [send_challenge] laid out by the server's answer. *)
Lemma send_challenge_with_eq (retire : Bot -> Out Bot) (now : Z)
  (t l : string) (b : Bot) :
  let b1 := with_created (S (created b)) b in
  send_challenge_with retire now t l b =
  match challenges_create (created b) l with
  | inl cid =>
      let a := assign_active (Some (Game_init now t l cid)) b1 in
      mkOut (SendMessage (TChallenging t l) :: ChallengesCreate l :: trace a)
            (final a) None
  | inr msg =>
      let a := assign_active None b1 in
      let o := retire (final a) in
      mkOut (SendMessage (TChallenging t l) :: ChallengesCreate l
               :: SendMessage (TFailed msg) :: trace a ++ trace o)
            (final o) (raised o)
  end.
Proof.
  unfold send_challenge_with, andThen, emit, assign_active. simpl.
  destruct (challenges_create (created b) l) as [cid | msg];
    destruct b as [a th q n db]; destruct th; reflexivity.
Qed.

Lemma send_challenge_with_ext (r1 r2 : Bot -> Out Bot) (now : Z)
  (t l : string) (b : Bot) :
  (forall b', challenge_queue b' = challenge_queue b -> r1 b' = r2 b') ->
  send_challenge_with r1 now t l b = send_challenge_with r2 now t l b.
Proof.
  intros Hr. rewrite !send_challenge_with_eq. cbn zeta.
  destruct (challenges_create (created b) l) as [cid | msg]; [reflexivity|].
  rewrite Hr; [reflexivity|].
  now rewrite (proj1 (proj2 (assign_active_ok None _))).
Qed.

(** [set_active_game(None)] as the source has it: the assignment and the
    join, then, if the queue is not empty, [send_challenge] on its front. *)
Lemma set_active_game_None_eq (now : Z) (b : Bot) :
  set_active_game now None b =
  assign_active None b ;; fun b =>
  match challenge_queue b with
  | [] => ret b
  | (twitch, lichess) :: q' => send_challenge now twitch lichess (with_queue q' b)
  end.
Proof.
  unfold set_active_game.
  destruct (assign_active_ok None b) as (Hok & Hfin & _).
  rewrite !(andThen_ok _ _ Hok). 
  destruct (challenge_queue (final (assign_active None b))) as [|[t l] q'] eqn:Eq;
    [reflexivity|].
  simpl advance. unfold send_challenge.
  rewrite (send_challenge_with_ext (advance now q')
             (fun b0 => advance now (challenge_queue b0) b0)); [reflexivity|].
  intros b' Hq. now rewrite Hq.
Qed.

(** [send_challenge] as the source has it. *)
Lemma send_challenge_eq (now : Z) (t l : string) (b : Bot) :
  send_challenge now t l b =
  emit (SendMessage (TChallenging t l)) b ;;
  emit (ChallengesCreate l) ;; fun b =>
  let answer := challenges_create (created b) l in
  let b1 := with_created (S (created b)) b in
  match answer with
  | inl cid => set_active_game now (Some (Game_init now t l cid)) b1
  | inr err_message =>
      emit (SendMessage (TFailed err_message)) b1 ;; set_active_game now None
  end.
Proof.
  unfold send_challenge. rewrite send_challenge_with_eq. cbn zeta.
  unfold set_active_game, andThen, emit, assign_active. simpl.
  destruct (challenges_create (created b) l) as [cid | msg];
    destruct b as [a th q n db]; destruct th; simpl;
    try reflexivity.
  all: rewrite ?app_nil_r; reflexivity.
Qed.

(** ** The queue along one call *)

Lemma serves_andThen (q : list (string * string)) (o : Out Bot) (k : Bot -> Out Bot) :
  serves q o ->
  (forall b, serves (challenge_queue b) (k b)) ->
  serves q (o ;; k).
Proof.
  unfold serves. intros Ho Hk. destruct (raised o) eqn:E.
  - now rewrite (andThen_raised _ _ E).
  - rewrite (andThen_ok _ _ E). simpl. rewrite issued_app, <- app_assoc.
    now rewrite Hk.
Qed.

Lemma advance_spec (now : Z) (q : list (string * string)) :
  forall b, challenge_queue b = q ->
    raised (advance now q b) = None /\ serves q (advance now q b).
Proof.
  unfold serves. induction q as [|[t l] q' IH]; intros b Hq.
  - split; [reflexivity | exact Hq].
  - change (advance now ((t, l) :: q') b)
      with (send_challenge_with (advance now q') now t l (with_queue q' b)).
    rewrite send_challenge_with_eq. cbn zeta.
    destruct (challenges_create (created (with_queue q' b)) l) as [cid | msg].
    + destruct (assign_active_ok (Some (Game_init now t l cid))
                  (with_created (S (created (with_queue q' b))) (with_queue q' b)))
        as (_ & Hfin & Hiss).
      cbn [trace final raised issued]. rewrite Hiss, Hfin. split; reflexivity.
    + destruct (assign_active_ok None
                  (with_created (S (created (with_queue q' b))) (with_queue q' b)))
        as (_ & Hfin & Hiss).
      cbn [trace final raised issued]. rewrite issued_app, Hiss.
      destruct (IH (final (assign_active None
                  (with_created (S (created (with_queue q' b))) (with_queue q' b)))))
        as [Hr Hs].
      { now rewrite Hfin. }
      split; [exact Hr | cbn [app]; now rewrite Hs].
Qed.

Lemma set_active_game_spec (now : Z) (v : option Game) (b : Bot) :
  raised (set_active_game now v b) = None
  /\ serves (challenge_queue b) (set_active_game now v b).
Proof.
  unfold set_active_game.
  destruct (assign_active_ok v b) as (Hok & Hfin & Hiss).
  rewrite (andThen_ok _ _ Hok). unfold serves. simpl. rewrite issued_app, Hiss. simpl.
  destruct v as [g|].
  - simpl. now rewrite Hfin.
  - destruct (@advance_spec now (challenge_queue (final (assign_active None b)))
                (final (assign_active None b)) eq_refl) as [Hr Hs].
    split; [exact Hr|]. unfold serves in Hs. rewrite Hs. now rewrite Hfin.
Qed.

Lemma send_challenge_spec (now : Z) (t l : string) (b : Bot) :
  raised (send_challenge now t l b) = None
  /\ serves ((t, l) :: challenge_queue b) (send_challenge now t l b).
Proof.
  unfold send_challenge.
  destruct (@advance_spec now ((t, l) :: challenge_queue b)
              (with_queue ((t, l) :: challenge_queue b) b) eq_refl) as [Hr Hs].
  change (advance now ((t, l) :: challenge_queue b)
            (with_queue ((t, l) :: challenge_queue b) b))
    with (send_challenge_with (advance now (challenge_queue b)) now t l
            (with_queue (challenge_queue b)
               (with_queue ((t, l) :: challenge_queue b) b))) in Hr, Hs.
  assert (Hb : with_queue (challenge_queue b)
                 (with_queue ((t, l) :: challenge_queue b) b) = b)
    by now destruct b.
  rewrite Hb in Hr, Hs.
  assert (Hext : send_challenge_with (advance now (challenge_queue b)) now t l b
                 = send_challenge_with
                     (fun b0 => advance now (challenge_queue b0) b0) now t l b).
  { apply send_challenge_with_ext. intros b' Hq. now rewrite Hq. }
  rewrite Hext in Hr, Hs. now split.
Qed.

Lemma add_game_spec (t : string) (w : option bool) (b : Bot) :
  let o := add_game t w b in
  trace o = [AddGame t w]
  /\ _active_game (final o) = _active_game b
  /\ _active_game_thread (final o) = _active_game_thread b
  /\ challenge_queue (final o) = challenge_queue b
  /\ raised o = match w with None => Some TypeError | Some _ => None end.
Proof.
  unfold add_game, andThen, emit. simpl.
  destruct w as [[|]|]; simpl; repeat split; reflexivity.
Qed.

Lemma get_active_game_serves (now : Z) (b : Bot) :
  serves (challenge_queue b) (get_active_game now b).
Proof.
  unfold get_active_game. destruct (_active_game b) as [g|]; [|reflexivity].
  destruct (state g).
  - destruct (now - start_time g >? ACCEPT_CHALLENGE_WAIT_SECONDS)%Z; [|reflexivity].
    apply serves_andThen; [reflexivity|]. intros b'. apply set_active_game_spec.
  - reflexivity.
  - apply serves_andThen; [apply serves_andThen; [reflexivity|]|].
    + intros b'. unfold serves.
      destruct (add_game_spec (opponent_twitch g) (user_won g) b')
        as (Htr & _ & _ & Hq & _).
      now rewrite Htr, Hq.
    + intros b'. apply set_active_game_spec.
Qed.

Lemma enqueue_spec (t l : string) (b : Bot) :
  let o := enqueue t l b in
  raised o = None
  /\ trace o = [SendMessage (TQueuePosition t (List.length (challenge_queue b ++ [(t, l)])))]
  /\ challenge_queue (final o) = challenge_queue b ++ [(t, l)]
  /\ _active_game (final o) = _active_game b.
Proof. unfold enqueue, emit. simpl. repeat split; reflexivity. Qed.

Lemma challenge_user_serves (now : Z) (t l : string) (b : Bot) :
  let o := challenge_user now t l b in
  serves (challenge_queue b
            ++ match raised o with None => [(t, l)] | Some _ => [] end) o.
Proof.
  cbn zeta. unfold challenge_user.
  destruct (challenge_queue b) as [|r q] eqn:Eq.
  - pose proof (get_active_game_serves now b) as Hp. rewrite Eq in Hp.
    unfold serves in Hp. apply app_eq_nil in Hp. destruct Hp as [Hi Hq].
    destruct (raised (get_active_game now b)) eqn:Er.
    + rewrite (andThen_raised _ _ Er). rewrite Er. unfold serves.
      now rewrite Hi, Hq.
    + rewrite (andThen_ok _ _ Er). unfold serves. simpl.
      rewrite issued_app, Hi. simpl.
      destruct (_active_game (final (get_active_game now b))).
      * simpl. now rewrite Hq.
      * destruct (send_challenge_spec now t l (final (get_active_game now b)))
          as [Hr Hs].
        rewrite Hr. unfold serves in Hs. now rewrite Hs, Hq.
  - unfold serves. simpl. now rewrite Eq.
Qed.

(** ** The game thread *)

Lemma andThen_assoc (S : Type) (o : Out S) (k1 k2 : S -> Out S) :
  (o ;; k1) ;; k2 = o ;; (fun s => k1 s ;; k2).
Proof.
  unfold andThen. destruct o as [tr s [x|]]; simpl; [reflexivity|].
  destruct (k1 s) as [tr1 s1 [x1|]]; simpl; [reflexivity|].
  destruct (k2 s1) as [tr2 s2 r2]; simpl. now rewrite app_assoc.
Qed.

Lemma andThen_ext (S : Type) (o : Out S) (k1 k2 : S -> Out S) :
  (forall s, k1 s = k2 s) -> o ;; k1 = o ;; k2.
Proof. intros H. unfold andThen. now rewrite H. Qed.

Lemma andThen_ret_l (S : Type) (s : S) (k : S -> Out S) : ret s ;; k = k s.
Proof. unfold andThen, ret. simpl. now destruct (k s). Qed.

Lemma keeps_refl (g : Game) : keeps g (ret g).
Proof. unfold keeps, same_session. simpl. tauto. Qed.

Lemma keeps_andThen (g : Game) (o : Out Game) (k : Game -> Out Game) :
  keeps g o -> (forall g', keeps g' (k g')) -> keeps g (o ;; k).
Proof.
  intros Ho Hk. destruct (raised o) eqn:E.
  - now rewrite (andThen_raised _ _ E).
  - rewrite (andThen_ok _ _ E).
    destruct Ho as (Hi & (S1 & S2 & S3 & S4) & Hc & Hg & Hs).
    destruct (Hk (final o)) as (Hi' & (S1' & S2' & S3' & S4') & Hc' & Hg' & Hs').
    unfold keeps, same_session. simpl. rewrite issued_app, Hi, Hi'.
    repeat split; congruence.
Qed.

Lemma poll_for_legal_move_keeps (w : Window) (g : Game) :
  keeps g (poll_for_legal_move w g)
  /\ user_won (final (poll_for_legal_move w g)) = user_won g.
Proof.
  unfold poll_for_legal_move, keeps, same_session, andThen, emit, raise. simpl.
  destruct (num_votes (collect (legal_sans (board g)) (w_msgs w) empty_tally)).
  - destruct (random_choice (w_pick w) (legal_sans (board g))); simpl; tauto.
  - destruct (select_move (p :: p0)); simpl; tauto.
Qed.

Lemma handle_state_change_keeps (moves : list string) (w : Window) (g : Game) :
  keeps g (handle_state_change moves w g)
  /\ user_won (final (handle_state_change moves w g)) = user_won g.
Proof.
  assert (Hb : forall bd, keeps g (ret (with_board bd g))).
  { intros bd. unfold keeps, same_session. simpl. tauto. }
  assert (Hstep : forall (move_san : option string) g1,
            keeps g (ret g1) -> user_won g1 = user_won g ->
            let o := match color g1 with
                     | Some c =>
                         if Bool.eqb (turn (board g1)) c then
                           (match move_san with
                            | Some san => emit (SendMessage (TOpponentMoved san)) g1
                            | None => ret g1
                            end) ;; poll_for_legal_move w
                         else ret g1
                     | None => ret g1
                     end in
            keeps g o /\ user_won (final o) = user_won g).
  { intros move_san g1 Hk Hw. cbn zeta.
    destruct (color g1) as [c|]; [|now split].
    destruct (Bool.eqb (turn (board g1)) c); [|now split].
    destruct (poll_for_legal_move_keeps w g1) as [Hp Hpw].
    assert (Hfirst : match move_san with
                     | Some san => emit (SendMessage (TOpponentMoved san)) g1
                     | None => ret g1
                     end ;; poll_for_legal_move w
                     = mkOut (match move_san with
                              | Some san => [SendMessage (TOpponentMoved san)]
                              | None => []
                              end ++ trace (poll_for_legal_move w g1))
                             (final (poll_for_legal_move w g1))
                             (raised (poll_for_legal_move w g1))).
    { destruct move_san; reflexivity. }
    rewrite Hfirst. cbn [final trace raised]. split; [|congruence].
    destruct Hp as (Hi & (S1 & S2 & S3 & S4) & Hc & Hg & Hs).
    destruct Hk as (_ & (T1 & T2 & T3 & T4) & Hc' & Hg' & Hs').
    cbn [final ret] in T1, T2, T3, T4, Hc', Hg', Hs'.
    unfold keeps, same_session. cbn [final trace raised].
    rewrite issued_app, Hi.
    repeat split; try congruence. now destruct move_san. }
  unfold handle_state_change.
  destruct moves as [|m ms].
  - apply (Hstep None g); [apply keeps_refl | reflexivity].
  - destruct (push_uci (board g) (last (m :: ms) "")) as [x|[san bd]].
    + split; [|reflexivity]. unfold keeps, same_session, raise. simpl. tauto.
    + apply (Hstep (Some san) (with_board bd g)); [apply Hb | reflexivity].
Qed.

Lemma game_loop_keeps (events : list (GameEvent * Window)) :
  forall g, keeps g (game_loop events g).
Proof.
  induction events as [|[ev w] rest IH]; intros g; simpl.
  - apply keeps_refl.
  - destruct ev as [moves | status winner moves |].
    + apply keeps_andThen; [apply handle_state_change_keeps | exact IH].
    + destruct (String.eqb status "aborted"); [apply keeps_refl|].
      destruct (String.eqb status "mate").
      * destruct winner as [wn|]; [|apply keeps_refl].
        destruct (winner_is_own wn (color g));
          unfold keeps, same_session; simpl; tauto.
      * apply keeps_andThen; [apply handle_state_change_keeps | exact IH].
    + apply IH.
Qed.

Lemma game_loop_app (pre rest : list (GameEvent * Window)) :
  Forall (fun e => non_terminal (fst e) = true) pre ->
  forall g, game_loop (pre ++ rest) g = game_loop pre g ;; game_loop rest.
Proof.
  induction 1 as [|[ev w] pre Hev Hpre IH]; intros g; simpl.
  - now rewrite andThen_ret_l.
  - destruct ev as [moves | status winner moves |]; simpl in Hev.
    + rewrite andThen_assoc. now apply andThen_ext.
    + apply andb_true_iff in Hev. destruct Hev as [Ha Hm].
      apply negb_true_iff in Ha, Hm. rewrite Ha, Hm.
      rewrite andThen_assoc. now apply andThen_ext.
    + apply IH.
Qed.

Lemma game_loop_prefix_user_won (pre : list (GameEvent * Window)) :
  Forall (fun e => non_terminal (fst e) = true) pre ->
  forall g, user_won (final (game_loop pre g)) = user_won g.
Proof.
  assert (Hstep : forall moves w rest g,
            (forall g', user_won (final (game_loop rest g')) = user_won g') ->
            user_won (final (handle_state_change moves w g ;; game_loop rest))
            = user_won g).
  { intros moves w rest g IH.
    destruct (handle_state_change_keeps moves w g) as [_ Hw].
    destruct (raised (handle_state_change moves w g)) eqn:E.
    - now rewrite (andThen_raised _ _ E).
    - rewrite (andThen_ok _ _ E). cbn [final]. now rewrite IH. }
  induction 1 as [|[ev w] pre Hev Hpre IH]; intros g; simpl.
  - reflexivity.
  - destruct ev as [moves | status winner moves |]; simpl in Hev.
    + now apply Hstep.
    + apply andb_true_iff in Hev. destruct Hev as [Ha Hm].
      apply negb_true_iff in Ha, Hm. rewrite Ha, Hm. now apply Hstep.
    + apply IH.
Qed.

Lemma start_enter_fields (gid : string) (first : bool) (g : Game) :
  state (start_enter gid first g) = IN_PROGRESS
  /\ color (start_enter gid first g) = Some first
  /\ game_id (start_enter gid first g) = Some gid
  /\ user_won (start_enter gid first g) = user_won g
  /\ same_session g (start_enter gid first g).
Proof. unfold start_enter, same_session. destruct first; simpl; tauto. Qed.

Lemma first_poll_keeps (first : bool) (w0 : Window) (g : Game) :
  keeps g (first_poll first w0 g)
  /\ user_won (final (first_poll first w0 g)) = user_won g.
Proof.
  unfold first_poll. destruct first.
  - apply poll_for_legal_move_keeps.
  - split; [apply keeps_refl | reflexivity].
Qed.

Lemma start_run_eq (first : bool) (w0 : Window)
  (events : list (GameEvent * Window)) (g : Game) :
  start_run first w0 events g =
  (first_poll first w0 g ;; game_loop events) ;; fun g => ret (with_state FINISHED g).
Proof. reflexivity. Qed.

Lemma raised_before_finish (o : Out Game) :
  raised (o ;; fun g => ret (with_state FINISHED g)) = raised o.
Proof. unfold andThen. destruct (raised o) eqn:E; [exact E | reflexivity]. Qed.

(** C1 (as amended). When the game thread gets through the events before
    a "mate" event, that event ends the loop with [user_won] set to false
    if the declared winner colour is the session's own colour and to true
    otherwise, and the session becomes Finished. *)
Theorem mate_sets_user_won_against_own_colour
  (gid : string) (first : bool) (w0 : Window)
  (pre rest : list (GameEvent * Window)) (winner : string)
  (moves : list string) (w : Window) (g : Game) :
  Forall (fun e => non_terminal (fst e) = true) pre ->
  raised (start gid first w0 pre g) = None ->
  let o := start gid first w0
             (pre ++ (GameStateEvent "mate" (Some winner) moves, w) :: rest) g in
  let own := (winner = "white" /\ first = true)
             \/ (winner = "black" /\ first = false) in
  raised o = None
  /\ state (final o) = FINISHED
  /\ color (final o) = Some first
  /\ (own -> user_won (final o) = Some false)
  /\ (~ own -> user_won (final o) = Some true).
Proof.
  intros Hpre Hok o own. unfold o, start in *. clear o.
  rewrite start_run_eq in *. rewrite raised_before_finish in Hok.
  set (g0 := start_enter gid first g) in *.
  set (A := first_poll first w0 g0 ;; game_loop pre) in *.
  assert (HA : first_poll first w0 g0
                 ;; game_loop (pre ++ (GameStateEvent "mate" (Some winner) moves, w) :: rest)
               = A ;; game_loop ((GameStateEvent "mate" (Some winner) moves, w) :: rest)).
  { unfold A. rewrite andThen_assoc. apply andThen_ext. intros s.
    now apply game_loop_app. }
  rewrite HA. clear HA.
  assert (Hcol : color (final A) = Some first).
  { assert (Hk : keeps g0 A).
    { unfold A. apply keeps_andThen; [apply first_poll_keeps|].
      intros g'. apply game_loop_keeps. }
    destruct Hk as (_ & _ & Hc & _). rewrite Hc. apply start_enter_fields. }
  rewrite (andThen_ok _ _ Hok). cbn [final trace raised]. simpl game_loop.
  rewrite Hcol.
  assert (Hown : winner_is_own winner (Some first) = true <-> own).
  { unfold winner_is_own, own. rewrite orb_true_iff, !andb_true_iff.
    rewrite !String.eqb_eq. destruct first; intuition congruence. }
  destruct (winner_is_own winner (Some first)) eqn:E;
    unfold andThen; simpl; (split; [reflexivity|]);
    (split; [reflexivity|]); (split; [exact Hcol|]); split; intros Ho.
  - reflexivity.
  - exfalso. apply Ho. now apply Hown.
  - apply Hown in Ho. discriminate.
  - reflexivity.
Qed.

(** ** Retiring a session *)

Lemma assign_active_layout (v : option Game) (b : Bot) :
  assign_active v b = mkOut (joined b) (with_thread None (with_active v b)) None.
Proof.
  unfold assign_active, joined, emit, ret. destruct b as [a th q n db]; simpl.
  now destruct th.
Qed.

Lemma set_active_game_None_layout (now : Z) (b : Bot) :
  let next := next_challenge now (with_thread None (with_active None b)) in
  set_active_game now None b =
  mkOut (joined b ++ trace next) (final next) (raised next).
Proof.
  cbn zeta. rewrite set_active_game_None_eq, assign_active_layout.
  reflexivity.
Qed.

Lemma next_challenge_spec (now : Z) (b : Bot) :
  raised (next_challenge now b) = None
  /\ serves (challenge_queue b) (next_challenge now b).
Proof.
  unfold next_challenge. destruct (challenge_queue b) as [|[t l] q'] eqn:Eq.
  - split; [reflexivity|]. unfold serves. simpl. exact Eq.
  - apply (send_challenge_spec now t l (with_queue q' b)).
Qed.

Lemma advance_is_next (now : Z) (b : Bot) :
  advance now (challenge_queue b) b = next_challenge now b.
Proof.
  unfold next_challenge. destruct (challenge_queue b) as [|[t l] q'] eqn:Eq;
    [reflexivity|].
  change (advance now ((t, l) :: q') b)
    with (send_challenge_with (advance now q') now t l (with_queue q' b)).
  unfold send_challenge. apply send_challenge_with_ext.
  intros b' Hq. now rewrite Hq.
Qed.

(** C9. A poll that finds the active session still in ChallengeSent more
    than [ACCEPT_CHALLENGE_WAIT_SECONDS] after its creation announces the
    timeout, empties the slot (joining the thread, if one is held), and
    advances the queue: with an empty queue the slot stays empty, otherwise
    the front request is popped and issued by [send_challenge]. *)
Theorem poll_times_out_pending_challenge (now : Z) (b : Bot) (g : Game) :
  _active_game b = Some g ->
  state g = CHALLENGE_SENT ->
  (now - start_time g > ACCEPT_CHALLENGE_WAIT_SECONDS)%Z ->
  let o := get_active_game now b in
  let cleared := with_thread None (with_active None b) in
  let next := next_challenge now cleared in
  raised o = None
  /\ trace o = SendMessage (TTimedOut (opponent_twitch g) (opponent_lichess g))
               :: joined b ++ trace next
  /\ final o = final next
  /\ _active_game cleared = None
  /\ (challenge_queue b = [] ->
      _active_game (final o) = None /\ challenge_queue (final o) = [])
  /\ (forall t l q', challenge_queue b = (t, l) :: q' ->
      next = send_challenge now t l (with_queue q' cleared)
      /\ issued (trace o) ++ challenge_queue (final o) = (t, l) :: q').
Proof.
  intros Hg Hst Hlate. cbn zeta.
  unfold get_active_game. rewrite Hg, Hst.
  apply Z.gt_lt, Z.gtb_lt in Hlate. rewrite Hlate.
  rewrite andThen_ok by reflexivity. cbn [trace final raised emit].
  rewrite set_active_game_None_layout. cbn [trace final raised app].
  destruct (next_challenge_spec now (with_thread None (with_active None b)))
    as [Hr Hs].
  split; [exact Hr|]. split; [reflexivity|]. split; [reflexivity|].
  split; [reflexivity|]. split.
  - intros Hq. unfold next_challenge. simpl. rewrite Hq. simpl. now split.
  - intros t l q' Hq. split.
    + unfold next_challenge. simpl. now rewrite Hq.
    + unfold serves in Hs. simpl in Hs. rewrite Hq in Hs.
      assert (Hj : issued (joined b) = []).
      { unfold joined. now destruct (_active_game_thread b). }
      cbn [issued]. rewrite issued_app, Hj. exact Hs.
Qed.

(** C7. When the server rejects a challenge, [send_challenge] reports the
    error to the chat, installs no session for it (the slot is assigned
    None), and advances the queue in the same call: with an empty queue the
    slot stays empty, otherwise the front request is popped and issued. *)
Theorem rejected_challenge_advances_queue
  (now : Z) (t l : string) (b : Bot) (err_message : string) :
  challenges_create (created b) l = inr err_message ->
  let o := send_challenge now t l b in
  let cleared :=
    with_thread None (with_active None (with_created (S (created b)) b)) in
  let next := next_challenge now cleared in
  raised o = None
  /\ trace o = SendMessage (TChallenging t l) :: ChallengesCreate l
               :: SendMessage (TFailed err_message) :: joined b ++ trace next
  /\ final o = final next
  /\ _active_game cleared = None
  /\ (challenge_queue b = [] ->
      _active_game (final o) = None /\ challenge_queue (final o) = [])
  /\ (forall t' l' q', challenge_queue b = (t', l') :: q' ->
      next = send_challenge now t' l' (with_queue q' cleared)
      /\ issued (trace o) ++ challenge_queue (final o) = (t, l) :: (t', l') :: q').
Proof.
  intros Hrej. cbn zeta.
  unfold send_challenge. rewrite send_challenge_with_eq. cbn zeta.
  rewrite Hrej, assign_active_layout. cbn [trace final raised].
  rewrite advance_is_next.
  change (joined (with_created (S (created b)) b)) with (joined b).
  destruct (next_challenge_spec now
              (with_thread None (with_active None (with_created (S (created b)) b))))
    as [Hr Hs].
  split; [exact Hr|]. split; [reflexivity|]. split; [reflexivity|].
  split; [reflexivity|]. split.
  - intros Hq. unfold next_challenge. simpl. rewrite Hq. simpl. now split.
  - intros t' l' q' Hq. split.
    + unfold next_challenge. simpl. now rewrite Hq.
    + unfold serves in Hs. simpl in Hs. rewrite Hq in Hs.
      assert (Hji : issued (joined b) = []).
      { unfold joined. now destruct (_active_game_thread b). }
      cbn [issued]. rewrite issued_app, Hji. cbn [app].
      now rewrite Hs.
Qed.

(** ** Polling a finished session *)

Lemma poll_finished_layout (now : Z) (b : Bot) (g : Game) :
  _active_game b = Some g -> state g = FINISHED ->
  get_active_game now b =
  (emit (SendMessage (TResult (truthy (user_won g)) (opponent_twitch g)
                              (opponent_lichess g))) b ;;
   add_game (opponent_twitch g) (user_won g)) ;; set_active_game now None.
Proof. intros Hg Hst. unfold get_active_game. now rewrite Hg, Hst. Qed.

Lemma poll_aborted_raises (now : Z) (b : Bot) (g : Game) :
  _active_game b = Some g -> state g = FINISHED -> user_won g = None ->
  let o := get_active_game now b in
  trace o = [SendMessage (TResult false (opponent_twitch g) (opponent_lichess g));
             AddGame (opponent_twitch g) None]
  /\ raised o = Some TypeError
  /\ _active_game (final o) = Some g
  /\ challenge_queue (final o) = challenge_queue b.
Proof.
  intros Hg Hst Hw. cbn zeta. rewrite (poll_finished_layout now b Hg Hst), Hw.
  unfold add_game, andThen, emit, raise. simpl. rewrite Hg. repeat split; reflexivity.
Qed.

Lemma aborted_ends_loop (gid : string) (first : bool) (w0 : Window)
  (pre rest : list (GameEvent * Window)) (winner : option string)
  (moves : list string) (w : Window) (g : Game) :
  Forall (fun e => non_terminal (fst e) = true) pre ->
  raised (start gid first w0 pre g) = None ->
  let o := start gid first w0
             (pre ++ (GameStateEvent "aborted" winner moves, w) :: rest) g in
  raised o = None /\ state (final o) = FINISHED
  /\ user_won (final o) = user_won g
  /\ same_session g (final o).
Proof.
  intros Hpre Hok o. unfold o, start in *. clear o.
  rewrite start_run_eq in *. rewrite raised_before_finish in Hok.
  set (g0 := start_enter gid first g) in *.
  set (A := first_poll first w0 g0 ;; game_loop pre) in *.
  assert (HA : first_poll first w0 g0
                 ;; game_loop (pre ++ (GameStateEvent "aborted" winner moves, w) :: rest)
               = A ;; game_loop ((GameStateEvent "aborted" winner moves, w) :: rest)).
  { unfold A. rewrite andThen_assoc. apply andThen_ext. intros s.
    now apply game_loop_app. }
  rewrite HA. clear HA.
  rewrite (andThen_ok _ _ Hok). cbn [final trace raised]. simpl game_loop.
  unfold andThen. cbn [final trace raised ret].
  split; [reflexivity|]. split; [reflexivity|].
  destruct (first_poll_keeps first w0 g0) as [Hk0 Hw0].
  assert (Hk : keeps g0 A).
  { unfold A. apply keeps_andThen; [exact Hk0|]. intros g'. apply game_loop_keeps. }
  assert (HwA : user_won (final A) = user_won g0).
  { unfold A. destruct (raised (first_poll first w0 g0)) eqn:E.
    - now rewrite (andThen_raised _ _ E).
    - rewrite (andThen_ok _ _ E). cbn [final].
      now rewrite game_loop_prefix_user_won. }
  destruct (start_enter_fields gid first g) as (_ & _ & _ & Hw & S1 & S2 & S3 & S4).
  destruct Hk as (_ & (T1 & T2 & T3 & T4) & _). fold g0 in Hw, S1, S2, S3, S4.
  split.
  - simpl. congruence.
  - unfold same_session. simpl. repeat split; congruence.
Qed.

(** C2 (what the code does). A game whose events end with an "aborted"
    status leaves the session Finished with no outcome recorded; the poll
    that then finds it announces a result and calls
    [user_database.add_game] with that missing outcome, which raises
    [TypeError] inside [add_game], and the session stays in the slot. *)
Theorem aborted_game_is_passed_to_add_game
  (gid : string) (first : bool) (w0 : Window)
  (pre rest : list (GameEvent * Window)) (winner : option string)
  (moves : list string) (w : Window) (g : Game) (now : Z) (b : Bot) :
  Forall (fun e => non_terminal (fst e) = true) pre ->
  raised (start gid first w0 pre g) = None ->
  user_won g = None ->
  let og := start gid first w0
              (pre ++ (GameStateEvent "aborted" winner moves, w) :: rest) g in
  _active_game b = Some (final og) ->
  let o := get_active_game now b in
  raised og = None /\ state (final og) = FINISHED /\ user_won (final og) = None
  /\ In (AddGame (opponent_twitch g) None) (trace o)
  /\ raised o = Some TypeError
  /\ _active_game (final o) = Some (final og).
Proof.
  intros Hpre Hok Hw og Hb o.
  destruct (aborted_ends_loop gid first w0 rest winner moves w g Hpre Hok)
    as (Hr & Hst & Hu & (_ & Ht & _)).
  fold og in Hr, Hst, Hu, Ht. rewrite Hw in Hu.
  destruct (poll_aborted_raises now b Hb Hst Hu) as (Htr & Hraise & Hslot & _).
  fold o in Htr, Hraise, Hslot.
  repeat split; try assumption.
  rewrite Htr, Ht. right. now left.
Qed.

(** ** Requesting a challenge *)

Lemma poll_empty_slot (now : Z) (b : Bot) :
  _active_game b = None -> get_active_game now b = ret b.
Proof. intros Hg. unfold get_active_game. now rewrite Hg. Qed.

Lemma poll_pending (now : Z) (b : Bot) (g : Game) :
  _active_game b = Some g -> pending now g = true ->
  get_active_game now b = ret b.
Proof.
  intros Hg Hp. unfold get_active_game, pending in *. rewrite Hg.
  destruct (state g); try discriminate; [|reflexivity].
  apply negb_true_iff in Hp. now rewrite Hp.
Qed.

Lemma poll_retires (now : Z) (b : Bot) (g : Game) :
  _active_game b = Some g -> retirable now g = true ->
  challenge_queue b = [] ->
  let o := get_active_game now b in
  raised o = None /\ _active_game (final o) = None
  /\ challenge_queue (final o) = [] /\ issued (trace o) = []
  /\ retired_in (trace o) g.
Proof.
  intros Hg Hret Hq. cbn zeta. unfold retirable in Hret.
  assert (Hnext : forall b', challenge_queue b' = [] ->
            set_active_game now None b' =
            mkOut (joined b' ++ []) (with_thread None (with_active None b')) None).
  { intros b' Hq'. rewrite set_active_game_None_layout. cbn zeta.
    unfold next_challenge. simpl. now rewrite Hq'. }
  assert (Hj : forall b', issued (joined b' ++ []) = []).
  { intros b'. unfold joined. now destruct (_active_game_thread b'). }
  destruct (state g) eqn:Hst; try discriminate.
  - unfold get_active_game. rewrite Hg, Hst, Hret.
    rewrite andThen_ok by reflexivity. cbn [trace final raised emit].
    rewrite (Hnext b Hq). cbn [trace final raised app issued].
    rewrite Hj. repeat split; try reflexivity.
    + simpl. exact Hq.
    + right. left. now left.
  - destruct (user_won g) as [w0|] eqn:Hw; try discriminate.
    rewrite (poll_finished_layout now b Hg Hst), Hw.
    destruct (add_game_spec (opponent_twitch g) (Some w0) b)
      as (Htr & Ha & Hth & Hqa & Hra).
    assert (Hfirst : raised (emit (SendMessage (TResult (truthy (Some w0))
                       (opponent_twitch g) (opponent_lichess g))) b ;;
                     add_game (opponent_twitch g) (Some w0)) = None).
    { rewrite andThen_ok by reflexivity. exact Hra. }
    rewrite (andThen_ok _ _ Hfirst).
    rewrite (andThen_ok (emit _ b)) by reflexivity.
    cbn [trace final raised emit]. rewrite Htr.
    rewrite (Hnext _ (eq_trans Hqa Hq)). cbn [trace final raised app issued].
    rewrite Hj. repeat split; try reflexivity.
    + cbn [with_thread with_active challenge_queue]. now rewrite Hqa.
    + left. rewrite Hw. cbn [app In]. now left.
Qed.

(** C6 (as amended). [challenge_user] polls first when the queue is empty.
    If the queue is empty and that poll leaves the slot empty (the slot was
    empty, or held a session the poll retires) it calls [send_challenge]
    at once with the same two arguments and queues nothing; if the queue
    is not empty, or the slot holds a session the poll leaves there, it
    appends exactly this request and reports the length of the queue after
    the append as the position. *)
Theorem challenge_user_issues_or_enqueues (now : Z) (t l : string) (b : Bot) :
  let o := challenge_user now t l b in
  (challenge_queue b = [] ->
   (_active_game b = None
    \/ exists g, _active_game b = Some g /\ retirable now g = true) ->
   let polled := get_active_game now b in
   raised polled = None
   /\ _active_game (final polled) = None
   /\ o = polled ;; send_challenge now t l
   /\ raised o = None
   /\ issued (trace o) = [(t, l)]
   /\ challenge_queue (final o) = [])
  /\ (challenge_queue b <> []
      \/ (exists g, _active_game b = Some g /\ pending now g = true) ->
      raised o = None
      /\ trace o = [SendMessage (TQueuePosition t
                      (List.length (challenge_queue (final o))))]
      /\ challenge_queue (final o) = challenge_queue b ++ [(t, l)]
      /\ List.length (challenge_queue (final o))
         = S (List.length (challenge_queue b))
      /\ _active_game (final o) = _active_game b).
Proof.
  cbn zeta. split.
  - intros Hq Hidle.
    assert (Hpoll : raised (get_active_game now b) = None
                    /\ _active_game (final (get_active_game now b)) = None
                    /\ challenge_queue (final (get_active_game now b)) = []
                    /\ issued (trace (get_active_game now b)) = []).
    { destruct Hidle as [Hnone | (g & Hg & Hret)].
      - rewrite (poll_empty_slot now b Hnone). simpl. tauto.
      - destruct (poll_retires now b Hg Hret Hq) as (H1 & H2 & H3 & H4 & _).
        tauto. }
    destruct Hpoll as (Hr & Hslot & Hq' & Hi).
    assert (Heq : challenge_user now t l b
                  = get_active_game now b ;; send_challenge now t l).
    { unfold challenge_user. rewrite Hq.
      rewrite !(andThen_ok _ _ Hr). now rewrite Hslot. }
    split; [exact Hr|]. split; [exact Hslot|]. split; [exact Heq|].
    rewrite Heq, (andThen_ok _ _ Hr). cbn [trace final raised].
    destruct (send_challenge_spec now t l (final (get_active_game now b)))
      as [Hsr Hs].
    unfold serves in Hs. rewrite Hq' in Hs.
    split; [exact Hsr|].
    rewrite issued_app, Hi. cbn [app].
    assert (Hfront : exists rest,
              issued (trace (send_challenge now t l (final (get_active_game now b))))
              = (t, l) :: rest).
    { unfold send_challenge. rewrite send_challenge_with_eq. cbn zeta.
      destruct (challenges_create _ l); cbn [trace issued]; eauto. }
    destruct Hfront as (rest' & Hfront). rewrite Hfront in Hs |- *.
    injection Hs as Hs. apply app_eq_nil in Hs. destruct Hs as [-> Hs].
    now split.
  - intros Hbusy.
    assert (Heq : challenge_user now t l b = enqueue t l b).
    { unfold challenge_user. destruct (challenge_queue b) as [|r q] eqn:Eq;
        [|reflexivity].
      destruct Hbusy as [Hne | (g & Hg & Hp)]; [now elim Hne|].
      rewrite (poll_pending now b Hg Hp), andThen_ret_l. now rewrite Hg. }
    rewrite Heq.
    destruct (enqueue_spec t l b) as (Hr & Htr & Hq & Hslot).
    rewrite Hq. split; [exact Hr|]. split; [exact Htr|]. split; [reflexivity|].
    split; [|exact Hslot].
    rewrite length_app. simpl. lia.
Qed.

(** ** The [when] command *)

Lemma when_scan_reports (name : string) (q : list (string * string)) :
  forall idx i l,
    nth_error q i = Some (name, l) ->
    In (Reply (TWhenPosition (idx + i + 1) l)) (when_scan name idx q).
Proof.
  induction q as [|[t l0] q IH]; intros idx i l Hnth.
  - destruct i; discriminate.
  - simpl. apply in_or_app. destruct i as [|i]; simpl in Hnth.
    + injection Hnth as -> ->. left. rewrite String.eqb_refl.
      rewrite Nat.add_0_r. now left.
    + right. replace (idx + S i + 1)%nat with (S idx + i + 1)%nat by lia.
      now apply IH.
Qed.

Lemma when_scan_issues_nothing (name : string) (q : list (string * string)) :
  forall idx, issued (when_scan name idx q) = [].
Proof.
  induction q as [|[t l0] q IH]; intros idx; simpl; [reflexivity|].
  rewrite issued_app, IH. now destruct (String.eqb t name).
Qed.

(** C10. For a privileged caller, [when] ends with the reply "You are not
    in queue" whatever the scan of the queue found: a caller who is in the
    queue gets a position reply for that entry and the not-in-queue reply
    after it. *)
Theorem when_always_replies_not_in_queue (cmd : ChatCommand) (b : Bot) :
  privileged (cmd_user cmd) = true ->
  let o := when cmd b in
  let name := user_name (cmd_user cmd) in
  raised o = None
  /\ final o = b
  /\ trace o = when_scan name 0 (challenge_queue b) ++ [Reply TNotInQueue]
  /\ last (trace o) ThreadJoin = Reply TNotInQueue
  /\ render TNotInQueue = "You are not in queue"
  /\ (forall i l, nth_error (challenge_queue b) i = Some (name, l) ->
        exists before after,
          trace o = before ++ Reply (TWhenPosition (i + 1) l) :: after
                    ++ [Reply TNotInQueue]).
Proof.
  intros Hpriv. cbn zeta. unfold when.
  rewrite (privileged_guard_returns _ Hpriv), Hpriv. cbn [negb trace final raised].
  split; [reflexivity|]. split; [reflexivity|]. split; [reflexivity|].
  split; [apply last_last|]. split; [reflexivity|].
  intros i l Hnth.
  pose proof (@when_scan_reports (user_name (cmd_user cmd)) (challenge_queue b)
                0 i l Hnth) as Hin.
  apply in_split in Hin. destruct Hin as (before & after & Hsplit).
  exists before, after. rewrite Hsplit. simpl.
  now rewrite <- app_assoc.
Qed.

(** ** The queue along a run *)

Lemma start_run_quiet (first : bool) (w0 : Window)
  (events : list (GameEvent * Window)) (g : Game) :
  issued (trace (start_run first w0 events g)) = []
  /\ same_session g (final (start_run first w0 events g)).
Proof.
  rewrite start_run_eq.
  set (A := first_poll first w0 g ;; game_loop events).
  assert (Hk : keeps g A).
  { unfold A. apply keeps_andThen; [apply first_poll_keeps|].
    intros g'. apply game_loop_keeps. }
  destruct Hk as (Hi & Hs & _).
  destruct (raised A) eqn:E.
  - rewrite (andThen_raised _ _ E). now split.
  - rewrite (andThen_ok _ _ E). cbn [trace final raised ret].
    rewrite app_nil_r. split; [exact Hi|].
    unfold same_session in *. simpl. exact Hs.
Qed.

Lemma handle_incoming_serves (now : Z) (ev : IncomingEvent) (b : Bot) :
  serves (challenge_queue b) (handle_incoming now ev b).
Proof.
  destruct ev as [| gid mine | cid | |]; simpl; try reflexivity.
  - unfold handle_game_start_event.
    apply serves_andThen; [apply get_active_game_serves|].
    intros b'. destruct (_active_game b'); reflexivity.
  - unfold handle_challenge_declined_event.
    apply serves_andThen; [apply get_active_game_serves|].
    intros b'. destruct (_active_game b') as [g|]; [|reflexivity].
    destruct (String.eqb cid (challenge_id g)); [|reflexivity].
    apply serves_andThen; [reflexivity|].
    intros b''. apply set_active_game_spec.
Qed.

Lemma step_serves (now : Z) (op : Op) (b : Bot) :
  serves (challenge_queue b ++ taken now op b) (step now op b).
Proof.
  unfold taken. destruct op as [cmd | cmd | cmd | ev | | | w0 events]; simpl.
  - unfold challenge.
    destruct (guard_raises (cmd_user cmd)); [rewrite app_nil_r; reflexivity|].
    destruct (negb (privileged (cmd_user cmd))); [rewrite app_nil_r; reflexivity|].
    destruct (String.length (parameter cmd) =? 0)%nat;
      [rewrite app_nil_r; reflexivity|].
    destruct (split_once (parameter cmd)) as [[t l]|];
      [|rewrite app_nil_r; reflexivity].
    apply challenge_user_serves.
  - unfold play.
    destruct (String.length (parameter cmd) =? 0)%nat;
      [rewrite app_nil_r; reflexivity|].
    apply challenge_user_serves.
  - assert (Hw : serves (challenge_queue b) (when cmd b)).
    { unfold when, serves. destruct (guard_raises (cmd_user cmd)); [reflexivity|].
      destruct (negb (privileged (cmd_user cmd))); [reflexivity|].
      simpl. now rewrite issued_app, when_scan_issues_nothing. }
    destruct (raised (when cmd b)); now rewrite app_nil_r.
  - pose proof (handle_incoming_serves now ev b) as H.
    destruct (raised (handle_incoming now ev b)); now rewrite app_nil_r.
  - pose proof (get_active_game_serves now b) as H.
    destruct (raised (get_active_game now b)); now rewrite app_nil_r.
  - assert (H : serves (challenge_queue b) (thread_enter b)).
    { unfold thread_enter.
      destruct (_active_game_thread b) as [[gid first [| |] sid]|];
        destruct (_active_game b); reflexivity. }
    destruct (raised (thread_enter b)); now rewrite app_nil_r.
  - assert (H : serves (challenge_queue b) (thread_run w0 events b)).
    { unfold thread_run.
      destruct (_active_game_thread b) as [[gid first [| |] sid]|];
        destruct (_active_game b) as [g|]; try reflexivity.
      unfold serves. cbn [trace final].
      now rewrite (proj1 (start_run_quiet first w0 events g)). }
    destruct (raised (thread_run w0 events b)); now rewrite app_nil_r.
Qed.

Lemma taken_at_most_one (now : Z) (op : Op) (b : Bot) :
  (List.length (taken now op b) <= 1)%nat.
Proof.
  unfold taken. destruct (raised (step now op b)); [simpl; lia|].
  destruct op as [cmd | cmd | cmd | ev | | | w0 events]; simpl; try lia.
  - destruct (negb (privileged (cmd_user cmd))); [simpl; lia|].
    destruct (String.length (parameter cmd) =? 0)%nat; [simpl; lia|].
    destruct (split_once (parameter cmd)); simpl; lia.
  - destruct (String.length (parameter cmd) =? 0)%nat; simpl; lia.
Qed.

Lemma run_serves (ops : list (Z * Op)) :
  forall b, issued (fst (run ops b)) ++ challenge_queue (snd (run ops b))
            = challenge_queue b ++ taken_run ops b.
Proof.
  induction ops as [|[now op] rest IH]; intros b; simpl.
  - now rewrite app_nil_r.
  - specialize (IH (final (step now op b))).
    destruct (run rest (final (step now op b))) as [tr b'] eqn:Er.
    simpl in *. rewrite issued_app, <- app_assoc, IH.
    rewrite !app_assoc. f_equal. apply step_serves.
Qed.

(** C5. The challenge queue is first in, first out.  In every step the
    requests issued, followed by the queue the step leaves, are the queue
    it found followed by the request it took up (at most one): requests
    leave only from the front, in order, each issued as it leaves, and
    enter only at the back.  Hence along every run from the initial state
    the requests are issued in the order they were taken up, and the queue
    holds exactly those not yet issued, in that order. *)
Theorem challenge_queue_is_fifo :
  (forall now op b,
     let o := step now op b in
     issued (trace o) ++ challenge_queue (final o)
       = challenge_queue b ++ taken now op b
     /\ (List.length (taken now op b) <= 1)%nat)
  /\ (forall ops,
        let r := run ops Bot_init in
        issued (fst r) ++ challenge_queue (snd r) = taken_run ops Bot_init)
  /\ (forall ops i j A B,
        let r := run ops Bot_init in
        (i < j)%nat ->
        nth_error (taken_run ops Bot_init) i = Some A ->
        nth_error (taken_run ops Bot_init) j = Some B ->
        (j < List.length (issued (fst r)))%nat ->
        nth_error (issued (fst r)) i = Some A
        /\ nth_error (issued (fst r)) j = Some B).
Proof.
  split; [|split].
  - intros now op b. split; [apply step_serves | apply taken_at_most_one].
  - intros ops. cbn zeta. now rewrite run_serves.
  - intros ops i j A B r Hij HA HB Hj.
    pose proof (run_serves ops Bot_init) as Hrun. fold r in Hrun.
    simpl in Hrun. rewrite <- Hrun in HA, HB.
    rewrite nth_error_app1 in HA by lia.
    rewrite nth_error_app1 in HB by lia.
    now split.
Qed.

(** ** A session leaves the slot by being retired *)

Lemma same_session_refl (g : Game) : same_session g g.
Proof. unfold same_session. tauto. Qed.

Lemma retired_in_app (tr tr' : list Effect) (g : Game) :
  retired_in tr g -> retired_in (tr ++ tr') g.
Proof.
  unfold retired_in. intros [H | [H | H]]; [left | right; left | right; right];
    apply in_or_app; now left.
Qed.

Lemma retired_in_andThen (o : Out Bot) (k : Bot -> Out Bot) (g : Game) :
  retired_in (trace o) g -> retired_in (trace (o ;; k)) g.
Proof.
  intros H. destruct (raised o) eqn:E.
  - now rewrite (andThen_raised _ _ E).
  - rewrite (andThen_ok _ _ E). now apply retired_in_app.
Qed.

(** A poll leaves the session where it is, or retires it in the open. *)
Lemma poll_keeps_or_retires (now : Z) (b : Bot) (g : Game) :
  _active_game b = Some g ->
  get_active_game now b = ret b \/ retired_in (trace (get_active_game now b)) g.
Proof.
  intros Hg. destruct (state g) eqn:Hst.
  - unfold get_active_game. rewrite Hg, Hst.
    destruct (now - start_time g >? ACCEPT_CHALLENGE_WAIT_SECONDS)%Z; [|now left].
    right. apply retired_in_andThen. right. left. now left.
  - left. unfold get_active_game. now rewrite Hg, Hst.
  - right. rewrite (poll_finished_layout now b Hg Hst).
    do 2 apply retired_in_andThen. left. now left.
Qed.

Lemma kept_unchanged (g : Game) (b : Bot) (tr : list Effect) (r : option Exn) (b' : Bot) :
  _active_game b = Some g -> _active_game b' = _active_game b ->
  kept_or_retired g (mkOut tr b' r).
Proof.
  intros Hg Hb. left. exists g. simpl. rewrite Hb. split; [exact Hg|].
  apply same_session_refl.
Qed.

Lemma after_poll_kept_or_retired (now : Z) (b : Bot) (g : Game) (k : Bot -> Out Bot) :
  _active_game b = Some g ->
  kept_or_retired g (k b) ->
  kept_or_retired g (get_active_game now b ;; k).
Proof.
  intros Hg Hk. destruct (poll_keeps_or_retires now b Hg) as [Heq | Hret].
  - now rewrite Heq, andThen_ret_l.
  - right. now apply retired_in_andThen.
Qed.

Lemma challenge_user_kept_or_retired (now : Z) (t l : string) (b : Bot) (g : Game) :
  _active_game b = Some g -> kept_or_retired g (challenge_user now t l b).
Proof.
  intros Hg. unfold challenge_user.
  destruct (challenge_queue b) as [|r q].
  - apply after_poll_kept_or_retired; [exact Hg|]. rewrite Hg.
    unfold enqueue, emit. now apply kept_unchanged with (b := b).
  - unfold enqueue, emit. now apply kept_unchanged with (b := b).
Qed.

Lemma step_kept_or_retired (now : Z) (op : Op) (b : Bot) (g : Game) :
  _active_game b = Some g -> kept_or_retired g (step now op b).
Proof.
  intros Hg.
  assert (Hsame : kept_or_retired g (ret b)).
  { unfold ret. now apply kept_unchanged with (b := b). }
  destruct op as [cmd | cmd | cmd | ev | | | w0 events]; simpl.
  - unfold challenge.
    destruct (guard_raises (cmd_user cmd)); [exact Hsame|].
    destruct (negb (privileged (cmd_user cmd))); [exact Hsame|].
    destruct (String.length (parameter cmd) =? 0)%nat; [exact Hsame|].
    destruct (split_once (parameter cmd)) as [[t l]|]; [|exact Hsame].
    now apply challenge_user_kept_or_retired.
  - unfold play.
    destruct (String.length (parameter cmd) =? 0)%nat; [exact Hsame|].
    now apply challenge_user_kept_or_retired.
  - unfold when. destruct (guard_raises (cmd_user cmd)); [exact Hsame|].
    destruct (negb (privileged (cmd_user cmd))); [exact Hsame|].
    now apply kept_unchanged with (b := b).
  - destruct ev as [| gid mine | cid | |]; simpl; try exact Hsame.
    + unfold handle_game_start_event.
      apply after_poll_kept_or_retired; [exact Hg|]. rewrite Hg.
      unfold andThen, emit. simpl. now apply kept_unchanged with (b := b).
    + unfold handle_challenge_declined_event.
      apply after_poll_kept_or_retired; [exact Hg|]. rewrite Hg.
      destruct (String.eqb cid (challenge_id g)); [|exact Hsame].
      right. apply retired_in_andThen. right. right. now left.
  - destruct (poll_keeps_or_retires now b Hg) as [Heq | Hret].
    + now rewrite Heq.
    + now right.
  - unfold thread_enter. rewrite Hg.
    destruct (_active_game_thread b) as [[gid first [| |] sid]|]; try exact Hsame.
    left. exists (start_enter gid first g). split; [reflexivity|].
    apply start_enter_fields.
  - unfold thread_run. rewrite Hg.
    destruct (_active_game_thread b) as [[gid first [| |] sid]|]; try exact Hsame.
    left. exists (final (start_run first w0 events g)). split; [reflexivity|].
    apply start_run_quiet.
Qed.

Lemma same_session_of (g g' : Game) :
  same_session g g' -> session_of g' = session_of g.
Proof.
  unfold same_session, session_of. intros (H1 & H2 & H3 & H4). congruence.
Qed.

Lemma thread_inv_from (b : Bot) (o : Out Bot) :
  thread_runs_active b -> handle_dropped_or_kept b o ->
  thread_runs_active (final o).
Proof.
  unfold thread_runs_active. intros Hinv [Hnone | [Hslot Hth]] th Hsome.
  - rewrite Hnone in Hsome. discriminate.
  - rewrite Hslot. apply Hinv. now rewrite <- Hth.
Qed.

Lemma advance_drops_handle (now : Z) (q : list (string * string)) :
  forall b, _active_game_thread b = None ->
            _active_game_thread (final (advance now q b)) = None.
Proof.
  induction q as [|[t l] q' IH]; intros b Hth; [exact Hth|].
  change (advance now ((t, l) :: q') b)
    with (send_challenge_with (advance now q') now t l (with_queue q' b)).
  rewrite send_challenge_with_eq. cbn zeta.
  destruct (challenges_create (created (with_queue q' b)) l) as [cid | msg];
    rewrite assign_active_layout; cbn [final trace raised]; [reflexivity|].
  now apply IH.
Qed.

Lemma set_active_game_drops_handle (now : Z) (v : option Game) (b : Bot) :
  _active_game_thread (final (set_active_game now v b)) = None.
Proof.
  unfold set_active_game. rewrite assign_active_layout.
  rewrite andThen_ok by reflexivity. cbn [final trace raised].
  destruct v; [reflexivity|]. now apply advance_drops_handle.
Qed.

Lemma send_challenge_drops_handle (now : Z) (t l : string) (b : Bot) :
  _active_game_thread (final (send_challenge now t l b)) = None.
Proof.
  unfold send_challenge. rewrite send_challenge_with_eq. cbn zeta.
  destruct (challenges_create (created b) l) as [cid | msg];
    rewrite assign_active_layout; cbn [final trace raised]; [reflexivity|].
  now apply advance_drops_handle.
Qed.

Lemma after_emit_drops_handle (e : Effect) (b : Bot) (k : Bot -> Out Bot) :
  (forall b', _active_game_thread (final (k b')) = None) ->
  _active_game_thread (final (emit e b ;; k)) = None.
Proof.
  intros Hk. rewrite andThen_ok by reflexivity. cbn [final trace raised emit].
  apply Hk.
Qed.

Lemma poll_handle (now : Z) (b : Bot) :
  handle_dropped_or_kept b (get_active_game now b).
Proof.
  unfold handle_dropped_or_kept.
  destruct (_active_game b) as [g|] eqn:Hg.
  2: { right. rewrite (poll_empty_slot now b Hg). now split. }
  destruct (state g) eqn:Hst.
  - unfold get_active_game. rewrite Hg, Hst.
    destruct (now - start_time g >? ACCEPT_CHALLENGE_WAIT_SECONDS)%Z.
    + left. apply after_emit_drops_handle.
      intros b'. apply set_active_game_drops_handle.
    + right. simpl. now split.
  - right. unfold get_active_game. rewrite Hg, Hst. simpl. now split.
  - rewrite (poll_finished_layout now b Hg Hst).
    destruct (add_game_spec (opponent_twitch g) (user_won g) b)
      as (_ & Ha & Hth & _ & Hra).
    set (first := emit (SendMessage (TResult (truthy (user_won g))
                    (opponent_twitch g) (opponent_lichess g))) b ;;
                  add_game (opponent_twitch g) (user_won g)).
    assert (Hfirst : final first = final (add_game (opponent_twitch g) (user_won g) b)
                     /\ raised first = raised (add_game (opponent_twitch g) (user_won g) b)).
    { unfold first. rewrite andThen_ok by reflexivity. now split. }
    destruct Hfirst as [Hff Hfr].
    destruct (raised first) eqn:E.
    + right. rewrite (andThen_raised _ _ E), Hff, Ha, Hth, Hg. now split.
    + left. rewrite (andThen_ok _ _ E). cbn [final].
      apply set_active_game_drops_handle.
Qed.

Lemma after_poll_handle (now : Z) (b : Bot) (k : Bot -> Out Bot) :
  (forall b', handle_dropped_or_kept b' (k b')) ->
  handle_dropped_or_kept b (get_active_game now b ;; k).
Proof.
  intros Hk. destruct (raised (get_active_game now b)) eqn:E.
  - rewrite (andThen_raised _ _ E). apply poll_handle.
  - rewrite (andThen_ok _ _ E). unfold handle_dropped_or_kept. cbn [final].
    destruct (Hk (final (get_active_game now b))) as [Hn | [Hs Ht]];
      [now left|].
    destruct (poll_handle now b) as [Hn' | [Hs' Ht']].
    + left. now rewrite Ht.
    + right. split; congruence.
Qed.

Lemma challenge_user_handle (now : Z) (t l : string) (b : Bot) :
  handle_dropped_or_kept b (challenge_user now t l b).
Proof.
  unfold challenge_user. destruct (challenge_queue b) as [|r q].
  - apply after_poll_handle. intros b'.
    destruct (_active_game b').
    + right. unfold enqueue, emit. simpl. now split.
    + left. apply send_challenge_drops_handle.
  - right. unfold enqueue, emit. simpl. now split.
Qed.

Lemma step_keeps_thread_inv (now : Z) (op : Op) (b : Bot) :
  thread_runs_active b -> thread_runs_active (final (step now op b)).
Proof.
  intros Hinv.
  assert (Hret : handle_dropped_or_kept b (ret b)) by (right; now split).
  destruct op as [cmd | cmd | cmd | ev | | | w0 events]; simpl.
  - apply (thread_inv_from Hinv). unfold challenge.
    destruct (guard_raises (cmd_user cmd)); [exact Hret|].
    destruct (negb (privileged (cmd_user cmd))); [exact Hret|].
    destruct (String.length (parameter cmd) =? 0)%nat; [exact Hret|].
    destruct (split_once (parameter cmd)) as [[t l]|]; [|exact Hret].
    apply challenge_user_handle.
  - apply (thread_inv_from Hinv). unfold play.
    destruct (String.length (parameter cmd) =? 0)%nat; [exact Hret|].
    apply challenge_user_handle.
  - apply (thread_inv_from Hinv). unfold when.
    destruct (guard_raises (cmd_user cmd)); [exact Hret|].
    destruct (negb (privileged (cmd_user cmd))); [exact Hret|].
    right. now split.
  - destruct ev as [| gid mine | cid | |]; simpl; try exact Hinv.
    + unfold handle_game_start_event.
      pose proof (thread_inv_from Hinv (poll_handle now b)) as Hp.
      destruct (raised (get_active_game now b)) eqn:E.
      * now rewrite (andThen_raised _ _ E).
      * rewrite (andThen_ok _ _ E). cbn [final].
        destruct (_active_game (final (get_active_game now b))) as [g|] eqn:Hg;
          [|exact Hp].
        unfold andThen, emit. simpl. intros th Hth. simpl in Hth.
        injection Hth as <-. exists g. simpl. now split.
    + apply (thread_inv_from Hinv). unfold handle_challenge_declined_event.
      apply after_poll_handle. intros b'.
      destruct (_active_game b') as [g|]; [|right; now split].
      destruct (String.eqb cid (challenge_id g)); [|right; now split].
      left. apply after_emit_drops_handle.
      intros b''. apply set_active_game_drops_handle.
  - exact (thread_inv_from Hinv (poll_handle now b)).
  - unfold thread_enter.
    destruct (_active_game_thread b) as [[gid first [| |] sid]|] eqn:Hth;
      destruct (_active_game b) as [g|] eqn:Hg; try exact Hinv.
    intros th Hsome. simpl in Hsome. injection Hsome as <-.
    destruct (Hinv _ Hth) as (g0 & Hg0 & Hsid). rewrite Hg in Hg0.
    injection Hg0 as <-. exists (start_enter gid first g).
    cbn [final ret with_thread with_active _active_game th_session] in *.
    split; [reflexivity|]. rewrite <- Hsid.
    apply same_session_of, start_enter_fields.
  - unfold thread_run.
    destruct (_active_game_thread b) as [[gid first [| |] sid]|] eqn:Hth;
      destruct (_active_game b) as [g|] eqn:Hg; try exact Hinv.
    intros th Hsome. simpl in Hsome. injection Hsome as <-.
    destruct (Hinv _ Hth) as (g0 & Hg0 & Hsid). rewrite Hg in Hg0.
    injection Hg0 as <-. exists (final (start_run first w0 events g)).
    cbn [final ret with_thread with_active _active_game th_session] in *.
    split; [reflexivity|]. rewrite <- Hsid.
    apply same_session_of, start_run_quiet.
Qed.

Lemma run_keeps_thread_inv (ops : list (Z * Op)) :
  forall b, thread_runs_active b -> thread_runs_active (snd (run ops b)).
Proof.
  induction ops as [|[now op] rest IH]; intros b Hinv; simpl; [exact Hinv|].
  specialize (IH (final (step now op b)) (step_keeps_thread_inv now op Hinv)).
  now destruct (run rest (final (step now op b))).
Qed.

End Properties.

(** * The properties at concrete inputs *)

(** C8 at the scenario of the specification: after alice's vote for e4
    and bob's for d4, alice's message for d4 changes nothing. *)
Lemma vote_counted_iff_legal_and_new_witness :
  let legal := ["e4"; "d4"; "c4"] in
  let t := on_message legal empty_tally (mkMsg "alice" "e4") in
  count (num_votes t) "e4" = 1%Z
  /\ on_message legal (collect legal [mkMsg "bob" "d4"] t) (mkMsg "alice" "d4")
     = collect legal [mkMsg "bob" "d4"] t.
Proof.
  destruct (vote_counted_iff_legal_and_new ["e4"; "d4"; "c4"] empty_tally
              (mkMsg "alice" "e4")) as (Hyes & _ & _ & Hagain).
  assert (Hv : In "e4" ["e4"; "d4"; "c4"] /\ ~ In "alice" []).
  { split; [now left | intros []]. }
  split.
  - destruct (Hyes Hv) as (Hc & _). exact Hc.
  - apply (Hagain Hv [mkMsg "bob" "d4"] (mkMsg "alice" "d4")). reflexivity.
Defined.

(** C1 at a game the session plays as White and White wins by mate. *)
Lemma mate_sets_user_won_against_own_colour_witness :
  let w := mkWindow [mkMsg "alice" "e4"] 0 in
  let pre := [(GameStateEvent "started" None ["e7e5"], w)] in
  let o := @start demo_chess "g1" true w
             (pre ++ [(GameStateEvent "mate" (Some "white") ["d1h5"], w)])
             (demo_game CHALLENGE_SENT 0 None) in
  Forall (fun e => non_terminal (fst e) = true) pre
  /\ raised (@start demo_chess "g1" true w pre (demo_game CHALLENGE_SENT 0 None)) = None
  /\ raised o = None /\ state (final o) = FINISHED
  /\ user_won (final o) = Some false.
Proof.
  cbn zeta.
  assert (Hpre : Forall (fun e : GameEvent * Window => non_terminal (fst e) = true)
                   [(GameStateEvent "started" None ["e7e5"],
                     mkWindow [mkMsg "alice" "e4"] 0)]).
  { constructor; [reflexivity | constructor]. }
  assert (Hok : raised (@start demo_chess "g1" true (mkWindow [mkMsg "alice" "e4"] 0)
                          [(GameStateEvent "started" None ["e7e5"],
                            mkWindow [mkMsg "alice" "e4"] 0)]
                          (demo_game CHALLENGE_SENT 0 None)) = None).
  { reflexivity. }
  destruct (@mate_sets_user_won_against_own_colour demo_chess "g1" true
              (mkWindow [mkMsg "alice" "e4"] 0) _ [] "white" ["d1h5"]
              (mkWindow [mkMsg "alice" "e4"] 0) (demo_game CHALLENGE_SENT 0 None)
              Hpre Hok) as (Hr & Hst & _ & Hown & _).
  split; [exact Hpre|]. split; [exact Hok|]. split; [exact Hr|].
  split; [exact Hst|]. apply Hown. left. split; reflexivity.
Defined.

(** C1 (as stated) fails: the session plays White, the "mate" event
    declares White the winner, and [user_won] is false, not true. *)
Lemma mate_won_by_own_colour_gives_user_won_false :
  let w := mkWindow [] 0 in
  let o := @start demo_chess "g1" true w
             [(GameStateEvent "mate" (Some "white") [], w)]
             (demo_game CHALLENGE_SENT 0 None) in
  raised o = None
  /\ color (final o) = Some true
  /\ winner_is_own "white" (color (final o)) = true
  /\ user_won (final o) = Some false
  /\ user_won (final o) <> Some true.
Proof. vm_compute. repeat split; discriminate. Qed.

(** C2 at a game aborted right after its start: the poll calls
    [add_game] with no outcome and is ended by [TypeError]. *)
Lemma aborted_game_is_passed_to_add_game_witness :
  let w := mkWindow [] 0 in
  let g := demo_game CHALLENGE_SENT 0 None in
  let og := @start demo_chess "g1" false w
              [(GameStateEvent "aborted" None [], w)] g in
  let b := demo_bot (Some (final og)) [] in
  let o := @get_active_game demo_chess demo_server demo_constants 5 b in
  state (final og) = FINISHED /\ user_won (final og) = None
  /\ trace o = [SendMessage (TResult false "alice" "alice_li"); AddGame "alice" None]
  /\ In (AddGame "alice" None) (trace o)
  /\ raised o = Some TypeError
  /\ _active_game (final o) = Some (final og).
Proof.
  cbn zeta.
  destruct (@aborted_game_is_passed_to_add_game demo_chess demo_server
              demo_constants "g1" false (mkWindow [] 0) [] [] None []
              (mkWindow [] 0) (demo_game CHALLENGE_SENT 0 None) 5
              (demo_bot (Some (final (@start demo_chess "g1" false (mkWindow [] 0)
                                        [(GameStateEvent "aborted" None [], mkWindow [] 0)]
                                        (demo_game CHALLENGE_SENT 0 None)))) []))
    as (_ & Hst & Hw & Hin & Hraise & Hslot).
  - constructor.
  - reflexivity.
  - reflexivity.
  - reflexivity.
  - split; [exact Hst|]. split; [exact Hw|]. split; [reflexivity|].
    split; [exact Hin|]. split; [exact Hraise | exact Hslot].
Defined.

(** C9 at a challenge sent at time 0 and polled at time 100, with a
    threshold of 60 and bob waiting in the queue. *)
Lemma poll_times_out_pending_challenge_witness :
  let g := demo_game CHALLENGE_SENT 0 None in
  let b := demo_bot (Some g) [("bob", "bob_li")] in
  let o := @get_active_game demo_chess demo_server demo_constants 100 b in
  (100 - start_time g > @ACCEPT_CHALLENGE_WAIT_SECONDS demo_constants)%Z
  /\ raised o = None
  /\ trace o = [SendMessage (TTimedOut "alice" "alice_li");
                SendMessage (TChallenging "bob" "bob_li");
                ChallengesCreate "bob_li"]
  /\ issued (trace o) ++ challenge_queue (final o) = [("bob", "bob_li")].
Proof.
  cbn zeta.
  assert (Hlate : (100 - start_time (demo_game CHALLENGE_SENT 0 None)
                   > @ACCEPT_CHALLENGE_WAIT_SECONDS demo_constants)%Z).
  { simpl. lia. }
  destruct (@poll_times_out_pending_challenge demo_chess demo_server
              demo_constants 100
              (demo_bot (Some (demo_game CHALLENGE_SENT 0 None)) [("bob", "bob_li")])
              (demo_game CHALLENGE_SENT 0 None) eq_refl eq_refl Hlate)
    as (Hr & Htr & _ & _ & _ & Hfront).
  split; [exact Hlate|]. split; [exact Hr|]. split; [reflexivity|].
  apply (Hfront "bob" "bob_li" []). reflexivity.
Defined.

(** C7 at a challenge to [ghost_user] with bob waiting in the queue. *)
Lemma rejected_challenge_advances_queue_witness :
  let b := demo_bot None [("bob", "bob_li")] in
  let o := @send_challenge demo_chess demo_server 10 "eve" "ghost_user" b in
  @challenges_create demo_server (created b) "ghost_user" = inr "No such user"
  /\ raised o = None
  /\ trace o = [SendMessage (TChallenging "eve" "ghost_user");
                ChallengesCreate "ghost_user";
                SendMessage (TFailed "No such user");
                SendMessage (TChallenging "bob" "bob_li");
                ChallengesCreate "bob_li"]
  /\ issued (trace o) ++ challenge_queue (final o)
     = [("eve", "ghost_user"); ("bob", "bob_li")].
Proof.
  cbn zeta.
  destruct (@rejected_challenge_advances_queue demo_chess demo_server 10
              "eve" "ghost_user" (demo_bot None [("bob", "bob_li")])
              "No such user" eq_refl)
    as (Hr & _ & _ & _ & _ & Hfront).
  split; [reflexivity|]. split; [exact Hr|]. split; [reflexivity|].
  apply (Hfront "bob" "bob_li" []). reflexivity.
Defined.

(** C6 at an idle orchestrator and at one whose session is in progress. *)
Lemma challenge_user_issues_or_enqueues_witness :
  let idle := demo_bot None [] in
  let busy := demo_bot (Some (demo_game IN_PROGRESS 0 None)) [] in
  issued (trace (@challenge_user demo_chess demo_server demo_constants
                   5 "bob" "bob_li" idle)) = [("bob", "bob_li")]
  /\ trace (@challenge_user demo_chess demo_server demo_constants
              5 "bob" "bob_li" busy) = [SendMessage (TQueuePosition "bob" 1)]
  /\ challenge_queue (final (@challenge_user demo_chess demo_server demo_constants
                               5 "bob" "bob_li" busy)) = [("bob", "bob_li")].
Proof.
  cbn zeta.
  destruct (@challenge_user_issues_or_enqueues demo_chess demo_server
              demo_constants 5 "bob" "bob_li" (demo_bot None [])) as [Hidle _].
  destruct (@challenge_user_issues_or_enqueues demo_chess demo_server
              demo_constants 5 "bob" "bob_li"
              (demo_bot (Some (demo_game IN_PROGRESS 0 None)) [])) as [_ Hbusy].
  destruct (Hidle eq_refl (or_introl eq_refl)) as (_ & _ & _ & _ & Hi & _).
  destruct Hbusy as (_ & Htr & Hq & _).
  { right. exists (demo_game IN_PROGRESS 0 None). split; reflexivity. }
  split; [exact Hi|]. split; [exact Htr | exact Hq].
Defined.

(** C6 (as stated) fails: an active session exists (a challenge sent at
    time 0 and not yet answered at time 100), yet [challenge_user] appends
    nothing and reports no position: its poll times the session out and the
    new challenge is issued at once. *)
Lemma challenge_user_issues_over_timed_out_session :
  let b := demo_bot (Some (demo_game CHALLENGE_SENT 0 None)) [] in
  let o := @challenge_user demo_chess demo_server demo_constants
             100 "bob" "bob_li" b in
  _active_game b <> None
  /\ challenge_queue (final o) = []
  /\ challenge_queue (final o) <> challenge_queue b ++ [("bob", "bob_li")]
  /\ trace o = [SendMessage (TTimedOut "alice" "alice_li");
                SendMessage (TChallenging "bob" "bob_li");
                ChallengesCreate "bob_li"]
  /\ ~ In (SendMessage (TQueuePosition "bob" 1)) (trace o).
Proof.
  vm_compute. repeat split; try discriminate.
  intros [H | [H | [H | []]]]; discriminate.
Qed.

(** C5 along a run: three requests, then a poll that times the first
    challenge out and issues the second. *)
Lemma challenge_queue_is_fifo_witness :
  let player := fun name => mkCmd (mkUser name false None) (name ++ "_li")%string in
  let ops := [(0%Z, OpPlay (player "alice")); (1%Z, OpPlay (player "bob"));
              (2%Z, OpPlay (player "carol")); (100%Z, OpPoll)] in
  let r := @run demo_chess demo_server demo_constants ops Bot_init in
  issued (fst r) = [("alice", "alice_li"); ("bob", "bob_li")]
  /\ challenge_queue (snd r) = [("carol", "carol_li")]
  /\ nth_error (issued (fst r)) 0 = Some ("alice", "alice_li")
  /\ nth_error (issued (fst r)) 1 = Some ("bob", "bob_li").
Proof.
  cbn zeta.
  destruct (@challenge_queue_is_fifo demo_chess demo_server demo_constants)
    as (_ & _ & Horder).
  split; [reflexivity|]. split; [reflexivity|].
  apply (Horder
           [(0%Z, OpPlay (mkCmd (mkUser "alice" false None) "alice_li"));
            (1%Z, OpPlay (mkCmd (mkUser "bob" false None) "bob_li"));
            (2%Z, OpPlay (mkCmd (mkUser "carol" false None) "carol_li"));
            (100%Z, OpPoll)] 0%nat 1%nat).
  - lia.
  - reflexivity.
  - reflexivity.
  - vm_compute. lia.
Defined.

(** C10 at a moderator who is second in the queue. *)
Lemma when_always_replies_not_in_queue_witness :
  let cmd := mkCmd (mkUser "alice" true (Some ["moderator"])) "" in
  let b := demo_bot None [("bob", "bob_li"); ("alice", "alice_li")] in
  privileged (cmd_user cmd) = true
  /\ trace (when cmd b) = [Reply (TWhenPosition 2 "alice_li"); Reply TNotInQueue]
  /\ last (trace (when cmd b)) ThreadJoin = Reply TNotInQueue.
Proof.
  cbn zeta.
  destruct (@when_always_replies_not_in_queue demo_chess
              (mkCmd (mkUser "alice" true (Some ["moderator"])) "")
              (demo_bot None [("bob", "bob_li"); ("alice", "alice_li")]) eq_refl)
    as (_ & _ & Htr & Hlast & _).
  split; [reflexivity|]. split; [reflexivity | exact Hlast].
Defined.

(** C3 at four votes that tie two moves: the first-inserted one is
    selected. *)
Lemma selected_move_is_first_inserted_maximum_witness :
  let legal := ["e4"; "d4"; "c4"] in
  let msgs := [mkMsg "alice" "e4"; mkMsg "bob" "d4";
               mkMsg "carol" "d4"; mkMsg "dave" "e4"] in
  let nv := num_votes (collect legal msgs empty_tally) in
  nv <> []
  /\ exists m before after,
       select_move nv = Some m
       /\ dict_keys nv = before ++ m :: after
       /\ m = "e4".
Proof.
  cbn zeta.
  assert (Hne : num_votes (collect ["e4"; "d4"; "c4"]
                  [mkMsg "alice" "e4"; mkMsg "bob" "d4";
                   mkMsg "carol" "d4"; mkMsg "dave" "e4"] empty_tally) <> []).
  { vm_compute. discriminate. }
  split; [exact Hne|].
  destruct (selected_move_is_first_inserted_maximum
              ["e4"; "d4"; "c4"]
              [mkMsg "alice" "e4"; mkMsg "bob" "d4";
               mkMsg "carol" "d4"; mkMsg "dave" "e4"] Hne)
    as (m & before & after & Hsel & Hk & _).
  exists m, before, after. split; [exact Hsel|]. split; [exact Hk|].
  vm_compute in Hsel. now injection Hsel.
Defined.

(** The voting scenario of the specification: alice e4, bob d4, alice d4
    (ignored), carol d4 give the tally e4:1, d4:2 and select d4. *)
Example scenario_votes :
  let legal := ["e4"; "d4"; "c4"] in
  let t := collect legal
             [mkMsg "alice" "e4"; mkMsg "bob" "d4";
              mkMsg "alice" "d4"; mkMsg "carol" "d4"] empty_tally in
  num_votes t = [("e4", 1%Z); ("d4", 2%Z)] /\ select_move (num_votes t) = Some "d4".
Proof. split; reflexivity. Qed.

(** * Further properties *)

(** ** Parsing the [challenge] command *)

Lemma split_once_none (s : string) :
  split_once s = None <-> has_space s = false.
Proof.
  induction s as [|c s IH]; simpl.
  - tauto.
  - destruct (Ascii.eqb c " "%char); simpl.
    + split; discriminate.
    + destruct (split_once s) as [[a r]|].
      * split; [discriminate|]. intros H. apply IH in H. discriminate.
      * split; [intros _; now apply IH | reflexivity].
Qed.

Lemma split_once_at_first_space (a rest : string) :
  has_space a = false ->
  split_once (a ++ String " "%char rest) = Some (a, rest).
Proof.
  induction a as [|c a IH]; simpl; intros Ha.
  - reflexivity.
  - apply orb_false_iff in Ha. destruct Ha as [Hc Ha].
    rewrite Hc. now rewrite (IH Ha).
Qed.

Lemma split_once_joins (s a rest : string) :
  split_once s = Some (a, rest) ->
  s = (a ++ String " "%char rest)%string /\ has_space a = false.
Proof.
  revert a rest. induction s as [|c s IH]; simpl; intros a rest H.
  - discriminate.
  - destruct (Ascii.eqb c " "%char) eqn:Ec.
    + injection H as <- <-. apply Ascii.eqb_eq in Ec. subst c. now split.
    + destruct (split_once s) as [[a' r']|]; [|discriminate].
      injection H as <- <-. destruct (IH a' r' eq_refl) as [-> Ha].
      split; [reflexivity|]. simpl. now rewrite Ec.
Qed.

Lemma length_with_space (a rest : string) :
  (String.length (a ++ String " "%char rest) =? 0)%nat = false.
Proof. destruct a; reflexivity. Qed.

(** ** Tallies *)

Lemma sum_votes_set (k : string) (v : Z) (d : PyDict) :
  sum_votes (dict_set k v d) = (sum_votes d - count d k + v)%Z.
Proof.
  unfold sum_votes, count. induction d as [|[k0 v0] d IH]; simpl.
  - lia.
  - destruct (String.eqb k k0) eqn:E; simpl; [lia|].
    rewrite IH. lia.
Qed.

Lemma counted_are_legal (legal : list string) (msgs : list ChatMessage) :
  forall voted m, In m (counted legal voted msgs) -> In (msg_text m) legal.
Proof.
  induction msgs as [|x msgs IH]; simpl; intros voted m Hin; [destruct Hin|].
  destruct (negb (str_in (msg_user x) voted) && str_in (msg_text x) legal) eqn:E.
  - destruct Hin as [<- | Hin]; [|now apply (IH _ _ Hin)].
    apply andb_true_iff in E. now apply str_in_In.
  - now apply (IH _ _ Hin).
Qed.

Lemma first_occurrences_incl (l : list string) :
  forall seen x, In x (first_occurrences seen l) -> In x l.
Proof.
  induction l as [|y l IH]; simpl; intros seen x Hin; [exact Hin|].
  destruct (str_in y seen).
  - right. now apply (IH seen).
  - destruct Hin as [<- | Hin]; [now left | right; now apply (IH (y :: seen))].
Qed.

Lemma tally_keys_legal (legal : list string) (msgs : list ChatMessage) (k : string) :
  In k (dict_keys (num_votes (collect legal msgs empty_tally))) -> In k legal.
Proof.
  rewrite keys_follow_first_votes. simpl. intros Hin.
  apply first_occurrences_incl in Hin. apply in_map_iff in Hin.
  destruct Hin as (m & <- & Hm). now apply (counted_are_legal _ _ _ _ Hm).
Qed.

Lemma tally_empty_iff (legal : list string) (msgs : list ChatMessage) :
  num_votes (collect legal msgs empty_tally) = [] <-> counted legal [] msgs = [].
Proof.
  pose proof (keys_follow_first_votes legal msgs empty_tally) as Hk.
  simpl in Hk. split; intros H.
  - rewrite H in Hk. simpl in Hk.
    destruct (counted legal [] msgs) as [|m ms]; [reflexivity|].
    simpl in Hk. discriminate.
  - rewrite H in Hk. simpl in Hk.
    destruct (num_votes (collect legal msgs empty_tally)); [reflexivity|discriminate].
Qed.

Lemma select_move_in_keys (nv : PyDict) (m : string) :
  select_move nv = Some m -> In m (dict_keys nv).
Proof.
  unfold select_move, py_max. destruct (dict_keys nv) as [|k ks]; [discriminate|].
  intros H. injection H as <-.
  destruct (max_from_first (count nv) ks k) as (l1 & l2 & Heq & _).
  rewrite Heq. apply in_or_app. right. now left.
Qed.

Lemma random_choice_some (A : Type) (pick : nat) (l : list A) :
  l <> [] ->
  exists x, random_choice pick l = Some x /\ In x l
            /\ nth_error l (pick mod List.length l) = Some x.
Proof.
  intros Hne. unfold random_choice. destruct l as [|a l]; [now elim Hne|].
  destruct (nth_error (a :: l) (pick mod List.length (a :: l))) as [x|] eqn:E.
  - exists x. repeat split; try reflexivity. now apply nth_error_In in E.
  - apply nth_error_None in E.
    pose proof (Nat.mod_upper_bound pick (List.length (a :: l))) as Hlt.
    simpl in *. lia.
Qed.

Lemma collect_voters (legal : list string) (msgs : list ChatMessage) :
  forall t,
    NoDup (users t) ->
    let t' := collect legal msgs t in
    NoDup (users t')
    /\ List.length (users t')
       = (List.length (users t) + List.length (counted legal (users t) msgs))%nat
    /\ sum_votes (num_votes t')
       = (sum_votes (num_votes t)
          + Z.of_nat (List.length (counted legal (users t) msgs)))%Z.
Proof.
  unfold collect. induction msgs as [|m ms IH]; intros t Hnd; simpl.
  - repeat split; try assumption; lia.
  - fold (counts legal t m). destruct (counts legal t m) eqn:E.
    + destruct (on_message_counts legal t m E) as (Hc & Ho & Hu & Hk).
      assert (Hnd' : NoDup (users (on_message legal t m))).
      { rewrite Hu. constructor; [|exact Hnd].
        apply counts_spec in E. tauto. }
      destruct (IH (on_message legal t m) Hnd') as (H1 & H2 & H3).
      rewrite Hu in H2, H3. simpl in H2.
      assert (Hsum : sum_votes (num_votes (on_message legal t m))
                     = (sum_votes (num_votes t) + 1)%Z).
      { unfold on_message. fold (counts legal t m). rewrite E. cbn [num_votes].
        destruct (dict_mem (msg_text m) (num_votes t)) eqn:Em; cbn [negb].
        - rewrite sum_votes_set. lia.
        - rewrite !sum_votes_set, count_set_same.
          rewrite (count_not_mem _ _ Em). lia. }
      rewrite Hsum in H3. simpl List.length.
      repeat split; try assumption; lia.
    + rewrite (on_message_ignored legal t m E). now apply IH.
Qed.

(** X4. In the tally of a window every voter is recorded once, the tallies
    add up to the number of voters, every tallied move is a legal move
    with at least one vote, and no move has two entries. *)
Theorem each_voter_counts_once (legal : list string) (msgs : list ChatMessage) :
  let t := collect legal msgs empty_tally in
  NoDup (users t)
  /\ List.length (users t) = List.length (counted legal [] msgs)
  /\ sum_votes (num_votes t) = Z.of_nat (List.length (users t))
  /\ NoDup (dict_keys (num_votes t))
  /\ (forall k v, In (k, v) (num_votes t) -> In k legal /\ (1 <= v)%Z).
Proof.
  cbn zeta.
  destruct (collect_voters legal msgs empty_tally (NoDup_nil _)) as (Hnd & Hlen & Hsum).
  simpl in Hlen, Hsum.
  assert (Hkeys : NoDup (dict_keys (num_votes (collect legal msgs empty_tally)))).
  { rewrite keys_follow_first_votes. simpl. apply first_occurrences_fresh. }
  split; [exact Hnd|]. split; [exact Hlen|]. split; [now rewrite Hsum, Hlen|].
  split; [exact Hkeys|].
  intros k v Hin.
  assert (Hk : In k (dict_keys (num_votes (collect legal msgs empty_tally)))).
  { apply in_map_iff. now exists (k, v). }
  split; [now apply (tally_keys_legal legal msgs)|].
  rewrite <- (count_of_entry _ _ _ Hkeys Hin).
  rewrite tally_is_number_of_votes. simpl.
  rewrite keys_follow_first_votes in Hk. simpl in Hk.
  apply first_occurrences_incl in Hk. apply in_map_iff in Hk.
  destruct Hk as (m & Hm & Hc).
  assert (Hf : In m (filter (fun v0 => String.eqb (msg_text v0) k)
                       (counted legal [] msgs))).
  { apply filter_In. split; [exact Hc|]. rewrite Hm. apply String.eqb_refl. }
  destruct (filter (fun v0 => String.eqb (msg_text v0) k) (counted legal [] msgs));
    [destruct Hf | simpl; lia].
Qed.

Section MoreProperties.
Context {chess : ChessLib} {server : ChessServer} {constants : Constants}.

(** ** The vote window *)

(** [poll_for_legal_move] by cases of the tally. *)
Lemma poll_layout (w : Window) (g : Game) :
  let legal := legal_sans (board g) in
  let nv := num_votes (collect legal (w_msgs w) empty_tally) in
  poll_for_legal_move w g =
  match nv with
  | [] =>
      match random_choice (w_pick w) legal with
      | None => mkOut [SendMessage TVoteOpen] g (Some IndexError)
      | Some m => mkOut [SendMessage TVoteOpen; SendMessage (TVoteRandom m);
                         MakeMove (game_id g) m] g None
      end
  | _ :: _ =>
      match select_move nv with
      | None => mkOut [SendMessage TVoteOpen] g (Some ValueError)
      | Some m => mkOut [SendMessage TVoteOpen; SendMessage (TVoteSelected m);
                         MakeMove (game_id g) m] g None
      end
  end.
Proof.
  cbn zeta. unfold poll_for_legal_move, andThen, emit, raise. simpl.
  destruct (num_votes (collect (legal_sans (board g)) (w_msgs w) empty_tally)).
  - now destruct (random_choice (w_pick w) (legal_sans (board g))).
  - now destruct (select_move (p :: p0)).
Qed.

(** X2. A vote window always ends in exactly one move, and a legal one:
    after the opening announcement the chosen move is announced and
    submitted, and the game record is untouched.  Only a position without
    legal moves makes it fail, with [IndexError] from [random.choice],
    before any move is announced or submitted. *)
Theorem vote_window_submits_one_legal_move (w : Window) (g : Game) :
  let o := poll_for_legal_move w g in
  let legal := legal_sans (board g) in
  final o = g
  /\ (legal = [] ->
      raised o = Some IndexError /\ trace o = [SendMessage TVoteOpen])
  /\ (legal <> [] ->
      exists m, In m legal /\ raised o = None
        /\ (trace o = [SendMessage TVoteOpen; SendMessage (TVoteSelected m);
                       MakeMove (game_id g) m]
            \/ trace o = [SendMessage TVoteOpen; SendMessage (TVoteRandom m);
                          MakeMove (game_id g) m])).
Proof.
  cbn zeta. rewrite poll_layout. cbn zeta.
  destruct (num_votes (collect (legal_sans (board g)) (w_msgs w) empty_tally))
    as [|e nv] eqn:Env.
  - split; [|split].
    + now destruct (random_choice (w_pick w) (legal_sans (board g))).
    + intros Hl. rewrite Hl. simpl. now split.
    + intros Hl.
      destruct (random_choice_some (w_pick w) Hl) as (m & Hm & Hin & _).
      rewrite Hm. exists m. simpl. repeat split; try assumption. now right.
  - assert (Hne : e :: nv <> []) by discriminate.
    assert (Hsel : exists m, select_move (e :: nv) = Some m).
    { unfold select_move, py_max. destruct e as [k v]. simpl. eauto. }
    destruct Hsel as (m & Hsel). rewrite Hsel.
    assert (Hin : In m (legal_sans (board g))).
    { apply (tally_keys_legal (legal_sans (board g)) (w_msgs w)).
      rewrite Env. now apply select_move_in_keys. }
    split; [reflexivity|]. split.
    + intros Hl. rewrite Hl in Hin. destruct Hin.
    + intros _. exists m. simpl. repeat split; try assumption. now left.
Qed.

(** X3. The random draw decides the move only when no message of the
    window counted as a vote: with at least one counted vote the window
    gives the same result whatever the draw, and announces a selected
    move; with none (and a legal move to pick) it announces the legal
    move at the drawn index. *)
Theorem random_draw_only_without_votes (msgs : list ChatMessage) (g : Game) :
  let legal := legal_sans (board g) in
  (counted legal [] msgs <> [] ->
   forall p1 p2,
     poll_for_legal_move (mkWindow msgs p1) g = poll_for_legal_move (mkWindow msgs p2) g
     /\ exists m, select_move (num_votes (collect legal msgs empty_tally)) = Some m
          /\ trace (poll_for_legal_move (mkWindow msgs p1) g)
             = [SendMessage TVoteOpen; SendMessage (TVoteSelected m);
                MakeMove (game_id g) m])
  /\ (counted legal [] msgs = [] -> legal <> [] ->
      forall p, exists m,
        nth_error legal (p mod List.length legal) = Some m
        /\ trace (poll_for_legal_move (mkWindow msgs p) g)
           = [SendMessage TVoteOpen; SendMessage (TVoteRandom m);
              MakeMove (game_id g) m]).
Proof.
  cbn zeta. split.
  - intros Hc p1 p2. rewrite !poll_layout. cbn zeta. cbn [w_msgs w_pick].
    destruct (num_votes (collect (legal_sans (board g)) msgs empty_tally))
      as [|e nv] eqn:Env.
    + apply tally_empty_iff in Env. now elim Hc.
    + split; [reflexivity|].
      assert (Hsel : exists m, select_move (e :: nv) = Some m).
      { unfold select_move, py_max. destruct e as [k v]. simpl. eauto. }
      destruct Hsel as (m & Hsel). rewrite Hsel. exists m. now split.
  - intros Hc Hl p. rewrite poll_layout. cbn zeta. cbn [w_msgs w_pick].
    apply tally_empty_iff in Hc. rewrite Hc.
    destruct (random_choice_some p Hl) as (m & Hm & _ & Hnth).
    rewrite Hm. exists m. now split.
Qed.

(** ** The game thread, further *)

Lemma start_prefix_keeps (first : bool) (w0 : Window)
  (events : list (GameEvent * Window)) (g : Game) :
  keeps g (first_poll first w0 g ;; game_loop events).
Proof.
  apply keeps_andThen; [apply first_poll_keeps|].
  intros g'. apply game_loop_keeps.
Qed.

(** X5. [Game.start] leaves the session Finished exactly when it runs to
    its end; when an exception ends it (a vote in a position without legal
    moves, a move that cannot be applied, a "mate" event without winner)
    the session stays InProgress.  Either way it is still the same
    session, with the game id and the colour of the call. *)
Theorem start_finishes_unless_it_raises
  (gid : string) (first : bool) (w0 : Window)
  (events : list (GameEvent * Window)) (g : Game) :
  let o := start gid first w0 events g in
  same_session g (final o)
  /\ game_id (final o) = Some gid
  /\ color (final o) = Some first
  /\ (raised o = None -> state (final o) = FINISHED)
  /\ (raised o <> None -> state (final o) = IN_PROGRESS)
  /\ issued (trace o) = [].
Proof.
  cbn zeta. unfold start. rewrite start_run_eq.
  set (g0 := start_enter gid first g).
  destruct (start_enter_fields gid first g) as (Hst & Hc & Hg & _ & S1 & S2 & S3 & S4).
  fold g0 in Hst, Hc, Hg, S1, S2, S3, S4.
  destruct (start_prefix_keeps first w0 events g0)
    as (Hi & (T1 & T2 & T3 & T4) & Hc' & Hg' & Hs').
  set (A := first_poll first w0 g0 ;; game_loop events) in *.
  destruct (raised A) eqn:E.
  - rewrite (andThen_raised _ _ E). rewrite E.
    split; [unfold same_session; repeat split; congruence|].
    split; [congruence|]. split; [congruence|].
    split; [discriminate|]. split; [congruence | exact Hi].
  - rewrite (andThen_ok _ _ E). cbn [final trace raised ret].
    rewrite app_nil_r.
    split; [unfold same_session; simpl; repeat split; congruence|].
    split; [simpl; congruence|]. split; [simpl; congruence|].
    split; [reflexivity|]. split; [intros H; now elim H | exact Hi].
Qed.

Lemma game_loop_without_mate (events : list (GameEvent * Window)) :
  Forall (fun e => is_mate (fst e) = false) events ->
  forall g, user_won (final (game_loop events g)) = user_won g.
Proof.
  assert (Hstep : forall moves w rest g,
            (forall g', user_won (final (game_loop rest g')) = user_won g') ->
            user_won (final (handle_state_change moves w g ;; game_loop rest))
            = user_won g).
  { intros moves w rest g IH.
    destruct (handle_state_change_keeps moves w g) as [_ Hw].
    destruct (raised (handle_state_change moves w g)) eqn:E.
    - now rewrite (andThen_raised _ _ E).
    - rewrite (andThen_ok _ _ E). cbn [final]. now rewrite IH. }
  induction 1 as [|[ev w] rest Hev Hrest IH]; intros g; simpl.
  - reflexivity.
  - destruct ev as [moves | status winner moves |]; simpl in Hev.
    + now apply Hstep.
    + rewrite Hev. destruct (String.eqb status "aborted"); [reflexivity|].
      now apply Hstep.
    + apply IH.
Qed.

(** X6. Only a "mate" event records an outcome: on a stream without one
    (a game that is resigned, drawn, lost on time or aborted, or a stream
    that just ends) [Game.start] leaves [user_won] as it found it --
    [None] for a fresh session -- whether it runs to its end or not. *)
Theorem outcome_is_recorded_only_by_mate
  (gid : string) (first : bool) (w0 : Window)
  (events : list (GameEvent * Window)) (g : Game) :
  Forall (fun e => is_mate (fst e) = false) events ->
  user_won (final (start gid first w0 events g)) = user_won g.
Proof.
  intros Hno. unfold start. rewrite start_run_eq.
  set (g0 := start_enter gid first g).
  destruct (start_enter_fields gid first g) as (_ & _ & _ & Hw & _). fold g0 in Hw.
  destruct (first_poll_keeps first w0 g0) as [_ Hw0].
  assert (HA : user_won (final (first_poll first w0 g0 ;; game_loop events))
               = user_won g0).
  { destruct (raised (first_poll first w0 g0)) eqn:E.
    - now rewrite (andThen_raised _ _ E).
    - rewrite (andThen_ok _ _ E). cbn [final].
      now rewrite game_loop_without_mate. }
  destruct (raised (first_poll first w0 g0 ;; game_loop events)) eqn:E.
  - rewrite (andThen_raised _ _ E). congruence.
  - rewrite (andThen_ok _ _ E). cbn [final ret]. simpl. congruence.
Qed.

(** ** Commands *)

(** X1. The [challenge] command raises [TypeError] at its guard, changing
    and sending nothing, for a caller who is no moderator and has no
    badges at all; it does nothing for a caller with badges who is neither
    moderator nor broadcaster, and nothing when its parameter holds no
    space; for a privileged caller it splits the parameter at its first
    space and requests a challenge with the text before it as the Twitch
    name and everything after it (further spaces included) as the Lichess
    name. *)
Theorem challenge_command_splits_at_first_space
  (now : Z) (cmd : ChatCommand) (b : Bot) :
  (user_mod (cmd_user cmd) = false -> user_badges (cmd_user cmd) = None ->
   challenge now cmd b = mkOut [] b (Some TypeError))
  /\ (guard_raises (cmd_user cmd) = false ->
      privileged (cmd_user cmd) = false \/ has_space (parameter cmd) = false ->
      challenge now cmd b = ret b)
  /\ (forall twitch lichess,
        privileged (cmd_user cmd) = true ->
        parameter cmd = (twitch ++ String " "%char lichess)%string ->
        has_space twitch = false ->
        challenge now cmd b = challenge_user now twitch lichess b).
Proof.
  unfold challenge. split; [|split].
  - intros Hm Hb. unfold guard_raises. now rewrite Hm, Hb.
  - intros Hg [Hp | Hs]; rewrite Hg.
    + now rewrite Hp.
    + destruct (negb (privileged (cmd_user cmd))); [reflexivity|].
      destruct (String.length (parameter cmd) =? 0)%nat; [reflexivity|].
      apply split_once_none in Hs. now rewrite Hs.
  - intros twitch lichess Hp Hpar Hs.
    rewrite (privileged_guard_returns _ Hp), Hp, Hpar. cbn [negb].
    rewrite length_with_space. now rewrite (@split_once_at_first_space twitch lichess Hs).
Qed.

(** ** Advancing the queue *)

Lemma all_rejected_cons (n : nat) (t l : string) (msg : string)
  (q : list (string * string)) :
  challenges_create n l = inr msg -> all_rejected (S n) q ->
  all_rejected n ((t, l) :: q).
Proof.
  intros Hrej Hall i t' l' Hnth. destruct i as [|i]; simpl in Hnth.
  - injection Hnth as <- <-. rewrite Nat.add_0_r. eauto.
  - replace (n + S i)%nat with (S n + i)%nat by lia. now apply (Hall i t').
Qed.

(** What [advance] leaves, from a state with an empty slot: it has issued
    the whole queue in vain, or it has issued the queue up to the first
    request the server accepts and installed a session for that one. *)
Lemma advance_result (now : Z) (q : list (string * string)) :
  forall b, _active_game b = None -> challenge_queue b = q ->
    let o := advance now q b in
    user_database (final o) = user_database b
    /\ add_game_calls (trace o) = []
    /\ ((_active_game (final o) = None
         /\ challenge_queue (final o) = []
         /\ issued (trace o) = q
         /\ created (final o) = (created b + List.length q)%nat
         /\ all_rejected (created b) q)
        \/ (exists pre t l post cid,
              q = pre ++ (t, l) :: post
              /\ issued (trace o) = pre ++ [(t, l)]
              /\ challenge_queue (final o) = post
              /\ challenges_create (created b + List.length pre) l = inl cid
              /\ _active_game (final o) = Some (Game_init now t l cid)
              /\ all_rejected (created b) pre
              /\ created (final o) = (created b + List.length pre + 1)%nat)).
Proof.
  induction q as [|[t l] q' IH]; intros b Hslot Hq; cbn zeta.
  - simpl. split; [reflexivity|]. split; [reflexivity|]. left.
    repeat split; try assumption; try lia.
    intros i t l Hnth. destruct i; discriminate.
  - change (advance now ((t, l) :: q') b)
      with (send_challenge_with (advance now q') now t l (with_queue q' b)).
    rewrite send_challenge_with_eq. cbn zeta.
    change (created (with_queue q' b)) with (created b).
    destruct (challenges_create (created b) l) as [cid | msg] eqn:Ec;
      rewrite assign_active_layout; cbn [trace final raised].
    + split; [reflexivity|]. split.
      { unfold joined. simpl. now destruct (_active_game_thread b). }
      right. exists [], t, l, q', cid. simpl.
      assert (Hj : issued (joined (with_created (S (created b)) (with_queue q' b))) = []).
      { unfold joined. simpl. now destruct (_active_game_thread b). }
      rewrite Hj. rewrite Nat.add_0_r.
      repeat split; try assumption; try lia.
      intros i t0 l0 Hnth. destruct i; discriminate.
    + set (b1 := with_thread None
                   (with_active None (with_created (S (created b)) (with_queue q' b)))).
      destruct (IH b1 eq_refl eq_refl) as (Hdb & Hag & Hres).
      assert (Hj : issued (joined (with_created (S (created b)) (with_queue q' b))) = []
                   /\ add_game_calls
                        (joined (with_created (S (created b)) (with_queue q' b))) = []).
      { unfold joined. simpl. now destruct (_active_game_thread b). }
      destruct Hj as [Hj Hja].
      assert (Hagapp : forall tr1 tr2, add_game_calls tr1 = [] ->
                add_game_calls (tr1 ++ tr2) = add_game_calls tr2).
      { induction tr1 as [|e tr1 IHt]; simpl; intros tr2 H; [reflexivity|].
        destruct e; try now apply IHt. discriminate. }
      split; [exact Hdb|]. split.
      { cbn [add_game_calls]. now rewrite Hagapp. }
      cbn [issued]. rewrite issued_app, Hj. cbn [app].
      change (created b1) with (S (created b)) in Hres.
      destruct Hres as [(Hs & Hqf & Hi & Hcr & Hall)
                       | (pre & t' & l' & post & cid & Hq' & Hi & Hqf & Hacc & Hs & Hall & Hcr)].
      * left. rewrite Hi. repeat split; try assumption.
        -- simpl. lia.
        -- now apply all_rejected_cons with (msg := msg).
      * right. exists ((t, l) :: pre), t', l', post, cid. rewrite Hi.
        split; [now rewrite Hq'|]. split; [reflexivity|]. split; [exact Hqf|].
        split; [rewrite <- Hacc; f_equal; simpl; lia|]. split; [exact Hs|].
        split; [now apply all_rejected_cons with (msg := msg)|].
        rewrite Hcr. simpl. lia.
Qed.

Lemma add_game_calls_app (tr1 tr2 : list Effect) :
  add_game_calls (tr1 ++ tr2) = add_game_calls tr1 ++ add_game_calls tr2.
Proof.
  induction tr1 as [|e tr1 IH]; simpl; [reflexivity|].
  destruct e; try exact IH. simpl. now rewrite IH.
Qed.

Lemma joined_quiet (b : Bot) :
  issued (joined b) = [] /\ add_game_calls (joined b) = [].
Proof. unfold joined. now destruct (_active_game_thread b). Qed.


(** ** Nothing waits behind an empty slot *)









(** ** When the poll fails, and what it records *)

Lemma poll_raised (now : Z) (b : Bot) :
  raised (get_active_game now b) =
  match _active_game b with
  | Some g =>
      match state g, user_won g with
      | FINISHED, None => Some TypeError
      | _, _ => None
      end
  | None => None
  end.
Proof.
  destruct (_active_game b) as [g|] eqn:Hg.
  2: { now rewrite (poll_empty_slot now b Hg). }
  destruct (state g) eqn:Hst.
  - unfold get_active_game. rewrite Hg, Hst.
    destruct (now - start_time g >? ACCEPT_CHALLENGE_WAIT_SECONDS)%Z; [|reflexivity].
    rewrite andThen_ok by reflexivity. cbn [trace final raised emit].
    apply set_active_game_spec.
  - unfold get_active_game. now rewrite Hg, Hst.
  - destruct (user_won g) as [w|] eqn:Hw.
    + rewrite (poll_finished_layout now b Hg Hst), Hw.
      destruct (add_game_spec (opponent_twitch g) (Some w) b) as (_ & _ & _ & _ & Hra).
      assert (Hfirst : raised (emit (SendMessage (TResult (truthy (Some w))
                         (opponent_twitch g) (opponent_lichess g))) b ;;
                       add_game (opponent_twitch g) (Some w)) = None).
      { rewrite andThen_ok by reflexivity. exact Hra. }
      rewrite (andThen_ok _ _ Hfirst). cbn [raised].
      apply set_active_game_spec.
    + now destruct (poll_aborted_raises now b Hg Hst Hw) as (_ & Hr & _).
Qed.

(** X9. The poll fails in one case only: the slot holds a Finished session
    without a recorded outcome, and then it raises [TypeError] and leaves
    slot and queue as they were, so that every later poll fails the same
    way.  In every other state it returns. *)
Theorem poll_fails_only_on_finished_without_outcome (now : Z) (b : Bot) :
  let o := get_active_game now b in
  (forall x, raised o = Some x <->
     x = TypeError
     /\ exists g, _active_game b = Some g /\ state g = FINISHED
                  /\ user_won g = None)
  /\ (raised o <> None ->
      _active_game (final o) = _active_game b
      /\ challenge_queue (final o) = challenge_queue b
      /\ forall later, raised (get_active_game later (final o)) = raised o).
Proof.
  cbn zeta. split.
  - intros x. rewrite poll_raised. split.
    + destruct (_active_game b) as [g|]; [|discriminate].
      destruct (state g) eqn:Hst; try discriminate.
      destruct (user_won g) eqn:Hw; [discriminate|].
      intros H. injection H as <-. split; [reflexivity|]. now exists g.
    + intros (-> & g & Hg & Hst & Hw). now rewrite Hg, Hst, Hw.
  - intros Hr. rewrite poll_raised in Hr.
    destruct (_active_game b) as [g|] eqn:Hg; [|now elim Hr].
    destruct (state g) eqn:Hst; try now elim Hr.
    destruct (user_won g) eqn:Hw; [now elim Hr|].
    destruct (poll_aborted_raises now b Hg Hst Hw) as (_ & Hraise & Hslot & Hq).
    split; [now rewrite Hslot|]. split; [exact Hq|].
    intros later. rewrite !poll_raised, Hslot, Hg. reflexivity.
Qed.

Lemma stats_untouched_andThen (b : Bot) (o : Out Bot) (k : Bot -> Out Bot) :
  stats_untouched b o -> (forall b', stats_untouched b' (k b')) ->
  stats_untouched b (o ;; k).
Proof.
  unfold stats_untouched. intros [Hd Ha] Hk. destruct (raised o) eqn:E.
  - rewrite (andThen_raised _ _ E). now split.
  - rewrite (andThen_ok _ _ E). cbn [final trace].
    destruct (Hk (final o)) as [Hd' Ha'].
    rewrite add_game_calls_app, Ha, Ha'. split; [congruence | reflexivity].
Qed.

Lemma set_active_game_stats (now : Z) (v : option Game) (b : Bot) :
  stats_untouched b (set_active_game now v b).
Proof.
  unfold stats_untouched, set_active_game. rewrite assign_active_layout.
  rewrite andThen_ok by reflexivity. cbn [trace final raised].
  destruct (joined_quiet b) as [_ Hja]. rewrite add_game_calls_app, Hja.
  destruct v as [g|]; [now split|].
  change (challenge_queue (with_thread None (with_active None b)))
    with (challenge_queue b).
  destruct (@advance_result now (challenge_queue b)
              (with_thread None (with_active None b)) eq_refl eq_refl)
    as (Hdb & Hag & _).
  now split.
Qed.

Lemma send_challenge_stats (now : Z) (t l : string) (b : Bot) :
  stats_untouched b (send_challenge now t l b).
Proof.
  unfold stats_untouched, send_challenge. rewrite send_challenge_with_eq. cbn zeta.
  destruct (challenges_create (created b) l) as [cid | msg];
    rewrite assign_active_layout; cbn [trace final raised add_game_calls].
  - destruct (joined_quiet (with_created (S (created b)) b)) as [_ Hja].
    now split.
  - change (challenge_queue
              (with_thread None (with_active None (with_created (S (created b)) b))))
      with (challenge_queue b).
    destruct (@advance_result now (challenge_queue b)
                (with_thread None (with_active None (with_created (S (created b)) b)))
                eq_refl eq_refl) as (Hdb & Hag & _).
    destruct (joined_quiet (with_created (S (created b)) b)) as [_ Hja].
    rewrite add_game_calls_app, Hja, Hag. now split.
Qed.

(** X10. A poll that finds a Finished session with a recorded outcome
    announces "Lost" when the user won and "Won" otherwise, calls
    [add_game] once, for the opponent's Twitch name with that outcome,
    which adds one game (and one win if the user won) to that user's row,
    and then retires the session without raising. *)
Theorem poll_records_finished_game_once
  (now : Z) (b : Bot) (g : Game) (w : bool) :
  _active_game b = Some g -> state g = FINISHED -> user_won g = Some w ->
  let o := get_active_game now b in
  let t := opponent_twitch g in
  raised o = None
  /\ (exists rest, trace o = SendMessage (TResult w t (opponent_lichess g))
                             :: AddGame t (Some w) :: rest)
  /\ render (TResult w t (opponent_lichess g))
     = ((if w then "Lost" else "Won") ++ " a game vs " ++ t
        ++ " (" ++ opponent_lichess g ++ "), GG!")%string
  /\ add_game_calls (trace o) = [(t, Some w)]
  /\ user_database (final o)
     = update_users (if w then 1 else 0) t (insert_or_ignore t (user_database b))
  /\ issued (trace o) ++ challenge_queue (final o) = challenge_queue b.
Proof.
  intros Hg Hst Hw. cbn zeta.
  split; [rewrite poll_raised, Hg, Hst, Hw; reflexivity|].
  pose proof (get_active_game_serves now b) as Hserves.
  rewrite (poll_finished_layout now b Hg Hst), Hw in *.
  set (b1 := final (add_game (opponent_twitch g) (Some w) b)).
  assert (Hfirst : emit (SendMessage (TResult (truthy (Some w))
                     (opponent_twitch g) (opponent_lichess g))) b ;;
                   add_game (opponent_twitch g) (Some w)
                   = mkOut [SendMessage (TResult w (opponent_twitch g) (opponent_lichess g));
                            AddGame (opponent_twitch g) (Some w)] b1 None).
  { unfold b1, add_game, andThen, emit. destruct w; reflexivity. }
  rewrite Hfirst in *. rewrite andThen_ok in * by reflexivity.
  cbn [trace final raised app] in *.
  destruct (set_active_game_stats now None b1) as [Hdb Hag].
  split; [eexists; reflexivity|]. split; [reflexivity|].
  split; [cbn [add_game_calls]; now rewrite Hag|].
  split; [|exact Hserves].
  rewrite Hdb. unfold b1, add_game, andThen, emit. destruct w; reflexivity.
Qed.

(** ** The statistics table *)

Lemma insert_or_ignore_find_same (t : string) (tbl : UsersTable) :
  find (fun r => String.eqb (fst r) t) (insert_or_ignore t tbl) =
  match find (fun r => String.eqb (fst r) t) tbl with
  | Some r => Some r
  | None => Some (t, (0, 0)%Z)
  end.
Proof.
  unfold insert_or_ignore.
  destruct (existsb (fun r => String.eqb (fst r) t) tbl) eqn:E.
  - apply existsb_exists in E. destruct E as (r & Hin & Hr).
    destruct (find (fun r0 => String.eqb (fst r0) t) tbl) eqn:Ef; [reflexivity|].
    apply (find_none _ _ Ef) in Hin. congruence.
  - induction tbl as [|r tbl IH]; simpl in *.
    + now rewrite String.eqb_refl.
    + apply orb_false_iff in E. destruct E as [Er E]. rewrite Er. now apply IH.
Qed.

Lemma insert_or_ignore_find_other (t u : string) (tbl : UsersTable) :
  u <> t ->
  find (fun r => String.eqb (fst r) u) (insert_or_ignore t tbl) =
  find (fun r => String.eqb (fst r) u) tbl.
Proof.
  intros Hne. unfold insert_or_ignore.
  destruct (existsb (fun r => String.eqb (fst r) t) tbl); [reflexivity|].
  induction tbl as [|r tbl IH]; simpl.
  - assert (H : String.eqb t u = false) by (apply String.eqb_neq; congruence).
    now rewrite H.
  - destruct (String.eqb (fst r) u); [reflexivity | exact IH].
Qed.

Lemma update_users_find_same (n : Z) (t : string) (tbl : UsersTable) :
  find (fun r => String.eqb (fst r) t) (update_users n t tbl) =
  match find (fun r => String.eqb (fst r) t) tbl with
  | Some r => Some (fst r, (fst (snd r) + 1, snd (snd r) + n)%Z)
  | None => None
  end.
Proof.
  unfold update_users. induction tbl as [|r tbl IH]; simpl; [reflexivity|].
  destruct (String.eqb (fst r) t) eqn:E; simpl; rewrite E; [reflexivity | exact IH].
Qed.

Lemma update_users_find_other (n : Z) (t u : string) (tbl : UsersTable) :
  u <> t ->
  find (fun r => String.eqb (fst r) u) (update_users n t tbl) =
  find (fun r => String.eqb (fst r) u) tbl.
Proof.
  intros Hne. unfold update_users. induction tbl as [|r tbl IH]; simpl; [reflexivity|].
  destruct (String.eqb (fst r) t) eqn:E; simpl.
  - apply String.eqb_eq in E.
    assert (H : String.eqb (fst r) u = false) by (apply String.eqb_neq; congruence).
    now rewrite H.
  - destruct (String.eqb (fst r) u); [reflexivity | exact IH].
Qed.

Lemma update_users_keys (n : Z) (t : string) (tbl : UsersTable) :
  map fst (update_users n t tbl) = map fst tbl.
Proof.
  unfold update_users. rewrite map_map. apply map_ext.
  intros r. now destruct (String.eqb (fst r) t).
Qed.

Lemma insert_or_ignore_ok (t : string) (tbl : UsersTable) :
  table_ok tbl -> table_ok (insert_or_ignore t tbl).
Proof.
  intros [Hnd Hrows]. unfold insert_or_ignore.
  destruct (existsb (fun r => String.eqb (fst r) t) tbl) eqn:E; [now split|].
  split.
  - rewrite map_app. simpl.
    assert (Hnot : ~ In t (map fst tbl)).
    { intros Hin. apply in_map_iff in Hin. destruct Hin as (r & Hr & Hin).
      assert (Hex : existsb (fun r0 => String.eqb (fst r0) t) tbl = true).
      { apply existsb_exists. exists r. split; [exact Hin|].
        rewrite Hr. apply String.eqb_refl. }
      congruence. }
    clear - Hnd Hnot. induction (map fst tbl) as [|k ks IH]; simpl.
    + constructor; [intros [] | constructor].
    + inversion Hnd as [|? ? Hk Hks]; subst. constructor.
      * intros Hin. apply in_app_or in Hin. destruct Hin as [Hin | [<- | []]].
        -- now apply Hk.
        -- apply Hnot. now left.
      * apply IH; [exact Hks|]. intros Hin. apply Hnot. now right.
  - intros u games won Hin. apply in_app_or in Hin.
    destruct Hin as [Hin | [Heq | []]]; [now apply (Hrows u)|].
    injection Heq as <- <- <-. lia.
Qed.

Lemma update_users_ok (n : Z) (t : string) (tbl : UsersTable) :
  (0 <= n <= 1)%Z -> table_ok tbl -> table_ok (update_users n t tbl).
Proof.
  intros Hn [Hnd Hrows]. split.
  - now rewrite update_users_keys.
  - intros u games won Hin. unfold update_users in Hin.
    apply in_map_iff in Hin. destruct Hin as ([k [g w]] & Heq & Hin).
    simpl in Heq. specialize (Hrows k g w Hin).
    destruct (String.eqb k t); injection Heq as <- <- <-; lia.
Qed.

Lemma add_game_keeps_table (t : string) (w : option bool) (b : Bot) :
  keeps_table b (add_game t w b).
Proof.
  unfold keeps_table, add_game, andThen, emit, raise. intros Hok.
  destruct w as [[|]|]; simpl.
  - apply update_users_ok; [lia | now apply insert_or_ignore_ok].
  - apply update_users_ok; [lia | now apply insert_or_ignore_ok].
  - now apply insert_or_ignore_ok.
Qed.

Lemma keeps_table_andThen (b : Bot) (o : Out Bot) (k : Bot -> Out Bot) :
  keeps_table b o -> (forall b', keeps_table b' (k b')) -> keeps_table b (o ;; k).
Proof.
  unfold keeps_table. intros Ho Hk Hb. destruct (raised o) eqn:E.
  - rewrite (andThen_raised _ _ E). now apply Ho.
  - rewrite (andThen_ok _ _ E). cbn [final]. apply Hk. now apply Ho.
Qed.

Lemma untouched_keeps_table (b : Bot) (o : Out Bot) :
  stats_untouched b o -> keeps_table b o.
Proof. intros [Hd _] Hb. now rewrite Hd. Qed.

Lemma poll_keeps_table (now : Z) (b : Bot) :
  keeps_table b (get_active_game now b).
Proof.
  unfold get_active_game. destruct (_active_game b) as [g|]; [|now intros H].
  destruct (state g).
  - destruct (now - start_time g >? ACCEPT_CHALLENGE_WAIT_SECONDS)%Z; [|now intros H].
    apply keeps_table_andThen; [now intros H|].
    intros b'. apply untouched_keeps_table, set_active_game_stats.
  - now intros H.
  - apply keeps_table_andThen; [apply keeps_table_andThen; [now intros H|]|].
    + intros b'. apply add_game_keeps_table.
    + intros b'. apply untouched_keeps_table, set_active_game_stats.
Qed.

Lemma challenge_user_keeps_table (now : Z) (t l : string) (b : Bot) :
  keeps_table b (challenge_user now t l b).
Proof.
  unfold challenge_user. destruct (challenge_queue b).
  - apply keeps_table_andThen; [apply poll_keeps_table|].
    intros b'. destruct (_active_game b').
    + now intros H.
    + apply untouched_keeps_table, send_challenge_stats.
  - now intros H.
Qed.

Lemma step_keeps_table (now : Z) (op : Op) (b : Bot) :
  keeps_table b (step now op b).
Proof.
  assert (Hret : keeps_table b (ret b)) by now intros H.
  destruct op as [cmd | cmd | cmd | ev | | | w0 events]; simpl.
  - unfold challenge.
    destruct (guard_raises (cmd_user cmd)); [exact Hret|].
    destruct (negb (privileged (cmd_user cmd))); [exact Hret|].
    destruct (String.length (parameter cmd) =? 0)%nat; [exact Hret|].
    destruct (split_once (parameter cmd)) as [[t l]|]; [|exact Hret].
    apply challenge_user_keeps_table.
  - unfold play.
    destruct (String.length (parameter cmd) =? 0)%nat; [exact Hret|].
    apply challenge_user_keeps_table.
  - unfold when. destruct (guard_raises (cmd_user cmd)); [now intros H|].
    destruct (negb (privileged (cmd_user cmd))); now intros H.
  - destruct ev as [| gid mine | cid | |]; simpl; try exact Hret.
    + unfold handle_game_start_event.
      apply keeps_table_andThen; [apply poll_keeps_table|].
      intros b'. destruct (_active_game b'); now intros H.
    + unfold handle_challenge_declined_event.
      apply keeps_table_andThen; [apply poll_keeps_table|].
      intros b'. destruct (_active_game b') as [g|]; [|now intros H].
      destruct (String.eqb cid (challenge_id g)); [|now intros H].
      apply keeps_table_andThen; [now intros H|].
      intros b''. apply untouched_keeps_table, set_active_game_stats.
  - apply poll_keeps_table.
  - unfold thread_enter.
    destruct (_active_game_thread b) as [[gid first [| |] sid]|];
      destruct (_active_game b); now intros H.
  - unfold thread_run.
    destruct (_active_game_thread b) as [[gid first [| |] sid]|];
      destruct (_active_game b); now intros H.
Qed.

(** X11. The statistics table stays well formed: in every state a run from
    the initial state reaches it has one row per user, and in every row the
    wins lie between zero and the games played; [add_game] keeps this
    whatever outcome it is given, also when it raises. *)
Theorem statistics_table_stays_well_formed :
  (forall b, reachable b -> table_ok (user_database b))
  /\ (forall t w b,
        table_ok (user_database b) ->
        table_ok (user_database (final (add_game t w b)))).
Proof.
  split.
  - intros b [ops <-].
    assert (Hrun : forall l b0, table_ok (user_database b0) ->
                                table_ok (user_database (snd (run l b0)))).
    { induction l as [|[now op] rest IH]; intros b0 Hb0; simpl; [exact Hb0|].
      specialize (IH (final (step now op b0)) (step_keeps_table now op b0 Hb0)).
      now destruct (run rest (final (step now op b0))). }
    apply Hrun. split; [constructor | intros t g w []].
  - intros t w b. apply add_game_keeps_table.
Qed.

Lemma get_user_layout (t : string) (tbl : UsersTable) :
  info_games (get_user t tbl)
  = match find (fun r => String.eqb (fst r) t) tbl with
    | Some r => fst (snd r) | None => 0%Z end
  /\ info_won (get_user t tbl)
     = match find (fun r => String.eqb (fst r) t) tbl with
       | Some r => snd (snd r) | None => 0%Z end.
Proof.
  unfold get_user.
  destruct (find (fun r => String.eqb (fst r) t) tbl) as [[k [g w]]|]; now split.
Qed.

(** X12. Recording a game and reading the user back: after [add_game] with
    an outcome, [get_user] shows one more game for that user and one more
    win if the user won (counting from zero for a user without a row),
    and the games and wins of every other user are as before. *)
Theorem add_game_then_get_user (t : string) (w : bool) (b : Bot) :
  let o := add_game t (Some w) b in
  let before := user_database b in
  let after := user_database (final o) in
  raised o = None
  /\ info_games (get_user t after) = (info_games (get_user t before) + 1)%Z
  /\ info_won (get_user t after)
     = (info_won (get_user t before) + (if w then 1 else 0))%Z
  /\ (forall u, u <> t ->
        info_games (get_user u after) = info_games (get_user u before)
        /\ info_won (get_user u after) = info_won (get_user u before)).
Proof.
  cbn zeta.
  assert (Hdb : user_database (final (add_game t (Some w) b))
                = update_users (if w then 1 else 0) t
                    (insert_or_ignore t (user_database b))).
  { unfold add_game, andThen, emit. destruct w; reflexivity. }
  split; [now destruct (add_game_spec t (Some w) b) as (_ & _ & _ & _ & H)|].
  rewrite Hdb.
  destruct (get_user_layout t (update_users (if w then 1 else 0) t
                                 (insert_or_ignore t (user_database b)))) as [Hg Hw].
  destruct (get_user_layout t (user_database b)) as [Hg0 Hw0].
  rewrite Hg, Hw, Hg0, Hw0.
  rewrite update_users_find_same, insert_or_ignore_find_same.
  split; [|split].
  - now destruct (find (fun r => String.eqb (fst r) t) (user_database b)).
  - now destruct (find (fun r => String.eqb (fst r) t) (user_database b)).
  - intros u Hu.
    destruct (get_user_layout u (update_users (if w then 1 else 0) t
                                   (insert_or_ignore t (user_database b)))) as [Hgu Hwu].
    destruct (get_user_layout u (user_database b)) as [Hgu0 Hwu0].
    rewrite Hgu, Hwu, Hgu0, Hwu0.
    rewrite (update_users_find_other _ _ Hu), (insert_or_ignore_find_other _ Hu).
    now split.
Qed.

Lemma filter_shorter (A : Type) (f : A -> bool) (l : list A) (x : A) :
  In x l -> f x = false -> (List.length (filter f l) < List.length l)%nat.
Proof.
  induction l as [|y l IH]; simpl; intros Hin Hx; [destruct Hin|].
  pose proof (filter_length_le f l) as Hle.
  destruct Hin as [-> | Hin].
  - rewrite Hx. lia.
  - specialize (IH Hin Hx). destruct (f y); simpl; lia.
Qed.

(** X13. The rank [get_user] reports: a user without a row gets zero
    games, zero wins and the rank "1/1"; a user with a row gets "r/n"
    where n is the number of users and r, one more than the number of
    users with strictly more wins, lies between 1 and n, and is 1 exactly
    when no user has more wins. *)
Theorem get_user_rank_is_within_total (t : string) (tbl : UsersTable) :
  (find (fun r => String.eqb (fst r) t) tbl = None ->
   get_user t tbl = mkInfo 0 0 "1/1")
  /\ (forall k games won,
        find (fun r => String.eqb (fst r) t) tbl = Some (k, (games, won)) ->
        let r := rank_of won tbl in
        let n := get_total_users tbl in
        get_user t tbl
          = mkInfo games won (str_of_nat r ++ "/" ++ str_of_nat n)
        /\ (1 <= r <= n)%nat
        /\ (r = 1%nat <->
            forall u g w, In (u, (g, w)) tbl -> (w <= won)%Z)).
Proof.
  split.
  - intros Hf. unfold get_user. now rewrite Hf.
  - intros k games won Hf. cbn zeta. split; [|split].
    + unfold get_user. now rewrite Hf.
    + unfold rank_of, get_total_users.
      apply find_some in Hf. destruct Hf as [Hin _].
      assert (Hself : (fun r : string * (Z * Z) => (snd (snd r) >? won)%Z)
                        (k, (games, won)) = false).
      { simpl. destruct (Z.gtb_spec won won); [lia | reflexivity]. }
      pose proof (filter_shorter _ _ _ Hin Hself). lia.
    + unfold rank_of. split.
      * intros Hr u g w Hin.
        destruct (Z.gtb_spec w won) as [Hgt | Hle]; [|exact Hle].
        assert (Hf' : In (u, (g, w))
                        (filter (fun r => (snd (snd r) >? won)%Z) tbl)).
        { apply filter_In. split; [exact Hin|]. simpl. now apply Z.gtb_lt. }
        destruct (filter (fun r => (snd (snd r) >? won)%Z) tbl);
          [destruct Hf' | simpl in Hr; lia].
      * intros Hall.
        destruct (filter (fun r => (snd (snd r) >? won)%Z) tbl) as [|[u [g w]] rest] eqn:E;
          [reflexivity|].
        assert (Hin : In (u, (g, w)) (filter (fun r => (snd (snd r) >? won)%Z) tbl)).
        { rewrite E. now left. }
        apply filter_In in Hin. destruct Hin as [Hin Hgt]. simpl in Hgt.
        apply Z.gtb_lt in Hgt. specialize (Hall u g w Hin). lia.
Qed.

(** ** What the game thread says *)

Lemma game_effects_quiet (tr : list Effect) :
  Forall game_effect tr ->
  add_game_calls tr = [] /\ issued tr = []
  /\ (forall l, ~ In (ChallengesCreate l) tr) /\ (forall m, ~ In (Reply m) tr).
Proof.
  induction 1 as [|e tr He Htr IH]; simpl.
  - repeat split; intros ? [].
  - destruct IH as (Ha & Hi & Hc & Hr).
    destruct e as [m | m | l | t w | gid san | gid first |]; simpl in He;
      try destruct He.
    + destruct m; simpl in He; try destruct He;
        (split; [exact Ha|]; split; [exact Hi|]; split;
         [intros l [H|H]; [discriminate | now apply (Hc l)]
         |intros m' [H|H]; [discriminate | now apply (Hr m')]]).
    + split; [exact Ha|]. split; [exact Hi|]. split.
      * intros l [H|H]; [discriminate | now apply (Hc l)].
      * intros m' [H|H]; [discriminate | now apply (Hr m')].
Qed.

Lemma game_effects_andThen (o : Out Game) (k : Game -> Out Game) :
  Forall game_effect (trace o) ->
  (forall g, Forall game_effect (trace (k g))) ->
  Forall game_effect (trace (o ;; k)).
Proof.
  intros Ho Hk. destruct (raised o) eqn:E.
  - now rewrite (andThen_raised _ _ E).
  - rewrite (andThen_ok _ _ E). cbn [trace]. apply Forall_app. now split.
Qed.

Lemma poll_game_effects (w : Window) (g : Game) :
  Forall game_effect (trace (poll_for_legal_move w g)).
Proof.
  rewrite poll_layout. cbn zeta.
  destruct (num_votes (collect (legal_sans (board g)) (w_msgs w) empty_tally)).
  - destruct (random_choice (w_pick w) (legal_sans (board g)));
      repeat constructor.
  - destruct (select_move (p :: p0)); repeat constructor.
Qed.

Lemma handle_state_change_game_effects (moves : list string) (w : Window) (g : Game) :
  Forall game_effect (trace (handle_state_change moves w g)).
Proof.
  assert (Hstep : forall (move_san : option string) g1,
            Forall game_effect
              (trace (match color g1 with
                      | Some c =>
                          if Bool.eqb (turn (board g1)) c then
                            (match move_san with
                             | Some san => emit (SendMessage (TOpponentMoved san)) g1
                             | None => ret g1
                             end) ;; poll_for_legal_move w
                          else ret g1
                      | None => ret g1
                      end))).
  { intros move_san g1. destruct (color g1) as [c|]; [|constructor].
    destruct (Bool.eqb (turn (board g1)) c); [|constructor].
    apply game_effects_andThen; [|intros g'; apply poll_game_effects].
    destruct move_san; repeat constructor. }
  unfold handle_state_change. destruct moves as [|m ms]; [apply (Hstep None g)|].
  destruct (push_uci (board g) (last (m :: ms) "")) as [x|[san bd]];
    [constructor | apply (Hstep (Some san) (with_board bd g))].
Qed.

Lemma game_loop_game_effects (events : list (GameEvent * Window)) :
  forall g, Forall game_effect (trace (game_loop events g)).
Proof.
  induction events as [|[ev w] rest IH]; intros g; simpl; [constructor|].
  destruct ev as [moves | status winner moves |].
  - apply game_effects_andThen; [apply handle_state_change_game_effects | exact IH].
  - destruct (String.eqb status "aborted"); [constructor|].
    destruct (String.eqb status "mate").
    + destruct winner as [wn|]; [|constructor].
      destruct (winner_is_own wn (color g)); constructor.
    + apply game_effects_andThen; [apply handle_state_change_game_effects | exact IH].
  - apply IH.
Qed.

Lemma start_run_game_effects (first : bool) (w0 : Window)
  (events : list (GameEvent * Window)) (g : Game) :
  Forall game_effect (trace (start_run first w0 events g)).
Proof.
  rewrite start_run_eq.
  apply game_effects_andThen; [|intros g'; constructor].
  apply game_effects_andThen; [|intros g'; apply game_loop_game_effects].
  unfold first_poll. destruct first; [apply poll_game_effects | constructor].
Qed.

(** X14. All that [Game.start] sends out are the announcements of a vote
    (opening, random or selected move), the announcement of the
    opponent's move, and the submission of a move: it creates no
    challenge, records no statistics and answers no command. *)
Theorem game_thread_only_votes_and_moves
  (gid : string) (first : bool) (w0 : Window)
  (events : list (GameEvent * Window)) (g : Game) :
  let tr := trace (start gid first w0 events g) in
  Forall game_effect tr
  /\ add_game_calls tr = []
  /\ issued tr = []
  /\ (forall l, ~ In (ChallengesCreate l) tr)
  /\ (forall m, ~ In (Reply m) tr).
Proof.
  cbn zeta. unfold start.
  pose proof (start_run_game_effects first w0 events (start_enter gid first g)) as H.
  split; [exact H | now apply game_effects_quiet].
Qed.

(** ** Statistics are recorded for finished sessions only *)

Lemma poll_stats_untouched (now : Z) (b : Bot) :
  (forall g, _active_game b = Some g -> state g <> FINISHED) ->
  stats_untouched b (get_active_game now b)
  /\ (forall g, _active_game (final (get_active_game now b)) = Some g ->
                state g <> FINISHED).
Proof.
  intros Hnf. unfold get_active_game.
  destruct (_active_game b) as [g|] eqn:Hg.
  2: { split; [now split|]. simpl. intros g Hg'. congruence. }
  specialize (Hnf g eq_refl).
  assert (Hsame : stats_untouched b (ret b)
                  /\ (forall g0, _active_game (final (ret b)) = Some g0 ->
                                 state g0 <> FINISHED)).
  { split; [now split|]. simpl. intros g0 Hg0. rewrite Hg in Hg0.
    injection Hg0 as <-. exact Hnf. }
  destruct (state g) eqn:Hst; [|exact Hsame | now elim Hnf].
  destruct (now - start_time g >? ACCEPT_CHALLENGE_WAIT_SECONDS)%Z; [|exact Hsame].
  split.
  - apply stats_untouched_andThen; [now split|].
    intros b'. apply set_active_game_stats.
  - rewrite andThen_ok by reflexivity. cbn [final emit].
    intros g0 Hg0.
    unfold set_active_game in Hg0. rewrite assign_active_layout in Hg0.
    rewrite andThen_ok in Hg0 by reflexivity. cbn [final] in Hg0.
    change (challenge_queue (with_thread None (with_active None b)))
      with (challenge_queue b) in Hg0.
    destruct (@advance_result now (challenge_queue b)
                (with_thread None (with_active None b)) eq_refl eq_refl)
      as (_ & _ & [(Hs & _) | (pre & t & l & post & cid & _ & _ & _ & _ & Hs & _)]).
    + rewrite Hs in Hg0. discriminate.
    + rewrite Hs in Hg0. injection Hg0 as <-. simpl. discriminate.
Qed.

Lemma challenge_user_stats (now : Z) (t l : string) (b : Bot) :
  (forall g, _active_game b = Some g -> state g <> FINISHED) ->
  stats_untouched b (challenge_user now t l b).
Proof.
  intros Hnf. unfold challenge_user. destruct (challenge_queue b).
  - apply stats_untouched_andThen; [now apply poll_stats_untouched|].
    intros b'. destruct (_active_game b').
    + now split.
    + apply send_challenge_stats.
  - now split.
Qed.

(** X15. [add_game] is called, and the statistics table changed, only by an
    operation that finds a Finished session in the slot: from a state whose
    slot is empty or holds a pending or running session, no operation
    calls it.  From such a state the only exception is the [TypeError] of
    the guard of [challenge] and [when] for a caller who is no moderator
    and has no badges, which changes and sends nothing. *)
Theorem statistics_change_only_for_finished_session
  (now : Z) (op : Op) (b : Bot) :
  (forall g, _active_game b = Some g -> state g <> FINISHED) ->
  let o := step now op b in
  add_game_calls (trace o) = []
  /\ user_database (final o) = user_database b
  /\ (raised o = None
      \/ (raised o = Some TypeError /\ trace o = [] /\ final o = b
          /\ exists cmd, (op = OpChallenge cmd \/ op = OpWhen cmd)
                         /\ guard_raises (cmd_user cmd) = true)).
Proof.
  intros Hnf. cbn zeta.
  assert (Hr : raised (step now op b) = None
               \/ (raised (step now op b) = Some TypeError
                   /\ trace (step now op b) = [] /\ final (step now op b) = b
                   /\ exists cmd, (op = OpChallenge cmd \/ op = OpWhen cmd)
                                  /\ guard_raises (cmd_user cmd) = true)).
  { assert (Hp : raised (get_active_game now b) = None).
    { rewrite poll_raised. destruct (_active_game b) as [g|] eqn:Hg; [|reflexivity].
      specialize (Hnf g eq_refl). now destruct (state g). }
    assert (Hcu : forall t l, raised (challenge_user now t l b) = None).
    { intros t l. unfold challenge_user. destruct (challenge_queue b); [|reflexivity].
      rewrite (andThen_ok _ _ Hp). cbn [raised].
      destruct (_active_game (final (get_active_game now b))); [reflexivity|].
      apply send_challenge_spec. }
    destruct op as [cmd | cmd | cmd | ev | | | w0 events]; cbn [step].
    - unfold challenge. destruct (guard_raises (cmd_user cmd)) eqn:G.
      + right. repeat split; try reflexivity. exists cmd. split; [now left | exact G].
      + left. destruct (negb (privileged (cmd_user cmd))); [reflexivity|].
        destruct (String.length (parameter cmd) =? 0)%nat; [reflexivity|].
        destruct (split_once (parameter cmd)) as [[t l]|]; [apply Hcu | reflexivity].
    - left. unfold play.
      destruct (String.length (parameter cmd) =? 0)%nat; [reflexivity | apply Hcu].
    - unfold when. destruct (guard_raises (cmd_user cmd)) eqn:G.
      + right. repeat split; try reflexivity. exists cmd. split; [now right | exact G].
      + left. now destruct (negb (privileged (cmd_user cmd))).
    - left. destruct ev as [| gid mine | cid | |]; cbn [handle_incoming];
        try reflexivity.
      + unfold handle_game_start_event. rewrite (andThen_ok _ _ Hp). cbn [raised].
        now destruct (_active_game (final (get_active_game now b))).
      + unfold handle_challenge_declined_event.
        rewrite (andThen_ok _ _ Hp). cbn [raised].
        destruct (_active_game (final (get_active_game now b))) as [g|]; [|reflexivity].
        destruct (String.eqb cid (challenge_id g)); [|reflexivity].
        rewrite andThen_ok by reflexivity. cbn [raised final emit].
        apply set_active_game_spec.
    - left. exact Hp.
    - left. unfold thread_enter.
      destruct (_active_game_thread b) as [[gid first [| |] sid]|];
        now destruct (_active_game b).
    - left. unfold thread_run.
      destruct (_active_game_thread b) as [[gid first [| |] sid]|];
        now destruct (_active_game b). }
  assert (Hs : stats_untouched b (step now op b)).
  { assert (Hret : stats_untouched b (ret b)) by now split.
    destruct op as [cmd | cmd | cmd | ev | | | w0 events]; simpl.
    - unfold challenge.
      destruct (guard_raises (cmd_user cmd)); [exact Hret|].
      destruct (negb (privileged (cmd_user cmd))); [exact Hret|].
      destruct (String.length (parameter cmd) =? 0)%nat; [exact Hret|].
      destruct (split_once (parameter cmd)) as [[t l]|]; [|exact Hret].
      now apply challenge_user_stats.
    - unfold play.
      destruct (String.length (parameter cmd) =? 0)%nat; [exact Hret|].
      now apply challenge_user_stats.
    - unfold when. destruct (guard_raises (cmd_user cmd)); [exact Hret|].
      destruct (negb (privileged (cmd_user cmd))); [exact Hret|].
      split; [reflexivity|]. cbn [trace].
      rewrite add_game_calls_app. simpl. rewrite app_nil_r.
      generalize 0%nat. induction (challenge_queue b) as [|[t l] q IH]; intros n;
        simpl; [reflexivity|].
      rewrite add_game_calls_app, IH.
      now destruct (String.eqb t (user_name (cmd_user cmd))).
    - destruct ev as [| gid mine | cid | |]; simpl; try exact Hret.
      + unfold handle_game_start_event.
        apply stats_untouched_andThen; [now apply poll_stats_untouched|].
        intros b'. destruct (_active_game b'); now split.
      + unfold handle_challenge_declined_event.
        apply stats_untouched_andThen; [now apply poll_stats_untouched|].
        intros b'. destruct (_active_game b') as [g|]; [|now split].
        destruct (String.eqb cid (challenge_id g)); [|now split].
        apply stats_untouched_andThen; [now split|].
        intros b''. apply set_active_game_stats.
    - now apply poll_stats_untouched.
    - unfold thread_enter.
      destruct (_active_game_thread b) as [[gid first [| |] sid]|];
        destruct (_active_game b); now split.
    - unfold thread_run.
      destruct (_active_game_thread b) as [[gid first [| |] sid]|];
        destruct (_active_game b) as [g|]; try now split.
      split; [reflexivity|]. cbn [trace].
      now apply game_effects_quiet, start_run_game_effects. }
  destruct Hs as [Hd Ha]. split; [exact Ha|]. split; [exact Hd | exact Hr].
Qed.

(** ** A game in progress *)

Lemma in_progress_pending (now : Z) (g : Game) :
  state g = IN_PROGRESS -> pending now g = true.
Proof. unfold pending. now intros ->. Qed.

(** X16. A game in progress is not cancelled: whatever the clock says, no
    poll, command, game-start event or step of the game thread removes an
    InProgress session from the slot or issues a challenge beside it; new
    requests are queued.  Only a challenge-declined event carrying the
    session's own challenge id takes it out. *)
Theorem in_progress_session_is_not_dropped
  (now : Z) (op : Op) (b : Bot) (g : Game) :
  _active_game b = Some g -> state g = IN_PROGRESS ->
  op <> OpIncoming (EvChallengeDeclined (challenge_id g)) ->
  let o := step now op b in
  (exists g', _active_game (final o) = Some g' /\ same_session g g')
  /\ issued (trace o) = []
  /\ challenge_queue (final o) = challenge_queue b ++ taken now op b.
Proof.
  intros Hg Hst Hop. cbn zeta.
  pose proof (poll_pending now b Hg (in_progress_pending now g Hst)) as Hpoll.
  assert (Hslot : exists g', _active_game (final (step now op b)) = Some g'
                             /\ same_session g g').
  { assert (Hsame : forall b', _active_game b' = _active_game b ->
              exists g', _active_game b' = Some g' /\ same_session g g').
    { intros b' Hb'. exists g. rewrite Hb'. split; [exact Hg|].
      apply same_session_refl. }
    assert (Hcu : forall t l, exists g',
              _active_game (final (challenge_user now t l b)) = Some g'
              /\ same_session g g').
    { intros t l. unfold challenge_user. destruct (challenge_queue b).
      - rewrite Hpoll, andThen_ret_l, Hg. now apply Hsame.
      - now apply Hsame. }
    destruct op as [cmd | cmd | cmd | ev | | | w0 events]; cbn [step].
    - unfold challenge.
      destruct (guard_raises (cmd_user cmd)); [now apply Hsame|].
      destruct (negb (privileged (cmd_user cmd))); [now apply Hsame|].
      destruct (String.length (parameter cmd) =? 0)%nat; [now apply Hsame|].
      destruct (split_once (parameter cmd)) as [[t l]|]; [apply Hcu | now apply Hsame].
    - unfold play.
      destruct (String.length (parameter cmd) =? 0)%nat; [now apply Hsame | apply Hcu].
    - unfold when. destruct (guard_raises (cmd_user cmd)); [now apply Hsame|].
      destruct (negb (privileged (cmd_user cmd))); now apply Hsame.
    - destruct ev as [| gid mine | cid | |]; cbn [handle_incoming];
        try now apply Hsame.
      + unfold handle_game_start_event. rewrite Hpoll, andThen_ret_l, Hg.
        now apply Hsame.
      + unfold handle_challenge_declined_event. rewrite Hpoll, andThen_ret_l, Hg.
        destruct (String.eqb cid (challenge_id g)) eqn:E; [|now apply Hsame].
        apply String.eqb_eq in E. subst cid. now elim Hop.
    - rewrite Hpoll. now apply Hsame.
    - unfold thread_enter. rewrite Hg.
      destruct (_active_game_thread b) as [[gid first [| |] sid]|];
        try now apply Hsame.
      exists (start_enter gid first g). split; [reflexivity|].
      apply start_enter_fields.
    - unfold thread_run. rewrite Hg.
      destruct (_active_game_thread b) as [[gid first [| |] sid]|];
        try now apply Hsame.
      exists (final (start_run first w0 events g)). split; [reflexivity|].
      apply start_run_quiet. }
  split; [exact Hslot|].
  pose proof (step_serves now op b) as Hserves. unfold serves in Hserves.
  assert (Hi : issued (trace (step now op b)) = []).
  { assert (Hcu : forall t l, issued (trace (challenge_user now t l b)) = []).
    { intros t l. unfold challenge_user. destruct (challenge_queue b).
      - now rewrite Hpoll, andThen_ret_l, Hg.
      - reflexivity. }
    destruct op as [cmd | cmd | cmd | ev | | | w0 events]; cbn [step].
    - unfold challenge.
      destruct (guard_raises (cmd_user cmd)); [reflexivity|].
      destruct (negb (privileged (cmd_user cmd))); [reflexivity|].
      destruct (String.length (parameter cmd) =? 0)%nat; [reflexivity|].
      destruct (split_once (parameter cmd)) as [[t l]|]; [apply Hcu | reflexivity].
    - unfold play.
      destruct (String.length (parameter cmd) =? 0)%nat; [reflexivity | apply Hcu].
    - unfold when. destruct (guard_raises (cmd_user cmd)); [reflexivity|].
    destruct (negb (privileged (cmd_user cmd))); [reflexivity|].
      cbn [trace]. now rewrite issued_app, when_scan_issues_nothing.
    - destruct ev as [| gid mine | cid | |]; cbn [handle_incoming]; try reflexivity.
      + unfold handle_game_start_event. now rewrite Hpoll, andThen_ret_l, Hg.
      + unfold handle_challenge_declined_event. rewrite Hpoll, andThen_ret_l, Hg.
        destruct (String.eqb cid (challenge_id g)) eqn:E; [|reflexivity].
        apply String.eqb_eq in E. subst cid. now elim Hop.
    - now rewrite Hpoll.
    - unfold thread_enter.
      destruct (_active_game_thread b) as [[gid first [| |] sid]|];
        now destruct (_active_game b).
    - unfold thread_run. rewrite Hg.
      destruct (_active_game_thread b) as [[gid first [| |] sid]|];
        try reflexivity.
      apply start_run_quiet. }
  split; [exact Hi|]. now rewrite Hi in Hserves.
Qed.

(** ** Declined challenges *)

(** X17. A challenge-declined event is matched by challenge id alone.  On
    a session the poll leaves in the slot (pending within the threshold, or
    in progress), an event with another id changes nothing; an event with
    the session's id announces the decline and retires the session, in
    progress or not, advancing the queue; and if the queue was empty the
    same event arriving again changes nothing more. *)
Theorem declined_event_retires_matching_session
  (now : Z) (cid : string) (b : Bot) (g : Game) :
  _active_game b = Some g -> pending now g = true ->
  let o := handle_challenge_declined_event now cid b in
  (cid <> challenge_id g -> o = ret b)
  /\ (cid = challenge_id g ->
      let cleared := with_thread None (with_active None b) in
      let next := next_challenge now cleared in
      raised o = None
      /\ trace o = SendMessage (TDeclined (opponent_twitch g) (opponent_lichess g))
                   :: joined b ++ trace next
      /\ final o = final next
      /\ (challenge_queue b = [] ->
          _active_game (final o) = None
          /\ forall later,
               handle_challenge_declined_event later cid (final o)
               = ret (final o))).
Proof.
  intros Hg Hp. cbn zeta. split.
  - intros Hne. unfold handle_challenge_declined_event.
    rewrite (poll_pending now b Hg Hp), andThen_ret_l, Hg.
    apply String.eqb_neq in Hne. now rewrite Hne.
  - intros ->.
    assert (Ho : handle_challenge_declined_event now (challenge_id g) b
                 = mkOut (SendMessage (TDeclined (opponent_twitch g) (opponent_lichess g))
                            :: joined b
                               ++ trace (next_challenge now
                                           (with_thread None (with_active None b))))
                         (final (next_challenge now
                                   (with_thread None (with_active None b))))
                         (raised (next_challenge now
                                    (with_thread None (with_active None b))))).
    { unfold handle_challenge_declined_event.
      rewrite (poll_pending now b Hg Hp), andThen_ret_l, Hg, String.eqb_refl.
      rewrite andThen_ok by reflexivity. cbn [trace final raised emit].
      now rewrite set_active_game_None_layout. }
    rewrite Ho. cbn [trace final raised].
    split; [apply next_challenge_spec|]. split; [reflexivity|].
    split; [reflexivity|].
    intros Hq. unfold next_challenge.
    change (challenge_queue (with_thread None (with_active None b)))
      with (challenge_queue b).
    rewrite Hq. cbn [final ret].
    split; [reflexivity|].
    intros later. unfold handle_challenge_declined_event.
    rewrite poll_empty_slot by reflexivity. now rewrite andThen_ret_l.
Qed.

End MoreProperties.

Section StateChange.
Context {chess : ChessLib}.

(** X18. [handle_state_change] applies only the newest move of the list it
    is given: the moves before the last one are not replayed on the board.
    If that move cannot be applied the exception of the chess library goes
    through ([ValueError] from [from_uci], [AssertionError] from [san]),
    with nothing sent and the game as it was; otherwise the board is the
    one after that move, and a vote is held, after announcing the move,
    exactly when it is then the session's turn. *)
Theorem state_change_applies_only_newest_move
  (earlier : list string) (m : string) (w : Window) (g : Game) :
  let o := handle_state_change (earlier ++ [m]) w g in
  o = handle_state_change [m] w g
  /\ (forall x, push_uci (board g) m = inl x ->
      o = mkOut [] g (Some x))
  /\ (forall san bd, push_uci (board g) m = inr (san, bd) ->
      board (final o) = bd
      /\ ((color g = Some (turn bd) ->
           trace o = SendMessage (TOpponentMoved san)
                     :: trace (poll_for_legal_move w (with_board bd g)))
          /\ (color g <> Some (turn bd) -> trace o = []))).
Proof.
  cbn zeta.
  assert (Hlast : last (earlier ++ [m]) "" = m) by apply last_last.
  assert (Heq : handle_state_change (earlier ++ [m]) w g
                = handle_state_change [m] w g).
  { unfold handle_state_change. rewrite Hlast.
    destruct earlier; reflexivity. }
  split; [exact Heq|]. rewrite Heq. unfold handle_state_change. cbn [last].
  split.
  - intros x Hx. now rewrite Hx.
  - intros san bd Hpush. rewrite Hpush. cbn [color with_board board].
    assert (Hb : final (poll_for_legal_move w (with_board bd g)) = with_board bd g).
    { rewrite poll_layout. cbn zeta.
      destruct (num_votes (collect (legal_sans (board (with_board bd g)))
                             (w_msgs w) empty_tally)).
      - now destruct (random_choice (w_pick w) (legal_sans (board (with_board bd g)))).
      - now destruct (select_move (p :: p0)). }
    destruct (color g) as [c|] eqn:Hc.
    + destruct (Bool.eqb (turn bd) c) eqn:E.
      * apply Bool.eqb_prop in E. subst c.
        rewrite andThen_ok by reflexivity. cbn [trace final raised emit app].
        rewrite Hb. split; [reflexivity|]. split; [reflexivity|].
        intros Hne. now elim Hne.
      * split; [reflexivity|]. split; [|reflexivity].
        intros Hcol. injection Hcol as ->. rewrite Bool.eqb_reflx in E. discriminate.
    + split; [reflexivity|]. split; [discriminate | reflexivity].
Qed.

End StateChange.

(** * One session at a time, and the threads that outlive theirs *)

Section ProcessProperties.
Context {chess : ChessLib} {server : ChessServer} {constants : Constants}.




















End ProcessProperties.

(** * The further properties at concrete inputs *)

(** X1 at a moderator's "challenge bob bob li": the Lichess name keeps its
    space; and at a viewer without badges, whose command raises. *)
Lemma challenge_command_splits_at_first_space_witness :
  let cmd := mkCmd (mkUser "mod" true (Some ["moderator"])) "bob bob li" in
  let viewer := mkCmd (mkUser "x" false None) "bob bob_li" in
  @challenge demo_chess demo_server demo_constants 5 cmd (demo_bot None [])
  = @challenge_user demo_chess demo_server demo_constants 5 "bob" "bob li"
      (demo_bot None [])
  /\ @challenge demo_chess demo_server demo_constants 5 viewer (demo_bot None [])
     = mkOut [] (demo_bot None []) (Some TypeError).
Proof.
  cbn zeta. split.
  - destruct (@challenge_command_splits_at_first_space demo_chess demo_server
                demo_constants 5
                (mkCmd (mkUser "mod" true (Some ["moderator"])) "bob bob li")
                (demo_bot None [])) as [_ [_ Hsplit]].
    apply (Hsplit "bob" "bob li"); reflexivity.
  - destruct (@challenge_command_splits_at_first_space demo_chess demo_server
                demo_constants 5
                (mkCmd (mkUser "x" false None) "bob bob_li")
                (demo_bot None [])) as [Hraise _].
    apply Hraise; reflexivity.
Defined.

(** X2 at a window with two votes for d4 and one for e4. *)
Lemma vote_window_submits_one_legal_move_witness :
  let w := mkWindow [mkMsg "alice" "e4"; mkMsg "bob" "d4"; mkMsg "carol" "d4"] 0 in
  let g := demo_game IN_PROGRESS 0 None in
  @legal_sans demo_chess (board g) <> []
  /\ exists m, In m (@legal_sans demo_chess (board g))
       /\ raised (@poll_for_legal_move demo_chess w g) = None
       /\ In (MakeMove None m) (trace (@poll_for_legal_move demo_chess w g)).
Proof.
  cbn zeta.
  assert (Hl : @legal_sans demo_chess (board (demo_game IN_PROGRESS 0 None)) <> []).
  { discriminate. }
  split; [exact Hl|].
  destruct (@vote_window_submits_one_legal_move demo_chess
              (mkWindow [mkMsg "alice" "e4"; mkMsg "bob" "d4"; mkMsg "carol" "d4"] 0)
              (demo_game IN_PROGRESS 0 None)) as (_ & _ & Hmove).
  destruct (Hmove Hl) as (m & Hin & Hr & Htr).
  exists m. split; [exact Hin|]. split; [exact Hr|].
  destruct Htr as [-> | ->]; simpl; tauto.
Defined.

(** X3 at a window with one vote, for two different draws. *)
Lemma random_draw_only_without_votes_witness :
  let g := demo_game IN_PROGRESS 0 None in
  counted (@legal_sans demo_chess (board g)) [] [mkMsg "alice" "c4"] <> []
  /\ @poll_for_legal_move demo_chess (mkWindow [mkMsg "alice" "c4"] 0) g
     = @poll_for_legal_move demo_chess (mkWindow [mkMsg "alice" "c4"] 7) g.
Proof.
  cbn zeta.
  assert (Hc : counted (@legal_sans demo_chess (board (demo_game IN_PROGRESS 0 None)))
                 [] [mkMsg "alice" "c4"] <> []).
  { vm_compute. discriminate. }
  split; [exact Hc|].
  destruct (@random_draw_only_without_votes demo_chess [mkMsg "alice" "c4"]
              (demo_game IN_PROGRESS 0 None)) as [Hvotes _].
  destruct (Hvotes Hc 0%nat 7%nat) as [Heq _]. exact Heq.
Defined.

(** X4 at the scenario of the specification. *)
Lemma each_voter_counts_once_witness :
  let t := collect ["e4"; "d4"; "c4"]
             [mkMsg "alice" "e4"; mkMsg "bob" "d4";
              mkMsg "alice" "d4"; mkMsg "carol" "d4"] empty_tally in
  In ("d4", 2%Z) (num_votes t)
  /\ In "d4" ["e4"; "d4"; "c4"] /\ (1 <= 2)%Z
  /\ sum_votes (num_votes t) = 3%Z.
Proof.
  cbn zeta.
  destruct (each_voter_counts_once ["e4"; "d4"; "c4"]
              [mkMsg "alice" "e4"; mkMsg "bob" "d4";
               mkMsg "alice" "d4"; mkMsg "carol" "d4"])
    as (_ & _ & Hsum & _ & Hrows).
  assert (Hin : In ("d4", 2%Z)
                  (num_votes (collect ["e4"; "d4"; "c4"]
                     [mkMsg "alice" "e4"; mkMsg "bob" "d4";
                      mkMsg "alice" "d4"; mkMsg "carol" "d4"] empty_tally))).
  { vm_compute. right. now left. }
  split; [exact Hin|].
  destruct (Hrows "d4" 2%Z Hin) as [Hl Hv].
  split; [exact Hl|]. split; [exact Hv|]. rewrite Hsum. reflexivity.
Defined.

(** X5 at a game whose opponent's move cannot be applied: the thread
    ends and the session stays InProgress. *)
Lemma start_finishes_unless_it_raises_witness :
  let stuck : ChessLib :=
    {| Board := unit; new_board := tt; legal_sans := fun _ => [];
       push_uci := fun _ _ => inl AssertionError; turn := fun _ => true |} in
  let g := @mkGame stuck "alice" "alice_li" CHALLENGE_SENT 0 tt None None "ch0" None in
  let o := @start stuck "g1" false (mkWindow [] 0)
             [(GameStateEvent "started" None ["e2e4"], mkWindow [] 0)] g in
  raised o <> None /\ state (final o) = IN_PROGRESS.
Proof.
  cbn zeta.
  set (stuck := {| Board := unit; new_board := tt; legal_sans := fun _ => [];
                   push_uci := fun _ _ => inl AssertionError; turn := fun _ => true |}).
  destruct (@start_finishes_unless_it_raises stuck "g1" false (mkWindow [] 0)
              [(GameStateEvent "started" None ["e2e4"], mkWindow [] 0)]
              (@mkGame stuck "alice" "alice_li" CHALLENGE_SENT 0 tt None None "ch0" None))
    as (_ & _ & _ & _ & Hraise & _).
  assert (Hr : raised (@start stuck "g1" false (mkWindow [] 0)
                         [(GameStateEvent "started" None ["e2e4"], mkWindow [] 0)]
                         (@mkGame stuck "alice" "alice_li" CHALLENGE_SENT 0 tt
                                  None None "ch0" None)) <> None).
  { vm_compute. discriminate. }
  split; [exact Hr | exact (Hraise Hr)].
Defined.

(** X6 at a game the opponent resigns. *)
Lemma outcome_is_recorded_only_by_mate_witness :
  let events := [(GameStateEvent "started" None ["e2e4"], mkWindow [] 0);
                 (GameStateEvent "resign" (Some "white") ["e2e4"], mkWindow [] 0)] in
  let o := @start demo_chess "g1" false (mkWindow [] 0) events
             (demo_game CHALLENGE_SENT 0 None) in
  Forall (fun e => is_mate (fst e) = false) events
  /\ state (final o) = FINISHED /\ user_won (final o) = None.
Proof.
  cbn zeta.
  assert (Hno : Forall (fun e : GameEvent * Window => is_mate (fst e) = false)
                  [(GameStateEvent "started" None ["e2e4"], mkWindow [] 0);
                   (GameStateEvent "resign" (Some "white") ["e2e4"], mkWindow [] 0)]).
  { repeat constructor. }
  split; [exact Hno|]. split; [reflexivity|].
  apply (@outcome_is_recorded_only_by_mate demo_chess "g1" false (mkWindow [] 0)
           _ (demo_game CHALLENGE_SENT 0 None) Hno).
Defined.



(** X9 at a finished session without outcome, polled twice. *)
Lemma poll_fails_only_on_finished_without_outcome_witness :
  let b := demo_bot (Some (demo_game FINISHED 0 None)) [("bob", "bob_li")] in
  let o := @get_active_game demo_chess demo_server demo_constants 5 b in
  raised o = Some TypeError
  /\ raised (@get_active_game demo_chess demo_server demo_constants 6 (final o))
     = Some TypeError
  /\ challenge_queue (final o) = [("bob", "bob_li")].
Proof.
  cbn zeta.
  destruct (@poll_fails_only_on_finished_without_outcome demo_chess demo_server
              demo_constants 5
              (demo_bot (Some (demo_game FINISHED 0 None)) [("bob", "bob_li")]))
    as [Hiff Hstuck].
  assert (Hr : raised (@get_active_game demo_chess demo_server demo_constants 5
                         (demo_bot (Some (demo_game FINISHED 0 None))
                                   [("bob", "bob_li")])) = Some TypeError).
  { apply Hiff. split; [reflexivity|].
    exists (demo_game FINISHED 0 None). repeat split; reflexivity. }
  split; [exact Hr|].
  destruct Hstuck as (_ & Hq & Hlater).
  { rewrite Hr. discriminate. }
  split; [now rewrite Hlater | exact Hq].
Defined.

(** X10 at a finished game the user won. *)
Lemma poll_records_finished_game_once_witness :
  let g := demo_game FINISHED 0 (Some true) in
  let b := demo_bot (Some g) [] in
  let o := @get_active_game demo_chess demo_server demo_constants 5 b in
  raised o = None
  /\ trace o = [SendMessage (TResult true "alice" "alice_li");
                AddGame "alice" (Some true)]
  /\ render (TResult true "alice" "alice_li") = "Lost a game vs alice (alice_li), GG!"
  /\ user_database (final o) = [("alice", (1, 1)%Z)].
Proof.
  cbn zeta.
  destruct (@poll_records_finished_game_once demo_chess demo_server demo_constants
              5 (demo_bot (Some (demo_game FINISHED 0 (Some true))) [])
              (demo_game FINISHED 0 (Some true)) true eq_refl eq_refl eq_refl)
    as (Hr & _ & Hrender & _ & Hdb & _).
  split; [exact Hr|]. split; [reflexivity|]. split; [reflexivity|].
  rewrite Hdb. reflexivity.
Defined.

(** X11 after a won and a lost game of the same user. *)
Lemma statistics_table_stays_well_formed_witness :
  let b0 := demo_bot None [] in
  let b1 := final (@add_game demo_chess "alice" (Some true) b0) in
  let b2 := final (@add_game demo_chess "alice" (Some false) b1) in
  user_database b2 = [("alice", (2, 1)%Z)] /\ table_ok (user_database b2).
Proof.
  cbn zeta.
  destruct (@statistics_table_stays_well_formed demo_chess demo_server
              demo_constants) as [_ Hadd].
  split; [reflexivity|].
  apply Hadd. apply Hadd. split; [constructor | intros t g w []].
Defined.

(** X12 at a first game, won, with another user already in the table. *)
Lemma add_game_then_get_user_witness :
  let b := @mkBot demo_chess None None [] 0 [("bob", (3, 2)%Z)] in
  let after := user_database (final (@add_game demo_chess "alice" (Some true) b)) in
  info_games (get_user "alice" after) = 1%Z
  /\ info_won (get_user "alice" after) = 1%Z
  /\ info_games (get_user "bob" after) = 3%Z.
Proof.
  cbn zeta.
  destruct (@add_game_then_get_user demo_chess "alice" true
              (@mkBot demo_chess None None [] 0 [("bob", (3, 2)%Z)]))
    as (_ & Hg & Hw & Hother).
  split; [exact Hg|]. split; [exact Hw|].
  destruct (Hother "bob") as [Hb _]; [discriminate | exact Hb].
Defined.

(** X13 at a table of three users. *)
Lemma get_user_rank_is_within_total_witness :
  let tbl := [("alice", (5, 1)%Z); ("bob", (3, 2)%Z); ("carol", (4, 2)%Z)] in
  get_user "alice" tbl = mkInfo 5 1 "3/3"
  /\ get_user "carol" tbl = mkInfo 4 2 "1/3"
  /\ get_user "dave" tbl = mkInfo 0 0 "1/1"
  /\ (1 <= rank_of 1 tbl <= get_total_users tbl)%nat.
Proof.
  cbn zeta.
  destruct (get_user_rank_is_within_total "alice"
              [("alice", (5, 1)%Z); ("bob", (3, 2)%Z); ("carol", (4, 2)%Z)])
    as [_ Hknown].
  destruct (get_user_rank_is_within_total "dave"
              [("alice", (5, 1)%Z); ("bob", (3, 2)%Z); ("carol", (4, 2)%Z)])
    as [Hunknown _].
  destruct (Hknown "alice" 5%Z 1%Z eq_refl) as (Hinfo & Hbounds & _).
  split; [exact Hinfo|]. split; [reflexivity|].
  split; [exact (Hunknown eq_refl) | exact Hbounds].
Defined.

(** X14 at a short game. *)
Lemma game_thread_only_votes_and_moves_witness :
  let w := mkWindow [mkMsg "alice" "e4"] 0 in
  let tr := trace (@start demo_chess "g1" true w
                     [(GameStateEvent "mate" (Some "black") ["e7e5"], w)]
                     (demo_game CHALLENGE_SENT 0 None)) in
  tr = [SendMessage TVoteOpen; SendMessage (TVoteSelected "e4");
        MakeMove (Some "g1") "e4"]
  /\ add_game_calls tr = [] /\ issued tr = [].
Proof.
  cbn zeta.
  destruct (@game_thread_only_votes_and_moves demo_chess "g1" true
              (mkWindow [mkMsg "alice" "e4"] 0)
              [(GameStateEvent "mate" (Some "black") ["e7e5"],
                mkWindow [mkMsg "alice" "e4"] 0)]
              (demo_game CHALLENGE_SENT 0 None)) as (_ & Ha & Hi & _).
  split; [reflexivity|]. split; [exact Ha | exact Hi].
Defined.

(** X15 at a poll that times a challenge out. *)
Lemma statistics_change_only_for_finished_session_witness :
  let b := demo_bot (Some (demo_game CHALLENGE_SENT 0 None)) [("bob", "bob_li")] in
  let o := @step demo_chess demo_server demo_constants 100 OpPoll b in
  add_game_calls (trace o) = [] /\ user_database (final o) = [].
Proof.
  cbn zeta.
  destruct (@statistics_change_only_for_finished_session demo_chess demo_server
              demo_constants 100 OpPoll
              (demo_bot (Some (demo_game CHALLENGE_SENT 0 None)) [("bob", "bob_li")]))
    as (Ha & Hdb & _).
  - intros g Hg. injection Hg as <-. discriminate.
  - split; [exact Ha | exact Hdb].
Defined.

(** X16 at a request made, long after the challenge, while the game is in
    progress. *)
Lemma in_progress_session_is_not_dropped_witness :
  let g := demo_game IN_PROGRESS 0 None in
  let b := demo_bot (Some g) [] in
  let op := OpPlay (mkCmd (mkUser "bob" false None) "bob_li") in
  let o := @step demo_chess demo_server demo_constants 100000 op b in
  _active_game (final o) = Some g
  /\ issued (trace o) = []
  /\ challenge_queue (final o) = [("bob", "bob_li")].
Proof.
  cbn zeta.
  destruct (@in_progress_session_is_not_dropped demo_chess demo_server
              demo_constants 100000
              (OpPlay (mkCmd (mkUser "bob" false None) "bob_li"))
              (demo_bot (Some (demo_game IN_PROGRESS 0 None)) [])
              (demo_game IN_PROGRESS 0 None) eq_refl eq_refl)
    as (_ & Hi & Hq).
  - discriminate.
  - split; [reflexivity|]. split; [exact Hi | exact Hq].
Defined.

(** X17 at a decline of the pending challenge, and at a stale one. *)
Lemma declined_event_retires_matching_session_witness :
  let g := demo_game CHALLENGE_SENT 0 None in
  let b := demo_bot (Some g) [] in
  @handle_challenge_declined_event demo_chess demo_server demo_constants 5 "old" b
  = ret b
  /\ _active_game
       (final (@handle_challenge_declined_event demo_chess demo_server
                 demo_constants 5 "ch0" b)) = None.
Proof.
  cbn zeta.
  destruct (@declined_event_retires_matching_session demo_chess demo_server
              demo_constants 5 "old"
              (demo_bot (Some (demo_game CHALLENGE_SENT 0 None)) [])
              (demo_game CHALLENGE_SENT 0 None) eq_refl eq_refl) as [Hstale _].
  destruct (@declined_event_retires_matching_session demo_chess demo_server
              demo_constants 5 "ch0"
              (demo_bot (Some (demo_game CHALLENGE_SENT 0 None)) [])
              (demo_game CHALLENGE_SENT 0 None) eq_refl eq_refl) as [_ Hmatch].
  split.
  - apply Hstale. discriminate.
  - destruct (Hmatch eq_refl) as (_ & _ & _ & Hempty).
    destruct (Hempty eq_refl) as [Hslot _]. exact Hslot.
Defined.

(** X18 at a full game state with three moves, the session playing
    Black: only the third move reaches the board. *)
Lemma state_change_applies_only_newest_move_witness :
  let g := @mkGame demo_chess "alice" "alice_li" IN_PROGRESS 0 []
             (Some "g1") (Some false) "ch0" None in
  let o := @handle_state_change demo_chess ["e2e4"; "e7e5"; "g1f3"]
             (mkWindow [] 0) g in
  board (final o) = ["g1f3"]
  /\ trace o = [SendMessage (TOpponentMoved "g1f3"); SendMessage TVoteOpen;
                SendMessage (TVoteRandom "e4"); MakeMove (Some "g1") "e4"].
Proof.
  cbn zeta.
  destruct (@state_change_applies_only_newest_move demo_chess ["e2e4"; "e7e5"]
              "g1f3" (mkWindow [] 0)
              (@mkGame demo_chess "alice" "alice_li" IN_PROGRESS 0 []
                       (Some "g1") (Some false) "ch0" None))
    as (_ & _ & Hpush).
  destruct (Hpush "g1f3" ["g1f3"] eq_refl) as [Hb _].
  split; [exact Hb | reflexivity].
Defined.

(** * One session at a time, at concrete inputs *)


